(** * CSV-to-JSON refresh and JSON read endpoint

    A shallow embedding of the two AWS Lambda handlers of the repository,

    - [url_parser.py]: fetch a CSV document, give every row a fresh
      [id], store the rows as one JSON array in S3;
    - [json_endpoint.py]: load that array and answer with the record whose
      [id] was asked for, or else with a random one,

    together with the parts of the Python libraries the handlers call
    (UTF-8 decoding, [str.splitlines], [csv.DictReader], [uuid.uuid4],
    [json.dumps], [json.loads], [random.choice], the S3 object calls).

    Python values are modelled by [pyval]; a Python [str] is the list of its
    code points; exceptions are the constructors of [exn]; the S3 service is
    a finite map from bucket names to finite maps from keys to objects. *)

From Stdlib Require Import List NArith ZArith Lia Bool String Ascii.
From Stdlib Require Strings.Byte.
From stdpp Require Import gmap.

Local Open Scope N_scope.
#[local] Set Warnings "-register-all".

(** ** Strings, bytes, exceptions *)

(** A Python [str]: the sequence of its code points. *)
Definition pystr := list N.

(** A Python [bytes] object. *)
Definition bytes := list Byte.byte.

(** A string literal of the source, as a [pystr]. *)
Definition lit (s : string) : pystr :=
  map N_of_ascii (list_ascii_of_string s).

Arguments lit : simpl never.

(** The exceptions the two handlers can let escape. [OutsideModel] is not a
    Python exception: it marks the JSON documents this development does not
    interpret (number literals). *)
Inductive exn : Type :=
| RequestException
| HTTPError
| UnicodeDecodeError
| UnicodeEncodeError
| CsvError
| NoSuchBucket
| NoSuchKey
| JSONDecodeError
| KeyError
| TypeError
| AttributeError
| IndexError
| RecursionError
| OutsideModel.

Inductive result (A : Type) : Type :=
| Ok (a : A)
| Raise (e : exn).

Arguments Ok {A} a.
Arguments Raise {A} e.

Definition rbind {A B : Type} (m : result A) (k : A -> result B) : result B :=
  match m with
  | Ok a => k a
  | Raise e => Raise e
  end.

Declare Scope result_scope.
Delimit Scope result_scope with R.
Notation "'let*' x ':=' m 'in' k" := (rbind m (fun x => k))
  (at level 10, x name, m at level 100, k at level 200) : result_scope.
Notation "'let*' ' p ':=' m 'in' k" :=
  (rbind m (fun x => match x with p => k end))
  (at level 10, p pattern, m at level 100, k at level 200) : result_scope.

(** ** Python values *)

(** A dictionary key: a string, or Python's [None] (the [restkey] of
    [csv.DictReader]). *)
Definition pykey := option pystr.

(** The values the handlers handle. A [PDict] lists its items in insertion
    order, as a Python [dict] keeps them. *)
Inductive pyval : Type :=
| PNone
| PBool (b : bool)
| PStr (s : pystr)
| PList (l : list pyval)
| PDict (d : list (pykey * pyval)).

Definition pydict := list (pykey * pyval).

(** [d.get(k)], as an option. *)
Fixpoint dict_get (d : pydict) (k : pykey) : option pyval :=
  match d with
  | [] => None
  | (k', v) :: d' => if decide (k' = k) then Some v else dict_get d' k
  end.

(** [d[k] = v]: an existing key keeps its place, a new key goes last. *)
Fixpoint dict_set (d : pydict) (k : pykey) (v : pyval) : pydict :=
  match d with
  | [] => [(k, v)]
  | (k', v') :: d' =>
      if decide (k' = k) then (k', v) :: d' else (k', v') :: dict_set d' k v
  end.

(** [dict(pairs)]. *)
Definition dict_of_pairs (pairs : list (pykey * pyval)) : pydict :=
  fold_left (fun d kv => dict_set d (fst kv) (snd kv)) pairs [].

(** [bool(v)]. *)
Definition truthy (v : pyval) : bool :=
  match v with
  | PNone => false
  | PBool b => b
  | PStr s => negb (Nat.eqb (length s) 0)
  | PList l => negb (Nat.eqb (length l) 0)
  | PDict d => negb (Nat.eqb (length d) 0)
  end.

(** [a or b]. *)
Definition py_or (a b : pyval) : pyval := if truthy a then a else b.

(** [a == b]. Dictionaries compare without regard to order. *)
Fixpoint py_eq (a b : pyval) {struct a} : bool :=
  match a, b with
  | PNone, PNone => true
  | PBool x, PBool y => Bool.eqb x y
  | PStr s, PStr t => bool_decide (s = t)
  | PList xs, PList ys =>
      (fix all2 (xs ys : list pyval) {struct xs} : bool :=
         match xs, ys with
         | [], [] => true
         | x :: xs', y :: ys' => py_eq x y && all2 xs' ys'
         | _, _ => false
         end) xs ys
  | PDict d, PDict e =>
      Nat.eqb (length d) (length e) &&
      (fix every (d : pydict) {struct d} : bool :=
         match d with
         | [] => true
         | (k, v) :: d' =>
             match dict_get e k with
             | Some w => py_eq v w && every d'
             | None => false
             end
         end) d
  | _, _ => false
  end.

(** [v[k]] for a string key [k]. *)
Definition py_getitem (v : pyval) (k : pystr) : result pyval :=
  match v with
  | PDict d =>
      match dict_get d (Some k) with
      | Some x => Ok x
      | None => Raise KeyError
      end
  | _ => Raise TypeError
  end.

(** [v.get(k)]: only dictionaries have the method. *)
Definition py_get (v : pyval) (k : pystr) : result pyval :=
  match v with
  | PDict d =>
      match dict_get d (Some k) with
      | Some x => Ok x
      | None => Ok PNone
      end
  | _ => Raise AttributeError
  end.

(** [iter(v)], run to the end. *)
Definition py_iter (v : pyval) : result (list pyval) :=
  match v with
  | PList l => Ok l
  | PDict d =>
      Ok (map (fun kv => match fst kv with Some s => PStr s | None => PNone end) d)
  | PStr s => Ok (map (fun c => PStr [c]) s)
  | _ => Raise TypeError
  end.

(** ** UTF-8 *)

Definition is_surrogate (c : N) : bool := (0xD800 <=? c) && (c <=? 0xDFFF).

(** A Unicode scalar value: what a [str] decoded from UTF-8 holds. *)
Definition is_scalar (c : N) : bool := (c <? 0x110000) && negb (is_surrogate c).

Definition is_cont (b : N) : bool := N.land b 0xC0 =? 0x80.

Definition cont_bits (b : N) : N := N.land b 0x3F.

(** [b.decode('utf-8')] with the default strict error handling: a sequence
    is accepted when its continuation bytes are marked as such and it is
    the shortest encoding of a scalar value. *)
Fixpoint bytes_decode_N (b : list N) : result pystr :=
  match b with
  | [] => Ok []
  | b0 :: r0 =>
      if b0 <? 0x80 then (let* s := bytes_decode_N r0 in Ok (b0 :: s))%R
      else if (0xC0 <=? b0) && (b0 <? 0xE0) then
        match r0 with
        | b1 :: r1 =>
            let c := N.lor (N.shiftl (N.land b0 0x1F) 6) (cont_bits b1) in
            if is_cont b1 && (0x80 <=? c) && is_scalar c
            then (let* s := bytes_decode_N r1 in Ok (c :: s))%R
            else Raise UnicodeDecodeError
        | _ => Raise UnicodeDecodeError
        end
      else if (0xE0 <=? b0) && (b0 <? 0xF0) then
        match r0 with
        | b1 :: b2 :: r2 =>
            let c := N.lor (N.shiftl (N.land b0 0x0F) 12)
                       (N.lor (N.shiftl (cont_bits b1) 6) (cont_bits b2)) in
            if is_cont b1 && is_cont b2 && (0x800 <=? c) && is_scalar c
            then (let* s := bytes_decode_N r2 in Ok (c :: s))%R
            else Raise UnicodeDecodeError
        | _ => Raise UnicodeDecodeError
        end
      else if (0xF0 <=? b0) && (b0 <? 0xF8) then
        match r0 with
        | b1 :: b2 :: b3 :: r3 =>
            let c := N.lor (N.shiftl (N.land b0 0x07) 18)
                       (N.lor (N.shiftl (cont_bits b1) 12)
                          (N.lor (N.shiftl (cont_bits b2) 6) (cont_bits b3))) in
            if is_cont b1 && is_cont b2 && is_cont b3 && (0x10000 <=? c) && is_scalar c
            then (let* s := bytes_decode_N r3 in Ok (c :: s))%R
            else Raise UnicodeDecodeError
        | _ => Raise UnicodeDecodeError
        end
      else Raise UnicodeDecodeError
  end.

Definition bytes_decode (b : bytes) : result pystr :=
  bytes_decode_N (map Byte.to_N b).

(** The byte with a given value below 256. *)
Definition byte_of_N (n : N) : Byte.byte :=
  match Byte.of_N n with
  | Some b => b
  | None => Byte.x00
  end.

Definition encode_char (c : N) : result (list N) :=
  if c <? 0x80 then Ok [c]
  else if c <? 0x800 then
    Ok [N.lor 0xC0 (N.shiftr c 6); N.lor 0x80 (N.land c 0x3F)]
  else if c <? 0x10000 then
    if is_surrogate c then Raise UnicodeEncodeError
    else Ok [N.lor 0xE0 (N.shiftr c 12);
             N.lor 0x80 (N.land (N.shiftr c 6) 0x3F);
             N.lor 0x80 (N.land c 0x3F)]
  else if c <? 0x110000 then
    Ok [N.lor 0xF0 (N.shiftr c 18);
        N.lor 0x80 (N.land (N.shiftr c 12) 0x3F);
        N.lor 0x80 (N.land (N.shiftr c 6) 0x3F);
        N.lor 0x80 (N.land c 0x3F)]
  else Raise UnicodeEncodeError.

(** [s.encode('utf-8')]. *)
Fixpoint str_encode (s : pystr) : result bytes :=
  match s with
  | [] => Ok []
  | c :: s' =>
      (let* bs := encode_char c in
       let* rest := str_encode s' in
       Ok (map byte_of_N bs ++ rest))%R
  end.

(** ** [str.splitlines] *)

(** The line boundaries of [str.splitlines]: LF, CR, VT, FF, FS, GS, RS, NEL,
    LINE SEPARATOR and PARAGRAPH SEPARATOR. *)
Definition is_linebreak (c : N) : bool :=
  (c =? 0x0A) || (c =? 0x0D) || (c =? 0x0B) || (c =? 0x0C) || (c =? 0x1C)
  || (c =? 0x1D) || (c =? 0x1E) || (c =? 0x85) || (c =? 0x2028) || (c =? 0x2029).

(** [cur] is the line being read. A CR followed by LF is one boundary; the
    boundaries are dropped; a final boundary opens no last empty line. *)
Fixpoint splitlines_from (cur : pystr) (s : pystr) : list pystr :=
  match s with
  | [] => match cur with [] => [] | _ => [cur] end
  | c :: s' =>
      if is_linebreak c then
        match s' with
        | c2 :: s'' =>
            if (c =? 0x0D) && (c2 =? 0x0A)
            then cur :: splitlines_from [] s''
            else cur :: splitlines_from [] s'
        | [] => [cur]
        end
      else splitlines_from (cur ++ [c]) s'
  end.

Definition str_splitlines (s : pystr) : list pystr := splitlines_from [] s.

(** ** The [csv] module *)

(** The reader of the default [excel] dialect: delimiter [,], quote
    character the double quote, doubled quotes inside quoted fields, no
    escape character, not strict. The states that only an escape character
    reaches are left out. *)
Inductive parser_state : Type :=
| START_RECORD
| START_FIELD
| IN_FIELD
| IN_QUOTED_FIELD
| QUOTE_IN_QUOTED_FIELD
| EAT_CRNL.

Record reader : Type := mkReader {
  state : parser_state;
  fields : list pystr;
  field : pystr
}.

Definition delimiter : N := 44.
Definition quotechar : N := 34.

(** [csv.field_size_limit()]. *)
Definition field_limit : N := 131072.

Definition set_state (self : reader) (st : parser_state) : reader :=
  {| state := st; fields := fields self; field := field self |}.

Definition parse_reset : reader :=
  {| state := START_RECORD; fields := []; field := [] |}.

Definition parse_add_char (self : reader) (c : N) : result reader :=
  if field_limit <=? N.of_nat (length (field self)) then Raise CsvError
  else Ok {| state := state self; fields := fields self;
             field := field self ++ [c] |}.

Definition parse_save_field (self : reader) : reader :=
  {| state := state self; fields := fields self ++ [field self]; field := [] |}.

Definition is_newline (c : N) : bool := (c =? 10) || (c =? 13).

(** The case [START_FIELD] of [parse_process_char]; [None] is the end of the
    line. *)
Definition start_field (self : reader) (c : option N) : result reader :=
  match c with
  | None => Ok (set_state (parse_save_field self) START_RECORD)
  | Some ch =>
      if is_newline ch then Ok (set_state (parse_save_field self) EAT_CRNL)
      else if ch =? quotechar then Ok (set_state self IN_QUOTED_FIELD)
      else if ch =? delimiter then Ok (parse_save_field self)
      else (let* self' := parse_add_char self ch in
            Ok (set_state self' IN_FIELD))%R
  end.

Definition parse_process_char (self : reader) (c : option N) : result reader :=
  match state self with
  | START_RECORD =>
      match c with
      | None => Ok self
      | Some ch =>
          if is_newline ch then Ok (set_state self EAT_CRNL)
          else start_field (set_state self START_FIELD) c
      end
  | START_FIELD => start_field self c
  | IN_FIELD =>
      match c with
      | None => Ok (set_state (parse_save_field self) START_RECORD)
      | Some ch =>
          if is_newline ch then Ok (set_state (parse_save_field self) EAT_CRNL)
          else if ch =? delimiter
          then Ok (set_state (parse_save_field self) START_FIELD)
          else parse_add_char self ch
      end
  | IN_QUOTED_FIELD =>
      match c with
      | None => Ok self
      | Some ch =>
          if ch =? quotechar then Ok (set_state self QUOTE_IN_QUOTED_FIELD)
          else parse_add_char self ch
      end
  | QUOTE_IN_QUOTED_FIELD =>
      match c with
      | None => Ok (set_state (parse_save_field self) START_RECORD)
      | Some ch =>
          if ch =? quotechar
          then (let* self' := parse_add_char self ch in
                Ok (set_state self' IN_QUOTED_FIELD))%R
          else if ch =? delimiter
          then Ok (set_state (parse_save_field self) START_FIELD)
          else if is_newline ch
          then Ok (set_state (parse_save_field self) EAT_CRNL)
          else (let* self' := parse_add_char self ch in
                Ok (set_state self' IN_FIELD))%R
      end
  | EAT_CRNL =>
      match c with
      | None => Ok (set_state self START_RECORD)
      | Some ch => if is_newline ch then Ok self else Raise CsvError
      end
  end.

Fixpoint feed_chars (self : reader) (line : pystr) : result reader :=
  match line with
  | [] => Ok self
  | c :: line' =>
      (let* self' := parse_process_char self (Some c) in
       feed_chars self' line')%R
  end.

(** One line of input: its characters, then the end of the line. *)
Definition feed_line (self : reader) (line : pystr) : result reader :=
  (let* self' := feed_chars self line in
   parse_process_char self' None)%R.

(** All the rows of [csv.reader(lines)]. A row is complete when a line ends
    in state [START_RECORD]; at the end of the input a field left open is
    closed and the row returned. *)
Fixpoint read_rows (self : reader) (lines : list pystr) : result (list (list pystr)) :=
  match lines with
  | [] =>
      match field self, state self with
      | [], IN_QUOTED_FIELD | _ :: _, _ => Ok [fields (parse_save_field self)]
      | [], _ => Ok []
      end
  | line :: lines' =>
      (let* self' := feed_line self line in
       match state self' with
       | START_RECORD =>
           let* rows := read_rows parse_reset lines' in
           Ok (fields self' :: rows)
       | _ => read_rows self' lines'
       end)%R
  end.

Definition csv_reader (lines : list pystr) : result (list (list pystr)) :=
  read_rows parse_reset lines.

(** One row of [csv.DictReader]: [dict(zip(fieldnames, row))], the cells in
    excess under the key [None], the missing cells set to [None]. *)
Definition DictReader_row (fieldnames row : list pystr) : pydict :=
  let d := dict_of_pairs (combine (map Some fieldnames) (map PStr row)) in
  let lf := length fieldnames in
  let lr := length row in
  if Nat.ltb lf lr then dict_set d None (PList (map PStr (skipn lf row)))
  else if Nat.ltb lr lf
  then fold_left (fun d key => dict_set d (Some key) PNone) (skipn lr fieldnames) d
  else d.

Definition is_blank_row (row : list pystr) : bool :=
  match row with [] => true | _ => false end.

(** [list(csv.DictReader(lines))]: the first row gives the field names, the
    blank rows after it are skipped. The handler reads the rows one by one
    in its loop; nothing of the loop shows outside before the rows are all
    read, so they are read here at once, and an error in any row is the
    error of the whole. *)
Definition DictReader (lines : list pystr) : result (list pydict) :=
  (let* rows := csv_reader lines in
   match rows with
   | [] => Ok []
   | fieldnames :: rows' =>
       Ok (map (DictReader_row fieldnames)
             (List.filter (fun row => negb (is_blank_row row)) rows'))
   end)%R.

(** ** [uuid.uuid4] *)

(** [UUID(bytes=..., version=4).int] for the 16 random bytes read as the
    integer [random]: the variant and version bits are forced. *)
Definition uuid4_int (random : N) : N :=
  let int := random mod 2 ^ 128 in
  let int := N.ldiff int (N.shiftl 0xc000 48) in
  let int := N.lor int (N.shiftl 0x8000 48) in
  let int := N.ldiff int (N.shiftl 0xf000 64) in
  N.lor int (N.shiftl 4 76).

Definition hex_digit (d : N) : N := if d <? 10 then 48 + d else 87 + d.

(** The [n] low hexadecimal digits of [x], most significant first. *)
Fixpoint hex_digits (n : nat) (x : N) : pystr :=
  match n with
  | O => []
  | S n' => hex_digits n' (x / 16) ++ [hex_digit (x mod 16)]
  end.

(** [str(u)] for a UUID of integer value [int]. *)
Definition uuid_str (int : N) : pystr :=
  let hex := hex_digits 32 int in
  firstn 8 hex ++ lit "-" ++ firstn 4 (skipn 8 hex) ++ lit "-"
  ++ firstn 4 (skipn 12 hex) ++ lit "-" ++ firstn 4 (skipn 16 hex) ++ lit "-"
  ++ skipn 20 hex.

(** [str(uuid.uuid4())], from the random bytes drawn. *)
Definition str_uuid4 (random : N) : pystr := uuid_str (uuid4_int random).

(** ** [json.dumps] *)

(** The replacement of one character by [py_encode_basestring_ascii]. *)
Definition escape_ascii (c : N) : pystr :=
  if c =? 34 then [92; 34]
  else if c =? 92 then [92; 92]
  else if c =? 10 then [92; 110]
  else if c =? 13 then [92; 114]
  else if c =? 9 then [92; 116]
  else if c =? 8 then [92; 98]
  else if c =? 12 then [92; 102]
  else if (32 <=? c) && (c <=? 126) then [c]
  else if c <? 0x10000 then [92; 117] ++ hex_digits 4 c
  else
    let n := c - 0x10000 in
    let s1 := N.lor 0xd800 (N.land (N.shiftr n 10) 0x3ff) in
    let s2 := N.lor 0xdc00 (N.land n 0x3ff) in
    [92; 117] ++ hex_digits 4 s1 ++ [92; 117] ++ hex_digits 4 s2.

Definition encode_basestring_ascii (s : pystr) : pystr :=
  [34] ++ flat_map escape_ascii s ++ [34].

(** The text of a dictionary key: [None] is written [null]. *)
Definition key_text (k : pykey) : pystr :=
  match k with
  | Some s => s
  | None => lit "null"
  end.

Fixpoint join (sep : pystr) (parts : list pystr) : pystr :=
  match parts with
  | [] => []
  | [p] => p
  | p :: ps => p ++ sep ++ join sep ps
  end.

(** [json.dumps(v)] with its defaults: ASCII output, items separated by a
    comma and a space, keys from values by a colon and a space. *)
Fixpoint json_dumps (v : pyval) : pystr :=
  match v with
  | PNone => lit "null"
  | PBool true => lit "true"
  | PBool false => lit "false"
  | PStr s => encode_basestring_ascii s
  | PList l => lit "[" ++ join (lit ", ") (map json_dumps l) ++ lit "]"
  | PDict d =>
      lit "{"
      ++ join (lit ", ")
           (map (fun kv => let '(k, x) := kv in
                           encode_basestring_ascii (key_text k) ++ lit ": " ++ json_dumps x) d)
      ++ lit "}"
  end.

(** ** [json.loads] *)

Definition is_ws (c : N) : bool :=
  (c =? 32) || (c =? 9) || (c =? 10) || (c =? 13).

Fixpoint skip_ws (s : pystr) : pystr :=
  match s with
  | c :: s' => if is_ws c then skip_ws s' else s
  | [] => []
  end.

Definition hex_value (c : N) : option N :=
  if (48 <=? c) && (c <=? 57) then Some (c - 48)
  else if (97 <=? c) && (c <=? 102) then Some (c - 87)
  else if (65 <=? c) && (c <=? 70) then Some (c - 55)
  else None.

Definition hex4 (a b c d : N) : option N :=
  match hex_value a, hex_value b, hex_value c, hex_value d with
  | Some x, Some y, Some z, Some w => Some (((x * 16 + y) * 16 + z) * 16 + w)
  | _, _, _, _ => None
  end.

Definition is_high_surrogate (c : N) : bool := (0xD800 <=? c) && (c <=? 0xDBFF).
Definition is_low_surrogate (c : N) : bool := (0xDC00 <=? c) && (c <=? 0xDFFF).

Definition join_surrogates (hi lo : N) : N :=
  0x10000 + N.lor (N.shiftl (N.land hi 0x3FF) 10) (N.land lo 0x3FF).

(** The character a backslash and [e] stand for. *)
Definition unescape (e : N) : option N :=
  if e =? 34 then Some 34
  else if e =? 92 then Some 92
  else if e =? 47 then Some 47
  else if e =? 98 then Some 8
  else if e =? 102 then Some 12
  else if e =? 110 then Some 10
  else if e =? 114 then Some 13
  else if e =? 116 then Some 9
  else None.

(** [scanstring], strict, from just after the opening quote: the string and
    what follows its closing quote. A high surrogate escape followed by a
    low surrogate escape is one character. *)
Fixpoint scanstring (s : pystr) : result (pystr * pystr) :=
  match s with
  | [] => Raise JSONDecodeError
  | c :: s1 =>
      if c =? 34 then Ok ([], s1)
      else if c =? 92 then
        match s1 with
        | [] => Raise JSONDecodeError
        | e :: s2 =>
            if e =? 117 then
              match s2 with
              | h1 :: h2 :: h3 :: h4 :: s3 =>
                  match hex4 h1 h2 h3 h4 with
                  | None => Raise JSONDecodeError
                  | Some u =>
                      let single :=
                        (let* '(t, r) := scanstring s3 in Ok (u :: t, r))%R in
                      if is_high_surrogate u then
                        match s3 with
                        | b :: e2 :: l1 :: l2 :: l3 :: l4 :: s4 =>
                            if (b =? 92) && (e2 =? 117) then
                              match hex4 l1 l2 l3 l4 with
                              | None => Raise JSONDecodeError
                              | Some u2 =>
                                  if is_low_surrogate u2
                                  then (let* '(t, r) := scanstring s4 in
                                        Ok (join_surrogates u u2 :: t, r))%R
                                  else single
                              end
                            else single
                        | _ => single
                        end
                      else single
                  end
              | _ => Raise JSONDecodeError
              end
            else
              match unescape e with
              | Some x => (let* '(t, r) := scanstring s2 in Ok (x :: t, r))%R
              | None => Raise JSONDecodeError
              end
        end
      else if c <? 32 then Raise JSONDecodeError
      else (let* '(t, r) := scanstring s1 in Ok (c :: t, r))%R
  end.

(** [s] without the prefix [p], when it starts with it. *)
Fixpoint strip_prefix (p s : pystr) : option pystr :=
  match p, s with
  | [], _ => Some s
  | a :: p', b :: s' => if a =? b then strip_prefix p' s' else None
  | _ :: _, [] => None
  end.

Definition is_digit (c : N) : bool := (48 <=? c) && (c <=? 57).

(** Does a number literal, [NaN], [Infinity] or [-Infinity] start here? *)
Definition starts_number (s : pystr) : bool :=
  match s with
  | c :: s' =>
      is_digit c
      || ((c =? 45) && match s' with d :: _ => is_digit d | [] => false end)
      || bool_decide (is_Some (strip_prefix (lit "NaN") s))
      || bool_decide (is_Some (strip_prefix (lit "Infinity") s))
      || bool_decide (is_Some (strip_prefix (lit "-Infinity") s))
  | [] => false
  end.

(** The scanner. [parse_value] reads one JSON term, [parse_items] the items
    of an array from its first item on, [parse_members] the members of an
    object from the quote of its first key on; each gives what it read and
    the rest of the text. [fuel] bounds the number of nested calls. *)
Fixpoint parse_value (fuel : nat) (s : pystr) {struct fuel} : result (pyval * pystr) :=
  match fuel with
  | O => Raise RecursionError
  | S fuel' =>
      match s with
      | [] => Raise JSONDecodeError
      | c :: s' =>
          if c =? 34 then (let* '(t, r) := scanstring s' in Ok (PStr t, r))%R
          else if c =? 123 then
            match skip_ws s' with
            | c1 :: s2 =>
                if c1 =? 125 then Ok (PDict [], s2)
                else (let* '(pairs, r) := parse_members fuel' (c1 :: s2) in
                      Ok (PDict (dict_of_pairs pairs), r))%R
            | [] => Raise JSONDecodeError
            end
          else if c =? 91 then
            match skip_ws s' with
            | c1 :: s2 =>
                if c1 =? 93 then Ok (PList [], s2)
                else (let* '(items, r) := parse_items fuel' (c1 :: s2) in
                      Ok (PList items, r))%R
            | [] => Raise JSONDecodeError
            end
          else
            match strip_prefix (lit "null") s, strip_prefix (lit "true") s,
                  strip_prefix (lit "false") s with
            | Some r, _, _ => Ok (PNone, r)
            | None, Some r, _ => Ok (PBool true, r)
            | None, None, Some r => Ok (PBool false, r)
            | None, None, None =>
                if starts_number s then Raise OutsideModel
                else Raise JSONDecodeError
            end
      end
  end
with parse_items (fuel : nat) (s : pystr) {struct fuel} : result (list pyval * pystr) :=
  match fuel with
  | O => Raise RecursionError
  | S fuel' =>
      (let* '(v, r) := parse_value fuel' s in
       match skip_ws r with
       | c :: r' =>
           if c =? 93 then Ok ([v], r')
           else if c =? 44 then
             let* '(vs, r'') := parse_items fuel' (skip_ws r') in
             Ok (v :: vs, r'')
           else Raise JSONDecodeError
       | [] => Raise JSONDecodeError
       end)%R
  end
with parse_members (fuel : nat) (s : pystr) {struct fuel}
  : result (list (pykey * pyval) * pystr) :=
  match fuel with
  | O => Raise RecursionError
  | S fuel' =>
      match s with
      | c :: s' =>
          if c =? 34 then
            (let* '(key, r) := scanstring s' in
             match skip_ws r with
             | c1 :: r1 =>
                 if c1 =? 58 then
                   let* '(v, r2) := parse_value fuel' (skip_ws r1) in
                   match skip_ws r2 with
                   | c2 :: r3 =>
                       if c2 =? 125 then Ok ([(Some key, v)], r3)
                       else if c2 =? 44 then
                         let* '(ms, r4) := parse_members fuel' (skip_ws r3) in
                         Ok ((Some key, v) :: ms, r4)
                       else Raise JSONDecodeError
                   | [] => Raise JSONDecodeError
                   end
                 else Raise JSONDecodeError
             | [] => Raise JSONDecodeError
             end)%R
          else Raise JSONDecodeError
      | [] => Raise JSONDecodeError
      end
  end.

(** [json.loads(s)] for a [str]: no byte order mark, one JSON term, nothing
    but white space around it. [parse_value] reads at least one character
    and the other two start with a call of it, so twice the length of the
    text is fuel enough: the fuel never runs out ([json_loads_fuel] below).
    CPython gives up with [RecursionError] on a text nested deeper than the
    recursion limit of the interpreter allows where it is called; that limit
    belongs to the runtime and is not modelled, a nesting of any depth is
    read here. *)
Definition json_loads (s : pystr) : result pyval :=
  match s with
  | 0xFEFF :: _ => Raise JSONDecodeError
  | _ =>
      (let* '(v, r) := parse_value (S (2 * length s)) (skip_ws s) in
       match skip_ws r with
       | [] => Ok v
       | _ :: _ => Raise JSONDecodeError
       end)%R
  end.

(** ** [random.choice] *)

Definition py_len (v : pyval) : result nat :=
  match v with
  | PList l => Ok (length l)
  | PDict d => Ok (length d)
  | PStr s => Ok (length s)
  | _ => Raise TypeError
  end.

(** [seq[i]] for an integer [i] within the length of [seq]. A dictionary of
    this development has no integer key. *)
Definition py_index (seq : pyval) (i : nat) : result pyval :=
  match seq with
  | PList l => match nth_error l i with Some x => Ok x | None => Raise IndexError end
  | PStr s => match nth_error s i with Some c => Ok (PStr [c]) | None => Raise IndexError end
  | PDict _ => Raise KeyError
  | _ => Raise TypeError
  end.

(** [random.choice(seq)], where [random] is the integer the generator draws:
    [_randbelow(n)] is [random mod n]. *)
Definition random_choice (random : N) (seq : pyval) : result pyval :=
  (let* n := py_len seq in
   match n with
   | O => Raise IndexError
   | S _ => py_index seq (N.to_nat (random mod N.of_nat n))
   end)%R.

(** ** The world of a handler: S3 and the network *)

Record s3_object : Type := mkObject {
  Body : bytes;
  ContentType : pystr
}.

(** Buckets by name, the objects of a bucket by key. *)
Abbreviation s3_state := (gmap pystr (gmap pystr s3_object)).

(** The computations of a handler: they read and write S3 and may raise. A
    raised exception leaves S3 as it was when it was raised. *)
Definition M (A : Type) : Type := s3_state -> result A * s3_state.

Definition ret {A : Type} (a : A) : M A := fun s3 => (Ok a, s3).

Definition lift {A : Type} (r : result A) : M A := fun s3 => (r, s3).

Definition bind {A B : Type} (m : M A) (k : A -> M B) : M B :=
  fun s3 =>
    match m s3 with
    | (Ok a, s3') => k a s3'
    | (Raise e, s3') => (Raise e, s3')
    end.

Declare Scope handler_scope.
Delimit Scope handler_scope with M.
Notation "'let*' x ':=' m 'in' k" := (bind m (fun x => k))
  (at level 10, x name, m at level 100, k at level 200) : handler_scope.

(** [s3.get_object(Bucket=..., Key=...)]. *)
Definition get_object (Bucket Key : pystr) : M s3_object :=
  fun s3 =>
    match s3 !! Bucket with
    | None => (Raise NoSuchBucket, s3)
    | Some objects =>
        match objects !! Key with
        | None => (Raise NoSuchKey, s3)
        | Some o => (Ok o, s3)
        end
    end.

(** [s3.put_object(Bucket=..., Key=..., Body=..., ContentType=...)] with a
    [str] body, which the client encodes as UTF-8. *)
Definition put_object (Bucket Key Body ContentType : pystr) : M unit :=
  fun s3 =>
    match str_encode Body with
    | Raise e => (Raise e, s3)
    | Ok b =>
        match s3 !! Bucket with
        | None => (Raise NoSuchBucket, s3)
        | Some objects =>
            (Ok tt, <[Bucket := <[Key := mkObject b ContentType]> objects]> s3)
        end
    end.

Record http_response : Type := mkHttpResponse {
  status_code : N;
  content : bytes
}.

(** What [requests.get] meets at a URL: a response, or [RequestException]
    when none arrives. *)
Definition network := pystr -> result http_response.

(** [response.raise_for_status()]: the client errors 4xx and the server
    errors 5xx raise. *)
Definition raise_for_status (r : http_response) : result unit :=
  if (400 <=? status_code r) && (status_code r <? 600)
  then Raise HTTPError else Ok tt.

(** [os.environ]. *)
Record environ : Type := mkEnviron {
  S3_BUCKET_NAME : pystr;
  CSV_URL : pystr;
  JSON_KEY : pystr
}.

(** The dictionary a handler returns. *)
Record response : Type := mkResponse {
  statusCode : N;
  body : pystr;
  headers : option (list (pystr * pystr))
}.

(** ** [url_parser.py] *)

Module UrlParser.

(** The loop over the rows: the row read at position [i] gets the [i]-th
    identifier drawn. *)
Fixpoint with_ids (urandom : nat -> N) (i : nat) (csv_reader : list pydict)
  : list pyval :=
  match csv_reader with
  | [] => []
  | row :: rows =>
      PDict (dict_set row (Some (lit "id")) (PStr (str_uuid4 (urandom i))))
      :: with_ids urandom (S i) rows
  end.

(** [urandom i] is the integer value of the 16 bytes the [i]-th call of
    [uuid.uuid4] draws. *)
Definition lambda_handler (env : environ) (net : network) (urandom : nat -> N)
  (event context : pyval) : M response :=
  (let* response := lift (net (CSV_URL env)) in
   let* _ := lift (raise_for_status response) in
   let* text := lift (bytes_decode (content response)) in
   let csv_data := str_splitlines text in
   let* csv_reader := lift (DictReader csv_data) in
   let json_data := with_ids urandom 0 csv_reader in
   let json_body := json_dumps (PList json_data) in
   let* _ := put_object (S3_BUCKET_NAME env) (JSON_KEY env) json_body
               (lit "application/json") in
   ret {| statusCode := 200;
          body := json_dumps
                    (PStr (lit "CSV successfully processed and stored as JSON in S3"));
          headers := None |})%M.

End UrlParser.

(** ** [json_endpoint.py] *)

Module JsonEndpoint.

(** [next((obj for obj in json_data if obj['id'] == item_id), None)] over
    the items of [json_data]. *)
Fixpoint next_match (objs : list pyval) (item_id : pyval) : result pyval :=
  match objs with
  | [] => Ok PNone
  | obj :: objs' =>
      (let* x := py_getitem obj (lit "id") in
       if py_eq x item_id then Ok obj else next_match objs' item_id)%R
  end.

Definition json_response (item : pyval) : response :=
  {| statusCode := 200;
     body := json_dumps item;
     headers := Some [(lit "Content-Type", lit "application/json")] |}.

(** [random] is the integer the random generator draws for
    [random.choice]. *)
Definition lambda_handler (env : environ) (random : N) (event context : pyval)
  : M response :=
  (let* response := get_object (S3_BUCKET_NAME env) (JSON_KEY env) in
   let* text := lift (bytes_decode (Body response)) in
   let* json_data := lift (json_loads text) in
   let* params := lift (py_getitem event (lit "queryStringParameters")) in
   let query_params := py_or params (PDict []) in
   let* item_id := lift (py_get query_params (lit "id")) in
   let fallback :=
     (let* random_item := lift (random_choice random json_data) in
      ret (json_response random_item)) in
   if truthy item_id then
     let* item :=
       lift (let* objs := py_iter json_data in next_match objs item_id)%R in
     if truthy item then ret (json_response item) else fallback
   else fallback)%M.

End JsonEndpoint.

(** ** The vocabulary of the specification *)

(** The Record Set persisted under the configured bucket and key: what the
    query handler loads before it looks at the request. *)
Definition persisted (env : environ) (s3 : s3_state) : result pyval :=
  match s3 !! S3_BUCKET_NAME env with
  | None => Raise NoSuchBucket
  | Some objects =>
      match objects !! JSON_KEY env with
      | None => Raise NoSuchKey
      | Some o => (let* text := bytes_decode (Body o) in json_loads text)%R
      end
  end.

(** The [id] field of a Record, when it is an object that has one. *)
Definition record_id (r : pyval) : option pyval :=
  match r with
  | PDict d => dict_get d (Some (lit "id"))
  | _ => None
  end.

Definition has_id (r : pyval) : bool :=
  match record_id r with Some _ => true | None => false end.

(** The Record's [id] equals the parameter value [s]. *)
Definition id_is (s : pystr) (r : pyval) : bool :=
  match record_id r with
  | Some (PStr t) => bool_decide (t = s)
  | _ => false
  end.

(** The first Record, in the order of the Record Set, whose [id] equals the
    parameter value. *)
Definition first_with_id (s : pystr) (records : list pyval) : option pyval :=
  find (id_is s) records.

(** The [id] query parameter of a request; [PNone] when there is none. *)
Definition id_parameter (event : pyval) : result pyval :=
  (let* params := py_getitem event (lit "queryStringParameters") in
   py_get (py_or params (PDict [])) (lit "id"))%R.

(** A request of the HTTP front end with the given query string
    parameters. *)
Definition request (params : pyval) : pyval :=
  PDict [(Some (lit "queryStringParameters"), params)].

(** A Record Set: every Record has an [id]. *)
Definition record_set (records : list pyval) : Prop :=
  Forall (fun r => has_id r = true) records.

(** The answer by random selection. *)
Definition random_selection (random : N) (json_data : pyval) : result response :=
  (let* x := random_choice random json_data in
   Ok (JsonEndpoint.json_response x))%R.

(** The CSV body the ingestion handler retrieves. *)
Definition fetched (env : environ) (net : network) : result pystr :=
  (let* response := net (CSV_URL env) in
   let* _ := raise_for_status response in
   bytes_decode (content response))%R.

(** The table the [csv] module reads from a CSV body: the header row, then
    the other rows. *)
Definition csv_table (text : pystr) : result (list (list pystr)) :=
  csv_reader (str_splitlines text).

(** The data rows among the rows after the header: the rows that are not
    blank. *)
Definition data_rows (rows : list (list pystr)) : list (list pystr) :=
  List.filter (fun row => negb (is_blank_row row)) rows.

(** The success result of the ingestion handler. *)
Definition confirmation : response :=
  {| statusCode := 200;
     body := json_dumps
               (PStr (lit "CSV successfully processed and stored as JSON in S3"));
     headers := None |}.

(** The object the ingestion handler stores for a JSON text. *)
Definition json_object (text : pystr) : s3_object :=
  mkObject (map byte_of_N text) (lit "application/json").

(** The object under the configured bucket and key, when there is one. *)
Definition blob (env : environ) (s3 : s3_state) : option s3_object :=
  match s3 !! S3_BUCKET_NAME env with
  | Some objects => objects !! JSON_KEY env
  | None => None
  end.

Definition is_ascii (s : pystr) : Prop := Forall (fun c => c < 128) s.

(** A string of Unicode scalar values, as UTF-8 decoding gives. *)
Definition str_ok (s : pystr) : Prop := Forall (fun c => is_scalar c = true) s.

(** A value whose strings and keys are strings of scalar values. *)
Inductive val_ok : pyval -> Prop :=
| ok_None : val_ok PNone
| ok_Bool b : val_ok (PBool b)
| ok_Str s : str_ok s -> val_ok (PStr s)
| ok_List l : Forall val_ok l -> val_ok (PList l)
| ok_Dict d :
    Forall (fun kv => str_ok (key_text (fst kv)) /\ val_ok (snd kv)) d ->
    val_ok (PDict d).

(** What [json.loads] reads back from the text [json.dumps] writes for a
    value: the keys are the strings written, and of two equal keys of an
    object the first keeps its place and the last its value. *)
Fixpoint loaded (v : pyval) : pyval :=
  match v with
  | PList l => PList (map loaded l)
  | PDict d =>
      PDict (dict_of_pairs
               (map (fun kv => let '(k, x) := kv in (Some (key_text k), loaded x)) d))
  | _ => v
  end.

(** ** Notions the proofs use *)

(** The record the ingestion handler writes for the data row at position
    [i]. *)
Definition written_record (urandom : nat -> N) (header : list pystr) (i : nat)
  (row : list pystr) : pyval :=
  PDict (dict_set (DictReader_row header row) (Some (lit "id"))
           (PStr (str_uuid4 (urandom i)))).

(** The records the ingestion handler writes for a table: the data rows as
    dictionaries, each with its identifier. *)
Definition written_records (urandom : nat -> N) (header : list pystr)
  (rows : list (list pystr)) : list pyval :=
  UrlParser.with_ids urandom 0 (map (DictReader_row header) (data_rows rows)).

(** S3 after an ingestion that stores [records]. *)
Definition after_ingestion (env : environ) (s3 : s3_state)
  (objects : gmap pystr s3_object) (records : list pyval) : s3_state :=
  <[S3_BUCKET_NAME env :=
      <[JSON_KEY env := json_object (json_dumps (PList records))]> objects]> s3.

(** The first character of a JSON text written by [json.dumps]. *)
Definition value_start (c : N) : bool :=
  (c =? 110) || (c =? 116) || (c =? 102) || (c =? 34) || (c =? 91) || (c =? 123).

(** The text of one member of an object. *)
Definition member_text (kv : pykey * pyval) : pystr :=
  encode_basestring_ascii (key_text (fst kv)) ++ lit ": " ++ json_dumps (snd kv).

(** [v] is read back, whatever follows it, with fuel for its text. *)
Definition reads_back (v : pyval) : Prop :=
  forall fuel rest,
    (length (json_dumps v) <= fuel)%nat ->
    parse_value fuel (json_dumps v ++ rest) = Ok (loaded v, rest).

(** All the characters the reader holds have the property [P]. *)
Definition reader_keeps (P : N -> Prop) (self : reader) : Prop :=
  Forall (Forall P) (fields self) /\ Forall P (field self).

(** All the keys of a dictionary have [K], all its values [V]. *)
Definition dict_all (K : pykey -> Prop) (V : pyval -> Prop) (d : pydict) : Prop :=
  Forall (fun kv => K (fst kv) /\ V (snd kv)) d.

(** No object, at any depth, has two fields written with the same name. *)
Inductive distinct_keys : pyval -> Prop :=
| dk_None : distinct_keys PNone
| dk_Bool b : distinct_keys (PBool b)
| dk_Str s : distinct_keys (PStr s)
| dk_List l : Forall distinct_keys l -> distinct_keys (PList l)
| dk_Dict d :
    List.NoDup (map (fun kv => key_text (fst kv)) d) ->
    Forall (fun kv => distinct_keys (snd kv)) d ->
    distinct_keys (PDict d).

(** ** A small world to run the handlers in *)

Definition demo_env : environ :=
  {| S3_BUCKET_NAME := lit "records";
     CSV_URL := lit "https://example.org/fruit.csv";
     JSON_KEY := lit "fruit.json" |}.

(** S3 with the configured bucket, holding no object. *)
Definition empty_bucket : s3_state := {[ lit "records" := ∅ ]}.

(** S3 with the JSON text of [v] under the configured bucket and key. *)
Definition s3_holding (v : pyval) : s3_state :=
  {[ lit "records" :=
       {[ lit "fruit.json" :=
            mkObject (map byte_of_N (json_dumps v)) (lit "application/json") ]} ]}.

Definition fruit (name id : string) : pyval :=
  PDict [(Some (lit "name"), PStr (lit name)); (Some (lit "id"), PStr (lit id))].

Definition demo_records : list pyval :=
  [fruit "lemon" "a1"; fruit "apple" "b2"; fruit "pear" "b2"].

(** A Record without an [id]. *)
Definition nameless : pyval := PDict [(Some (lit "name"), PStr (lit "plum"))].

(** A request with the query string [id=...]. *)
Definition request_id (id : string) : pyval :=
  request (PDict [(Some (lit "id"), PStr (lit id))]).

(** A CSV source that answers every URL with the given status and body. *)
Definition serve (status : N) (body : pystr) : network :=
  fun _ => Ok (mkHttpResponse status (map byte_of_N body)).

(** The lines of a text, joined by line feeds. *)
Definition text_of (lines : list pystr) : pystr := join [10] lines.

(** The CSV of the scenario of the specification. *)
Definition demo_csv : pystr := text_of [lit "name,color"; lit "lemon,yellow"; lit "apple,red"].

(** A CSV with an [id] column of its own. *)
Definition id_csv : pystr := text_of [lit "id,name"; lit "7,kiwi"].

(** A CSV with a column named [null] and a row longer than its header. *)
Definition null_csv : pystr := text_of [lit "null"; lit "1,2"].

(** A random source: the draw for row [i] is [i]. *)
Definition demo_urandom : nat -> N := N.of_nat.

(** A random source that draws the same bytes every time. *)
Definition stuck_urandom : nat -> N := fun _ => 7.

(** A request for the identifier drawn for row [i]. *)
Definition request_row (i : nat) : pyval :=
  request (PDict [(Some (lit "id"), PStr (str_uuid4 (demo_urandom i)))]).

(** ** Further notions *)

(** The object under a bucket and a key, when there is one. *)
Definition object_at (s3 : s3_state) (bucket key : pystr) : option s3_object :=
  match s3 !! bucket with
  | Some objects => objects !! key
  | None => None
  end.

(** Two records with the same fields in the same order and, except under
    [id], the same values. *)
Definition same_but_id (r1 r2 : pyval) : Prop :=
  exists d1 d2,
    r1 = PDict d1 /\ r2 = PDict d2 /\ map fst d1 = map fst d2
    /\ forall k, k <> Some (lit "id") -> dict_get d1 k = dict_get d2 k.

(** The record of a row that has one cell for each column: the cells under
    the column names, in the order of the header, then the identifier. *)
Definition regular_record (urandom : nat -> N) (header : list pystr) (i : nat)
  (row : list pystr) : pyval :=
  PDict (combine (map Some header) (map PStr row)
         ++ [(Some (lit "id"), PStr (str_uuid4 (urandom i)))]).

(** The record of a row read under an empty header: all its cells in a list
    under the key [None], then the identifier. *)
Definition headerless_record (urandom : nat -> N) (i : nat) (row : list pystr)
  : pyval :=
  PDict [(None, PList (map PStr row));
         (Some (lit "id"), PStr (str_uuid4 (urandom i)))].

(** S3 with an object of the given text under the configured bucket and
    key. *)
Definition s3_storing (text : pystr) : s3_state :=
  {[ lit "records" := {[ lit "fruit.json" := json_object text ]} ]}.

(** A CSV whose rows are shorter and longer than its header. *)
Definition ragged_csv : pystr := text_of [lit "a,b"; lit "1"; lit "1,2,3"].

(** Another random source. *)
Definition other_urandom : nat -> N := fun i => N.of_nat i + 100.

(** ** Lines, the reader's states, identifiers *)

(** The lines of a text, each followed by the line terminator [eol]. *)
Definition terminated (eol : pystr) (lines : list pystr) : pystr :=
  flat_map (fun line => line ++ eol) lines.

(** What ends a line for [str.splitlines]: CR LF, or one of its boundary
    characters alone. *)
Definition line_terminator (eol : pystr) : Prop :=
  eol = [13; 10] \/ exists c, eol = [c] /\ is_linebreak c = true.

(** A string without any of the boundary characters of [str.splitlines]. *)
Definition unbroken (line : pystr) : Prop :=
  Forall (fun c => is_linebreak c = false) line.

(** The text starts with no LF. *)
Definition no_lf_first (s : pystr) : Prop :=
  match s with
  | c :: _ => c <> 10
  | [] => True
  end.

(** The states of the reader outside a quoted field. *)
Definition unquoted (st : parser_state) : Prop :=
  st = START_RECORD \/ st = START_FIELD \/ st = IN_FIELD.

(** The number of characters of a string, as the field limit counts them. *)
Definition size (s : pystr) : N := N.of_nat (length s).

(** A character that neither ends a line nor a field nor opens a quoted
    field. *)
Definition plain_char (c : N) : bool :=
  negb (is_linebreak c) && negb (c =? quotechar) && negb (c =? delimiter).

(** A lower-case hexadecimal digit. *)
Definition is_hex_lower (c : N) : bool :=
  ((48 <=? c) && (c <=? 57)) || ((97 <=? c) && (c <=? 102)).

(** The character allowed at position [i] of the text of a version 4 UUID:
    dashes after the groups of 8, 4, 4 and 4 digits, [4] as first digit of
    the third group, [8], [9], [a] or [b] as first digit of the fourth. *)
Definition uuid4_char_ok (i : nat) (c : N) : bool :=
  match i with
  | 8%nat | 13%nat | 18%nat | 23%nat => c =? 45
  | 14%nat => c =? 52
  | 19%nat => (c =? 56) || (c =? 57) || (c =? 97) || (c =? 98)
  | _ => is_hex_lower c
  end.

(** The characters of [s] are those allowed from position [i] on, up to the
    length of 36. *)
Fixpoint uuid4_chars (i : nat) (s : pystr) : bool :=
  match s with
  | [] => Nat.eqb i 36
  | c :: s' => uuid4_char_ok i c && uuid4_chars (S i) s'
  end.

(** The canonical text of a random (version 4, RFC 4122 variant) UUID. *)
Definition uuid4_text (s : pystr) : bool := uuid4_chars 0 s.

(** U+FEFF, the byte order mark. *)
Definition BOM : N := 0xFEFF.

(** The first field of the record being read starts with the byte order
    mark: it is being read, or it is read. *)
Definition marked (self : reader) : Prop :=
  (fields self = [] /\ state self = IN_FIELD /\ exists f, field self = BOM :: f)
  \/ (exists f fs, fields self = (BOM :: f) :: fs).

(** A cell of 131073 letters, one more than the [csv] module takes. *)
Definition long_cell : pystr := repeat 97 (N.to_nat 131073).

(** A CSV with a quoted cell that holds a line break. *)
Definition quoted_break_csv : pystr :=
  lit "note" ++ [10; 34] ++ lit "a" ++ [10] ++ lit "b" ++ [34].

(** A line of CSV in Latin-1, byte by byte: the byte [0xE9] of its accented
    letter is followed by a comma. *)
Definition latin1_csv : pystr := lit "caf" ++ [233] ++ lit ",x".

(** The fruit CSV after a UTF-8 byte order mark, byte by byte. *)
Definition marked_csv : pystr := [239; 187; 191] ++ demo_csv.

(** * Values, dictionaries and text *)

(** Induction on values, with the hypothesis for the items of lists and
    dictionaries. *)
Lemma pyval_nested_ind (P : pyval -> Prop) :
  P PNone ->
  (forall b, P (PBool b)) ->
  (forall s, P (PStr s)) ->
  (forall l, Forall P l -> P (PList l)) ->
  (forall d, Forall (fun kv => P (snd kv)) d -> P (PDict d)) ->
  forall v, P v.
Proof.
  intros HN HB HS HL HD.
  fix IH 1. intros [| b | s | l | d].
  - exact HN.
  - apply HB.
  - apply HS.
  - apply HL. induction l as [|x l IHl]; constructor; [apply IH|exact IHl].
  - apply HD. induction d as [|[k x] d IHd]; constructor; [apply IH|exact IHd].
Qed.

Lemma is_ascii_app s t : is_ascii s -> is_ascii t -> is_ascii (s ++ t).
Proof. apply Forall_app_2. Qed.

Lemma is_ascii_lit_check (s : pystr) :
  forallb (fun c => c <? 128) s = true -> is_ascii s.
Proof.
  intros H. apply List.Forall_forall. intros c Hc.
  rewrite forallb_forall in H. apply N.ltb_lt. auto.
Qed.

(** A literal text is ASCII: by computation. *)
Ltac ascii_literal := apply is_ascii_lit_check; reflexivity.

Lemma hex_digit_ascii d : d < 16 -> hex_digit d < 128.
Proof. unfold hex_digit. destruct (d <? 10); lia. Qed.

Lemma hex_digits_ascii n x : is_ascii (hex_digits n x).
Proof.
  revert x. induction n as [|n IH]; intros x; simpl; [constructor|].
  apply is_ascii_app; [apply IH|].
  constructor; [|constructor]. apply hex_digit_ascii. apply N.mod_lt. lia.
Qed.

Lemma escape_ascii_ascii c : is_ascii (escape_ascii c).
Proof.
  unfold escape_ascii.
  repeat match goal with
         | |- context [if ?b then _ else _] => destruct b eqn:?
         end;
    try (ascii_literal).
  - constructor; [|constructor]. apply andb_true_iff in Heqb6 as [_ H].
    apply N.leb_le in H. lia.
  - apply (is_ascii_app [92; 117]); [ascii_literal|].
    apply hex_digits_ascii.
  - apply (is_ascii_app [92; 117]); [ascii_literal|].
    apply is_ascii_app; [apply hex_digits_ascii|].
    apply (is_ascii_app [92; 117]); [ascii_literal|].
    apply hex_digits_ascii.
Qed.

Lemma encode_basestring_ascii_ascii s : is_ascii (encode_basestring_ascii s).
Proof.
  unfold encode_basestring_ascii.
  apply (is_ascii_app [34]); [ascii_literal|].
  apply is_ascii_app; [|ascii_literal].
  induction s as [|c s IH]; simpl; [constructor|].
  apply is_ascii_app; [apply escape_ascii_ascii|exact IH].
Qed.

Lemma join_ascii sep parts :
  is_ascii sep -> Forall is_ascii parts -> is_ascii (join sep parts).
Proof.
  intros Hsep. induction 1 as [|p parts Hp Hparts IH]; simpl; [constructor|].
  destruct parts as [|q parts]; [exact Hp|].
  apply is_ascii_app; [exact Hp|]. apply is_ascii_app; [exact Hsep|exact IH].
Qed.

Lemma json_dumps_list l :
  json_dumps (PList l) = lit "[" ++ join (lit ", ") (map json_dumps l) ++ lit "]".
Proof. reflexivity. Qed.

Lemma json_dumps_dict d :
  json_dumps (PDict d) =
  lit "{"
  ++ join (lit ", ")
       (map (fun kv => encode_basestring_ascii (key_text (fst kv)) ++ lit ": "
                       ++ json_dumps (snd kv)) d)
  ++ lit "}".
Proof.
  change (json_dumps (PDict d)) with
    (lit "{"
     ++ join (lit ", ")
          (map (fun kv => let '(k, x) := kv in
                          encode_basestring_ascii (key_text k) ++ lit ": "
                          ++ json_dumps x) d)
     ++ lit "}").
  do 3 f_equal. apply map_ext. intros [k x]. reflexivity.
Qed.

(** [json.dumps] writes ASCII only. *)
Lemma json_dumps_ascii v : is_ascii (json_dumps v).
Proof.
  induction v as [| [|] | s | l IH | d IH] using pyval_nested_ind;
    try (ascii_literal).
  - apply encode_basestring_ascii_ascii.
  - rewrite json_dumps_list.
    apply is_ascii_app; [ascii_literal|].
    apply is_ascii_app; [|ascii_literal].
    apply join_ascii; [ascii_literal|].
    induction IH; cbn [map]; constructor; auto.
  - rewrite json_dumps_dict.
    apply is_ascii_app; [ascii_literal|].
    apply is_ascii_app; [|ascii_literal].
    apply join_ascii; [ascii_literal|].
    induction IH as [|[k x] d Hx _ IHd]; cbn [map fst snd] in *; constructor; auto.
    apply is_ascii_app; [apply encode_basestring_ascii_ascii|].
    apply is_ascii_app; [ascii_literal|exact Hx].
Qed.

Lemma str_encode_ascii s : is_ascii s -> str_encode s = Ok (map byte_of_N s).
Proof.
  induction 1 as [|c s Hc _ IH]; simpl; [reflexivity|].
  unfold encode_char. apply N.ltb_lt in Hc as Hc'.
  replace (c <? 128) with true. simpl. rewrite IH. reflexivity.
Qed.

Lemma to_N_byte_of_N c : c < 256 -> Byte.to_N (byte_of_N c) = c.
Proof.
  intros Hc. unfold byte_of_N. destruct (Byte.of_N c) as [b|] eqn:E.
  - apply Byte.to_of_N. exact E.
  - apply Byte.of_N_None_iff in E. lia.
Qed.

Lemma bytes_decode_ascii s : is_ascii s -> bytes_decode (map byte_of_N s) = Ok s.
Proof.
  unfold bytes_decode.
  induction 1 as [|c s Hc _ IH]; simpl; [reflexivity|].
  rewrite to_N_byte_of_N by lia.
  apply N.ltb_lt in Hc. replace (c <? 128) with true. rewrite IH. reflexivity.
Qed.


(** ** Dictionaries *)

Lemma dict_get_set_same d k v : dict_get (dict_set d k v) k = Some v.
Proof.
  induction d as [|[k' v'] d IH]; simpl.
  - destruct (decide (k = k)); congruence.
  - destruct (decide (k' = k)) as [E|E]; simpl.
    + destruct (decide (k' = k)); congruence.
    + destruct (decide (k' = k)); congruence.
Qed.

Lemma dict_get_set_other d k k' v :
  k <> k' -> dict_get (dict_set d k v) k' = dict_get d k'.
Proof.
  intros Hne. induction d as [|[k0 v0] d IH]; simpl.
  - destruct (decide (k = k')); congruence.
  - destruct (decide (k0 = k)) as [E|E]; simpl.
    + subst. destruct (decide (k = k')); congruence.
    + destruct (decide (k0 = k')); congruence.
Qed.

Lemma dict_get_None d k : dict_get d k = None <-> ~ In k (map fst d).
Proof.
  induction d as [|[k' v'] d IH]; simpl; [tauto|].
  destruct (decide (k' = k)); [split; [discriminate|tauto]|].
  rewrite IH. tauto.
Qed.

Lemma dict_set_keys_present d k v :
  In k (map fst d) -> map fst (dict_set d k v) = map fst d.
Proof.
  induction d as [|[k' v'] d IH]; simpl; [tauto|].
  destruct (decide (k' = k)); simpl; [reflexivity|].
  intros [?|H]; [congruence|]. rewrite IH; auto.
Qed.

Lemma dict_set_keys_absent d k v :
  ~ In k (map fst d) -> map fst (dict_set d k v) = map fst d ++ [k].
Proof.
  induction d as [|[k' v'] d IH]; simpl; [reflexivity|].
  intros H. destruct (decide (k' = k)); [tauto|]. simpl. rewrite IH; tauto.
Qed.

Lemma dict_set_In_key d k v : In k (map fst (dict_set d k v)).
Proof.
  destruct (in_dec (decide_rel eq) k (map fst d)) as [H|H].
  - rewrite dict_set_keys_present; auto.
  - rewrite dict_set_keys_absent; auto. apply in_or_app. right. left. reflexivity.
Qed.

Lemma dict_set_keep_key d k k' v :
  In k' (map fst d) -> In k' (map fst (dict_set d k v)).
Proof.
  intros H. destruct (in_dec (decide_rel eq) k (map fst d)) as [Hk|Hk].
  - rewrite dict_set_keys_present; auto.
  - rewrite dict_set_keys_absent; auto. apply in_or_app. left. exact H.
Qed.

Lemma NoDup_snoc {A} (l : list A) (x : A) :
  List.NoDup l -> ~ In x l -> List.NoDup (l ++ [x]).
Proof.
  induction 1 as [|y l Hy Hl IH]; simpl; intros Hx.
  - constructor; [tauto|constructor].
  - constructor.
    + rewrite in_app_iff. simpl. intros [?|[?|[]]]; [tauto|subst; tauto].
    + apply IH. tauto.
Qed.

Lemma dict_set_NoDup d k v :
  List.NoDup (map fst d) -> List.NoDup (map fst (dict_set d k v)).
Proof.
  intros H. destruct (in_dec (decide_rel eq) k (map fst d)) as [Hk|Hk].
  - rewrite dict_set_keys_present; auto.
  - rewrite dict_set_keys_absent; auto. apply NoDup_snoc; auto.
Qed.

Lemma fold_dict_set_NoDup {A} (f : A -> pykey * pyval) (l : list A) d :
  List.NoDup (map fst d) ->
  List.NoDup (map fst (fold_left (fun d a => dict_set d (fst (f a)) (snd (f a))) l d)).
Proof.
  revert d. induction l as [|a l IH]; simpl; intros d H; [exact H|].
  apply IH. apply dict_set_NoDup. exact H.
Qed.

Lemma fold_dict_set_keep {A} (f : A -> pykey * pyval) (l : list A) d k :
  In k (map fst d) ->
  In k (map fst (fold_left (fun d a => dict_set d (fst (f a)) (snd (f a))) l d)).
Proof.
  revert d. induction l as [|a l IH]; simpl; intros d H; [exact H|].
  apply IH. apply dict_set_keep_key. exact H.
Qed.

Lemma fold_dict_set_In {A} (f : A -> pykey * pyval) (l : list A) d a :
  In a l ->
  In (fst (f a)) (map fst (fold_left (fun d a => dict_set d (fst (f a)) (snd (f a))) l d)).
Proof.
  revert d. induction l as [|b l IH]; simpl; intros d; [tauto|].
  intros [->|H]; [|apply IH; exact H].
  apply fold_dict_set_keep. apply dict_set_In_key.
Qed.

Lemma dict_of_pairs_NoDup pairs : List.NoDup (map fst (dict_of_pairs pairs)).
Proof. apply (fold_dict_set_NoDup (fun kv => kv)). constructor. Qed.

Lemma DictReader_row_NoDup fieldnames row :
  List.NoDup (map fst (DictReader_row fieldnames row)).
Proof.
  unfold DictReader_row.
  destruct (Nat.ltb _ _); [apply dict_set_NoDup, dict_of_pairs_NoDup|].
  destruct (Nat.ltb _ _); [|apply dict_of_pairs_NoDup].
  apply (fold_dict_set_NoDup (fun key => (Some key, PNone))).
  apply dict_of_pairs_NoDup.
Qed.

(** Every field name is a key of the row read. *)
Lemma DictReader_row_has_field fieldnames row name :
  In name fieldnames ->
  In (Some name) (map fst (DictReader_row fieldnames row)).
Proof.
  intros Hin. unfold DictReader_row.
  assert (Hzip : forall n, In n (firstn (length row) fieldnames) ->
            In (Some n) (map fst (dict_of_pairs
                                    (combine (map Some fieldnames) (map PStr row))))).
  { intros n Hn. unfold dict_of_pairs.
    assert (In (Some n) (map fst (combine (map Some fieldnames) (map PStr row)))) as H.
    { clear Hin. revert row Hn. induction fieldnames as [|f fs IH]; intros [|c row]; simpl;
        try tauto.
      intros [->|H]; [left; reflexivity|right; apply IH; exact H]. }
    apply in_map_iff in H as ([k v] & Hk & Hkv). simpl in Hk. subst k.
    apply (fold_dict_set_In (fun kv => kv) _ _ _ Hkv). }
  rewrite <- (firstn_skipn (length row) fieldnames) in Hin.
  apply in_app_or in Hin as [Hin|Hin].
  - specialize (Hzip _ Hin).
    destruct (Nat.ltb _ _); [apply dict_set_keep_key; exact Hzip|].
    destruct (Nat.ltb _ _); [|exact Hzip].
    apply (fold_dict_set_keep (fun key => (Some key, PNone))). exact Hzip.
  - destruct (Nat.ltb (length fieldnames) (length row)) eqn:E1.
    { apply Nat.ltb_lt in E1. rewrite skipn_all2 in Hin by lia. destruct Hin. }
    destruct (Nat.ltb (length row) (length fieldnames)) eqn:E2.
    + apply (fold_dict_set_In (fun key => (Some key, PNone)) _ _ _ Hin).
    + apply Nat.ltb_ge in E1, E2. rewrite skipn_all2 in Hin by lia. destruct Hin.
Qed.

(** Among distinct keys, a key that is present occurs once. *)
Lemma count_key_absent (d : pydict) (k : pykey) :
  ~ In k (map fst d) ->
  List.filter (fun kv => bool_decide (fst kv = k)) d = [].
Proof.
  induction d as [|[k' v'] d IH]; cbn [List.filter map fst In]; [reflexivity|].
  intros H. rewrite bool_decide_eq_false_2 by tauto. apply IH. tauto.
Qed.

Lemma count_key_NoDup (d : pydict) (k : pykey) :
  List.NoDup (map fst d) -> In k (map fst d) ->
  length (List.filter (fun kv => bool_decide (fst kv = k)) d) = 1%nat.
Proof.
  induction d as [|[k' v'] d IH]; cbn [List.filter map fst In]; [tauto|].
  intros Hnd Hin. inversion Hnd as [|? ? Hk' Hd]; subst.
  destruct (decide (k' = k)) as [->|Hne].
  - rewrite bool_decide_eq_true_2 by reflexivity.
    rewrite count_key_absent by assumption. reflexivity.
  - rewrite bool_decide_eq_false_2 by assumption.
    apply IH; [assumption|]. destruct Hin; [congruence|assumption].
Qed.

Lemma key_text_id k : key_text k = lit "id" <-> k = Some (lit "id").
Proof.
  destruct k as [s|]; simpl; split; intros H; try congruence.
  vm_compute in H. discriminate.
Qed.

Lemma with_ids_length urandom n rows :
  length (UrlParser.with_ids urandom n rows) = length rows.
Proof. revert n. induction rows; simpl; intros; [reflexivity|f_equal; auto]. Qed.

Lemma with_ids_nth urandom n rows i :
  nth_error (UrlParser.with_ids urandom n rows) i =
  option_map (fun row => PDict (dict_set row (Some (lit "id"))
                                  (PStr (str_uuid4 (urandom (n + i)%nat)))))
    (nth_error rows i).
Proof.
  revert n i. induction rows as [|row rows IH]; intros n [|i]; simpl; try reflexivity.
  - rewrite Nat.add_0_r. reflexivity.
  - rewrite IH. replace (S n + i)%nat with (n + S i)%nat by lia. reflexivity.
Qed.

(** ** The keys of a row *)

Lemma dict_set_keys_from d k k' v :
  In k' (map fst (dict_set d k v)) -> In k' (map fst d) \/ k' = k.
Proof.
  destruct (in_dec (decide_rel eq) k (map fst d)) as [Hk|Hk].
  - rewrite dict_set_keys_present by exact Hk. tauto.
  - rewrite dict_set_keys_absent by exact Hk. rewrite in_app_iff.
    cbn [In]. intuition.
Qed.

Lemma fold_dict_set_keys_from {A} (f : A -> pykey * pyval) (l : list A) : forall d k,
  In k (map fst (fold_left (fun d a => dict_set d (fst (f a)) (snd (f a))) l d)) ->
  In k (map fst d) \/ In k (map (fun a => fst (f a)) l).
Proof.
  induction l as [|a l IH]; intros d k; cbn [fold_left map In]; [tauto|].
  intros H. apply IH in H as [H|H]; [|tauto].
  apply dict_set_keys_from in H as [H| ->]; tauto.
Qed.

(** A key of a row is a field name, or [None] when the row is longer than
    the header. *)
Lemma DictReader_row_keys fieldnames row k :
  In k (map fst (DictReader_row fieldnames row)) ->
  (exists name, k = Some name /\ In name fieldnames)
  \/ (k = None /\ (length fieldnames < length row)%nat).
Proof.
  unfold DictReader_row.
  assert (Hzip : forall k,
            In k (map fst (dict_of_pairs
                             (combine (map Some fieldnames) (map PStr row)))) ->
            exists name, k = Some name /\ In name fieldnames).
  { intros k0 H. apply (fold_dict_set_keys_from (fun kv => kv)) in H as [[]|H].
    apply in_map_iff in H as ([k1 v1] & <- & H). apply in_combine_l in H.
    apply in_map_iff in H as (name & <- & H). exists name. split; [reflexivity|exact H]. }
  destruct (Nat.ltb (length fieldnames) (length row)) eqn:E1.
  { apply Nat.ltb_lt in E1. intros H.
    apply dict_set_keys_from in H as [H| ->]; [left; apply Hzip; exact H|].
    right. split; [reflexivity|exact E1]. }
  destruct (Nat.ltb (length row) (length fieldnames)); [|intros H; left; apply Hzip; exact H].
  intros H. left.
  apply (fold_dict_set_keys_from (fun key => (Some key, PNone))) in H as [H|H];
    [apply Hzip; exact H|].
  apply in_map_iff in H as (name & <- & H). exists name. split; [reflexivity|].
  rewrite <- (firstn_skipn (length row) fieldnames). apply in_or_app. right. exact H.
Qed.

Lemma NoDup_map_on {A B} (f : A -> B) (l : list A) :
  (forall a b, In a l -> In b l -> f a = f b -> a = b) ->
  List.NoDup l -> List.NoDup (map f l).
Proof.
  intros Hinj Hl. induction Hl as [|x l Hx Hl IH]; cbn [map]; constructor.
  - rewrite in_map_iff. intros (y & Hxy & Hy).
    apply Hinj in Hxy; [subst; contradiction|right; exact Hy|left; reflexivity].
  - apply IH. intros a b Ha Hb. apply Hinj; right; assumption.
Qed.

(** Distinct keys are written with distinct names unless both [None] and
    the string [null] are among them. *)
Lemma key_text_NoDup (keys : list pykey) :
  List.NoDup keys ->
  ~ In None keys \/ ~ In (Some (lit "null")) keys ->
  List.NoDup (map key_text keys).
Proof.
  intros Hnd Hnull. apply NoDup_map_on; [|exact Hnd].
  intros [a|] [b|] Ha Hb; cbn [key_text]; intros E; subst; try reflexivity;
    destruct Hnull; contradiction.
Qed.

(** The fields of a written record have distinct names when the header has
    no column [null] or the row has no more cells than the header. *)
Lemma written_keys_distinct header row v :
  ~ In (lit "null") header \/ (length row <= length header)%nat ->
  List.NoDup
    (map (fun kv => key_text (fst kv))
       (dict_set (DictReader_row header row) (Some (lit "id")) v)).
Proof.
  intros H. rewrite <- (map_map fst key_text).
  apply key_text_NoDup; [apply dict_set_NoDup, DictReader_row_NoDup|].
  destruct H as [H|H].
  - right. intros Hin. apply dict_set_keys_from in Hin as [Hin|Hin].
    + apply DictReader_row_keys in Hin as [(name & [= <-] & Hn)|[Hn _]];
        [contradiction|discriminate].
    + vm_compute in Hin. discriminate.
  - left. intros Hin. apply dict_set_keys_from in Hin as [Hin|Hin]; [|discriminate].
    apply DictReader_row_keys in Hin as [(name & Hn & _)|[_ Hn]]; [discriminate|lia].
Qed.


(** * JSON *)

(** ** Hexadecimal digits *)

Lemma hex_value_digit d : d < 16 -> hex_value (hex_digit d) = Some d.
Proof.
  intros H. unfold hex_digit, hex_value.
  destruct (d <? 10) eqn:E.
  - apply N.ltb_lt in E.
    replace (48 <=? 48 + d) with true by (symmetry; apply N.leb_le; lia).
    replace (48 + d <=? 57) with true by (symmetry; apply N.leb_le; lia).
    simpl. f_equal. lia.
  - apply N.ltb_ge in E.
    replace (87 + d <=? 57) with false by (symmetry; apply N.leb_gt; lia).
    rewrite andb_false_r.
    replace (97 <=? 87 + d) with true by (symmetry; apply N.leb_le; lia).
    replace (87 + d <=? 102) with true by (symmetry; apply N.leb_le; lia).
    simpl. f_equal. lia.
Qed.

Lemma hex_digits_4 x :
  hex_digits 4 x =
  [hex_digit (x / 16 / 16 / 16 mod 16); hex_digit (x / 16 / 16 mod 16);
   hex_digit (x / 16 mod 16);  hex_digit (x mod 16)].
Proof. reflexivity. Qed.

Lemma hex4_digits x :
  x < 65536 ->
  hex4 (hex_digit (x / 16 / 16 / 16 mod 16)) (hex_digit (x / 16 / 16 mod 16))
       (hex_digit (x / 16 mod 16)) (hex_digit (x mod 16)) = Some x.
Proof.
  intros H. unfold hex4.
  rewrite !hex_value_digit by (apply N.mod_lt; lia).
  f_equal.
  pose proof (N.div_mod x 16 ltac:(lia)).
  pose proof (N.div_mod (x / 16) 16 ltac:(lia)).
  pose proof (N.div_mod (x / 16 / 16) 16 ltac:(lia)).
  assert (x / 16 / 16 / 16 < 16).
  { rewrite !N.Div0.div_div. apply N.Div0.div_lt_upper_bound. simpl. lia. }
  rewrite (N.mod_small (x / 16 / 16 / 16) 16) by assumption.
  lia.
Qed.

(** ** Surrogate pairs *)

Lemma land_shiftl_low a n b : b < 2 ^ n -> N.land (N.shiftl a n) b = 0.
Proof.
  intros Hb. apply N.bits_inj. intros m. rewrite N.land_spec, N.bits_0.
  destruct (N.lt_ge_cases m n) as [Hm|Hm].
  - rewrite N.shiftl_spec_low by assumption. reflexivity.
  - apply andb_false_intro2.
    destruct (N.eq_dec b 0) as [->|Hnz]; [apply N.bits_0|].
    apply N.bits_above_log2. apply N.lt_le_trans with n; [|assumption].
    apply N.log2_lt_pow2; lia.
Qed.

Lemma lor_shiftl_low a n b : b < 2 ^ n -> N.lor (N.shiftl a n) b = a * 2 ^ n + b.
Proof.
  intros Hb. pose proof (land_shiftl_low a n b Hb) as H0.
  rewrite <- N.lxor_lor, <- N.add_nocarry_lxor, N.shiftl_mul_pow2 by assumption.
  reflexivity.
Qed.

Lemma land_1023 a : N.land a 0x3ff = a mod 1024.
Proof. apply (N.land_ones a 10). Qed.

Lemma shiftr_10 a : N.shiftr a 10 = a / 1024.
Proof. apply (N.shiftr_div_pow2 a 10). Qed.

(** The two halves [json.dumps] writes for a character beyond the basic
    plane, and the character [json.loads] joins them into. *)
Lemma surrogate_pair c :
  0x10000 <= c < 0x110000 ->
  let n := c - 0x10000 in
  let s1 := N.lor 0xd800 (N.land (N.shiftr n 10) 0x3ff) in
  let s2 := N.lor 0xdc00 (N.land n 0x3ff) in
  s1 < 65536 /\ s2 < 65536 /\ is_high_surrogate s1 = true /\
  is_low_surrogate s2 = true /\ join_surrogates s1 s2 = c.
Proof.
  intros Hc n s1 s2.
  assert (Hdef : n = c - 0x10000) by reflexivity. clearbody n.
  assert (Hn : n < 1024 * 1024) by lia.
  assert (Hhi : n / 1024 < 1024) by (apply N.Div0.div_lt_upper_bound; lia).
  assert (Hlo : n mod 1024 < 1024) by (apply N.mod_lt; lia).
  assert (E1 : s1 = 0xd800 + n / 1024).
  { unfold s1. rewrite land_1023, shiftr_10, (N.mod_small _ _ Hhi).
    change 0xd800 with (N.shiftl 54 10) at 1. rewrite lor_shiftl_low by exact Hhi.
    reflexivity. }
  assert (E2 : s2 = 0xdc00 + n mod 1024).
  { unfold s2. rewrite land_1023.
    change 0xdc00 with (N.shiftl 55 10) at 1. rewrite lor_shiftl_low by exact Hlo.
    reflexivity. }
  clearbody s1 s2. subst s1 s2.
  pose proof (N.div_mod n 1024 ltac:(lia)) as Hdm.
  generalize dependent (n / 1024). generalize dependent (n mod 1024).
  intros lo Hlo hi Hhi Hdm.
  split; [lia|]. split; [lia|].
  split; [unfold is_high_surrogate; apply andb_true_iff; split; apply N.leb_le; lia|].
  split; [unfold is_low_surrogate; apply andb_true_iff; split; apply N.leb_le; lia|].
  unfold join_surrogates. rewrite !land_1023.
  replace ((0xd800 + hi) mod 1024) with hi.
  2:{ change 0xd800 with (54 * 1024). rewrite N.add_comm, N.Div0.mod_add.
      symmetry. apply N.mod_small. exact Hhi. }
  replace ((0xdc00 + lo) mod 1024) with lo.
  2:{ change 0xdc00 with (55 * 1024). rewrite N.add_comm, N.Div0.mod_add.
      symmetry. apply N.mod_small. exact Hlo. }
  rewrite lor_shiftl_low by exact Hlo.
  change (2 ^ 10) with 1024. lia.
Qed.

(** ** Strings: [scanstring] reads back what [encode_basestring_ascii] writes *)

Lemma scanstring_quote r : scanstring (34 :: r) = Ok ([], r).
Proof. reflexivity. Qed.

Lemma scanstring_plain c r :
  c <> 34 -> c <> 92 -> 32 <= c ->
  scanstring (c :: r) = (let* '(t, r') := scanstring r in Ok (c :: t, r'))%R.
Proof.
  intros H1 H2 H3. cbn [scanstring].
  apply N.eqb_neq in H1, H2. rewrite H1, H2.
  replace (c <? 32) with false by (symmetry; apply N.ltb_ge; exact H3).
  reflexivity.
Qed.

Lemma scanstring_escape e x r :
  e <> 117 -> unescape e = Some x ->
  scanstring (92 :: e :: r) = (let* '(t, r') := scanstring r in Ok (x :: t, r'))%R.
Proof.
  intros H1 H2. cbn [scanstring]. change (92 =? 34) with false.
  change (92 =? 92) with true. cbv iota.
  apply N.eqb_neq in H1. rewrite H1, H2. reflexivity.
Qed.

Lemma scanstring_u h1 h2 h3 h4 u r :
  hex4 h1 h2 h3 h4 = Some u -> is_high_surrogate u = false ->
  scanstring (92 :: 117 :: h1 :: h2 :: h3 :: h4 :: r) =
  (let* '(t, r') := scanstring r in Ok (u :: t, r'))%R.
Proof.
  intros H1 H2. cbn [scanstring]. change (92 =? 34) with false.
  change (92 =? 92) with true. change (117 =? 117) with true. cbv iota.
  rewrite H1, H2. reflexivity.
Qed.

Lemma scanstring_pair h1 h2 h3 h4 l1 l2 l3 l4 u u2 r :
  hex4 h1 h2 h3 h4 = Some u -> is_high_surrogate u = true ->
  hex4 l1 l2 l3 l4 = Some u2 -> is_low_surrogate u2 = true ->
  scanstring (92 :: 117 :: h1 :: h2 :: h3 :: h4
              :: 92 :: 117 :: l1 :: l2 :: l3 :: l4 :: r) =
  (let* '(t, r') := scanstring r in Ok (join_surrogates u u2 :: t, r'))%R.
Proof.
  intros H1 H2 H3 H4. cbn [scanstring]. change (92 =? 34) with false.
  change (92 =? 92) with true. change (117 =? 117) with true. cbv iota.
  rewrite H1, H2. change (92 =? 92) with true. change (117 =? 117) with true.
  cbn [andb]. rewrite H3, H4. reflexivity.
Qed.

Lemma scalar_not_high c : is_scalar c = true -> is_high_surrogate c = false.
Proof.
  unfold is_scalar, is_surrogate, is_high_surrogate. intros H.
  apply andb_true_iff in H as [_ H]. apply negb_true_iff in H.
  apply andb_false_iff in H as [H|H].
  - rewrite H. reflexivity.
  - apply N.leb_gt in H. apply andb_false_iff. right. apply N.leb_gt. lia.
Qed.

(** The case of a character written as a backslash and a letter. *)
Ltac two_character_escape E :=
  apply N.eqb_eq in E; subst; apply scanstring_escape; [discriminate|reflexivity].

Lemma scanstring_escape_ascii c r :
  is_scalar c = true ->
  scanstring (escape_ascii c ++ r) =
  (let* '(t, r') := scanstring r in Ok (c :: t, r'))%R.
Proof.
  intros Hc. unfold escape_ascii.
  destruct (c =? 34) eqn:E1; [two_character_escape E1|].
  destruct (c =? 92) eqn:E2; [two_character_escape E2|].
  destruct (c =? 10) eqn:E3; [two_character_escape E3|].
  destruct (c =? 13) eqn:E4; [two_character_escape E4|].
  destruct (c =? 9) eqn:E5; [two_character_escape E5|].
  destruct (c =? 8) eqn:E6; [two_character_escape E6|].
  destruct (c =? 12) eqn:E7; [two_character_escape E7|].
  apply N.eqb_neq in E1, E2.
  destruct ((32 <=? c) && (c <=? 126)) eqn:E8.
  { apply andb_true_iff in E8 as [E8 _]. apply N.leb_le in E8.
    apply scanstring_plain; assumption. }
  destruct (c <? 0x10000) eqn:E9.
  { apply N.ltb_lt in E9. rewrite hex_digits_4.
    apply scanstring_u; [apply hex4_digits; exact E9|apply scalar_not_high; exact Hc]. }
  apply N.ltb_ge in E9.
  assert (Hr : 0x10000 <= c < 0x110000).
  { split; [exact E9|]. unfold is_scalar in Hc.
    apply andb_true_iff in Hc as [Hc _]. apply N.ltb_lt in Hc. exact Hc. }
  destruct (surrogate_pair c Hr) as (Hs1 & Hs2 & Hhi & Hlo & Hj).
  cbv zeta in *.
  set (s1 := N.lor 0xd800 _) in *. set (s2 := N.lor 0xdc00 _) in *.
  clearbody s1 s2. subst c. rewrite !hex_digits_4.
  apply scanstring_pair; auto using hex4_digits.
Qed.

Lemma scanstring_escaped s rest :
  str_ok s -> scanstring (flat_map escape_ascii s ++ 34 :: rest) = Ok (s, rest).
Proof.
  induction 1 as [|c s Hc _ IH]; cbn [flat_map app]; [apply scanstring_quote|].
  rewrite <- app_assoc, scanstring_escape_ascii by exact Hc.
  rewrite IH. reflexivity.
Qed.

Lemma scanstring_encoded s rest :
  str_ok s ->
  exists body, encode_basestring_ascii s ++ rest = 34 :: body /\
    scanstring body = Ok (s, rest).
Proof.
  intros H. exists (flat_map escape_ascii s ++ 34 :: rest). split.
  - unfold encode_basestring_ascii. cbn [app]. rewrite <- app_assoc. reflexivity.
  - apply scanstring_escaped. exact H.
Qed.

(** ** The scanner reads back what [json.dumps] writes *)

Lemma parse_value_str f s :
  parse_value (S f) (34 :: s) = (let* '(t, r) := scanstring s in Ok (PStr t, r))%R.
Proof. reflexivity. Qed.

Lemma parse_value_list f s :
  parse_value (S f) (91 :: s) =
  match skip_ws s with
  | c1 :: s2 =>
      if c1 =? 93 then Ok (PList [], s2)
      else (let* '(items, r) := parse_items f (c1 :: s2) in Ok (PList items, r))%R
  | [] => Raise JSONDecodeError
  end.
Proof. reflexivity. Qed.

Lemma parse_value_dict f s :
  parse_value (S f) (123 :: s) =
  match skip_ws s with
  | c1 :: s2 =>
      if c1 =? 125 then Ok (PDict [], s2)
      else (let* '(pairs, r) := parse_members f (c1 :: s2) in
            Ok (PDict (dict_of_pairs pairs), r))%R
  | [] => Raise JSONDecodeError
  end.
Proof. reflexivity. Qed.

Lemma parse_items_step f s :
  parse_items (S f) s =
  (let* '(v, r) := parse_value f s in
   match skip_ws r with
   | c :: r' =>
       if c =? 93 then Ok ([v], r')
       else if c =? 44 then
         let* '(vs, r'') := parse_items f (skip_ws r') in
         Ok (v :: vs, r'')
       else Raise JSONDecodeError
   | [] => Raise JSONDecodeError
   end)%R.
Proof. reflexivity. Qed.

Lemma parse_members_step f s :
  parse_members (S f) (34 :: s) =
  (let* '(key, r) := scanstring s in
   match skip_ws r with
   | c1 :: r1 =>
       if c1 =? 58 then
         let* '(v, r2) := parse_value f (skip_ws r1) in
         match skip_ws r2 with
         | c2 :: r3 =>
             if c2 =? 125 then Ok ([(Some key, v)], r3)
             else if c2 =? 44 then
               let* '(ms, r4) := parse_members f (skip_ws r3) in
               Ok ((Some key, v) :: ms, r4)
             else Raise JSONDecodeError
         | [] => Raise JSONDecodeError
         end
       else Raise JSONDecodeError
   | [] => Raise JSONDecodeError
   end)%R.
Proof. reflexivity. Qed.

Lemma json_dumps_start v :
  exists c tl, json_dumps v = c :: tl /\ value_start c = true.
Proof.
  destruct v as [| [|] | s | l | d].
  - exists 110, (lit "ull"). split; reflexivity.
  - exists 116, (lit "rue"). split; reflexivity.
  - exists 102, (lit "alse"). split; reflexivity.
  - eexists 34, _. split; reflexivity.
  - rewrite json_dumps_list. eexists 91, _. split; reflexivity.
  - rewrite json_dumps_dict. eexists 123, _. split; reflexivity.
Qed.

Lemma value_start_facts c :
  value_start c = true -> is_ws c = false /\ (c =? 93) = false /\ (c =? 125) = false.
Proof.
  unfold value_start. rewrite !orb_true_iff, !N.eqb_eq.
  intros [[[[[->| ->]| ->]| ->]| ->]| ->]; repeat split.
Qed.

Lemma skip_ws_dumps v rest : skip_ws (json_dumps v ++ rest) = json_dumps v ++ rest.
Proof.
  destruct (json_dumps_start v) as (c & tl & -> & Hc).
  apply value_start_facts in Hc as (Hws & _). cbn [app skip_ws]. rewrite Hws.
  reflexivity.
Qed.

Lemma join_one sep p : join sep [p] = p.
Proof. reflexivity. Qed.

Lemma join_more sep p q ps : join sep (p :: q :: ps) = p ++ sep ++ join sep (q :: ps).
Proof. reflexivity. Qed.

Lemma join_head sep p ps : exists t, join sep (p :: ps) = p ++ t.
Proof.
  destruct ps as [|q ps]; [exists []; rewrite join_one, app_nil_r|eexists; apply join_more];
    reflexivity.
Qed.

Lemma skip_ws_join_dumps sep v ps rest :
  skip_ws (join sep (json_dumps v :: ps) ++ rest) = join sep (json_dumps v :: ps) ++ rest.
Proof.
  destruct (join_head sep (json_dumps v) ps) as [t ->].
  rewrite <- app_assoc. apply skip_ws_dumps.
Qed.

Lemma skip_ws_space r : skip_ws (32 :: r) = skip_ws r.
Proof. reflexivity. Qed.

Lemma skip_ws_mark c r : is_ws c = false -> skip_ws (c :: r) = c :: r.
Proof. intros H. cbn [skip_ws]. rewrite H. reflexivity. Qed.

Lemma parse_items_dumps l :
  l <> [] ->
  Forall reads_back l ->
  forall fuel rest,
    (length (join (lit ", ") (map json_dumps l)) < fuel)%nat ->
    parse_items fuel (join (lit ", ") (map json_dumps l) ++ 93 :: rest) =
    Ok (map loaded l, rest).
Proof.
  intros Hne Hl. induction Hl as [|x l Hx Hl IH]; [congruence|]. clear Hne.
  intros [|f] rest Hfuel; [lia|]. rewrite parse_items_step.
  destruct l as [|y l].
  - cbn [map] in *. rewrite join_one in *.
    rewrite Hx by lia. cbn [rbind]. rewrite skip_ws_mark by reflexivity.
    reflexivity.
  - cbn [map] in *. rewrite join_more in *. rewrite <- !app_assoc.
    rewrite length_app, length_app in Hfuel.
    change (length (lit ", ")) with 2%nat in Hfuel.
    rewrite Hx by lia. cbn [rbind]. change (lit ", " ++ ?t) with (44 :: 32 :: t).
    rewrite skip_ws_mark by reflexivity.
    change (44 =? 93) with false. change (44 =? 44) with true. cbv iota.
    rewrite skip_ws_space, skip_ws_join_dumps.
    rewrite (IH ltac:(discriminate) f rest) by lia. reflexivity.
Qed.

Lemma member_text_unfold kv tail :
  member_text kv ++ tail =
  34 :: flat_map escape_ascii (key_text (fst kv))
        ++ 34 :: 58 :: 32 :: json_dumps (snd kv) ++ tail.
Proof.
  unfold member_text, encode_basestring_ascii.
  change (lit ": ") with [58; 32]. cbn [app]. rewrite <- !app_assoc. reflexivity.
Qed.

Lemma skip_ws_join_member sep kv ps rest :
  skip_ws (join sep (member_text kv :: ps) ++ rest) = join sep (member_text kv :: ps) ++ rest.
Proof.
  destruct (join_head sep (member_text kv) ps) as [t ->].
  rewrite <- app_assoc, member_text_unfold. reflexivity.
Qed.

Lemma parse_members_dumps d :
  d <> [] ->
  Forall (fun kv => str_ok (key_text (fst kv)) /\ reads_back (snd kv)) d ->
  forall fuel rest,
    (length (join (lit ", ") (map member_text d)) < fuel)%nat ->
    parse_members fuel (join (lit ", ") (map member_text d) ++ 125 :: rest) =
    Ok (map (fun kv => (Some (key_text (fst kv)), loaded (snd kv))) d, rest).
Proof.
  intros Hne Hd. induction Hd as [|kv d [Hk Hx] Hd IH]; [congruence|]. clear Hne.
  intros [|f] rest Hfuel; [lia|].
  destruct d as [|kv2 d].
  - cbn [map] in *. rewrite join_one in *.
    rewrite member_text_unfold, parse_members_step.
    rewrite scanstring_escaped by exact Hk. cbn [rbind].
    rewrite skip_ws_mark by reflexivity. change (58 =? 58) with true. cbv iota.
    rewrite skip_ws_space, skip_ws_dumps.
    rewrite <- (app_nil_r (member_text kv)), member_text_unfold in Hfuel.
    cbn [length] in Hfuel. rewrite length_app in Hfuel. cbn [length] in Hfuel.
    rewrite length_app in Hfuel.
    rewrite Hx by lia. cbn [rbind]. rewrite skip_ws_mark by reflexivity.
    reflexivity.
  - cbn [map] in *. rewrite join_more in *. rewrite <- !app_assoc.
    rewrite member_text_unfold, parse_members_step.
    rewrite scanstring_escaped by exact Hk. cbn [rbind].
    rewrite skip_ws_mark by reflexivity. change (58 =? 58) with true. cbv iota.
    rewrite skip_ws_space, skip_ws_dumps.
    rewrite length_app, length_app in Hfuel.
    change (length (lit ", ")) with 2%nat in Hfuel.
    rewrite <- (app_nil_r (member_text kv)), member_text_unfold in Hfuel.
    cbn [length] in Hfuel. rewrite length_app in Hfuel. cbn [length] in Hfuel.
    rewrite length_app in Hfuel.
    rewrite Hx by lia. cbn [rbind]. change (lit ", " ++ ?t) with (44 :: 32 :: t).
    rewrite skip_ws_mark by reflexivity.
    change (44 =? 125) with false. change (44 =? 44) with true. cbv iota.
    rewrite skip_ws_space, skip_ws_join_member.
    rewrite (IH ltac:(discriminate) f rest) by lia. reflexivity.
Qed.

Lemma val_ok_list l : val_ok (PList l) -> Forall val_ok l.
Proof. inversion 1; assumption. Qed.

Lemma val_ok_dict d :
  val_ok (PDict d) -> Forall (fun kv => str_ok (key_text (fst kv)) /\ val_ok (snd kv)) d.
Proof. inversion 1; assumption. Qed.

Lemma val_ok_str s : val_ok (PStr s) -> str_ok s.
Proof. inversion 1; assumption. Qed.

Lemma loaded_dict d :
  loaded (PDict d) =
  PDict (dict_of_pairs (map (fun kv => (Some (key_text (fst kv)), loaded (snd kv))) d)).
Proof.
  change (loaded (PDict d)) with
    (PDict (dict_of_pairs
              (map (fun kv => let '(k, x) := kv in (Some (key_text k), loaded x)) d))).
  do 2 f_equal. apply map_ext. intros [k x]. reflexivity.
Qed.

Lemma json_dumps_dict_members d :
  json_dumps (PDict d) = 123 :: join (lit ", ") (map member_text d) ++ [125].
Proof. rewrite json_dumps_dict. reflexivity. Qed.

Theorem json_dumps_reads_back v : val_ok v -> reads_back v.
Proof.
  induction v as [| b | s | l IH | d IH] using pyval_nested_ind; intros Hok fuel rest Hfuel.
  - destruct fuel as [|f]; [vm_compute in Hfuel; lia|]. reflexivity.
  - destruct fuel as [|f]; [destruct b; vm_compute in Hfuel; lia|].
    destruct b; reflexivity.
  - destruct fuel as [|f].
    { change (json_dumps (PStr s)) with (encode_basestring_ascii s) in Hfuel.
      unfold encode_basestring_ascii in Hfuel. cbn [app length] in Hfuel. lia. }
    apply val_ok_str in Hok.
    change (json_dumps (PStr s)) with (encode_basestring_ascii s).
    destruct (scanstring_encoded s rest Hok) as (body & -> & Hb).
    rewrite parse_value_str, Hb. reflexivity.
  - apply val_ok_list in Hok.
    assert (Hl : Forall reads_back l).
    { clear Hfuel. induction IH as [|x l Hx _ IHl]; constructor.
      - apply Hx. inversion Hok; assumption.
      - apply IHl. inversion Hok; assumption. }
    rewrite json_dumps_list in *. change (lit "[" ++ ?t) with (91 :: t) in *.
    change (lit "]") with [93] in *.
    destruct fuel as [|f]; [cbn [length] in Hfuel; lia|].
    cbn [length] in Hfuel. rewrite length_app in Hfuel. cbn [length] in Hfuel.
    cbn [app]. rewrite <- app_assoc. cbn [app].
    rewrite parse_value_list.
    destruct l as [|x l].
    + reflexivity.
    + cbn [map]. rewrite skip_ws_join_dumps.
      destruct (join_head (lit ", ") (json_dumps x) (map json_dumps l)) as [t Ht].
      destruct (json_dumps_start x) as (c & tl & Hc & Hstart).
      apply value_start_facts in Hstart as (_ & H93 & _).
      pose proof (parse_items_dumps (x :: l) ltac:(discriminate) Hl f rest) as Hitems.
      cbn [map] in Hitems, Hfuel. specialize (Hitems ltac:(lia)).
      rewrite Ht, Hc in *. cbn [app] in *. rewrite H93, Hitems. reflexivity.
  - apply val_ok_dict in Hok.
    assert (Hd : Forall (fun kv => str_ok (key_text (fst kv)) /\ reads_back (snd kv)) d).
    { clear Hfuel. induction IH as [|kv d Hx _ IHd]; constructor.
      - inversion Hok as [|? ? [Hk Hv] ?]; subst. split; [exact Hk|apply Hx; exact Hv].
      - apply IHd. inversion Hok; assumption. }
    rewrite json_dumps_dict_members in *. rewrite loaded_dict.
    destruct fuel as [|f]; [cbn [length] in Hfuel; lia|].
    cbn [length] in Hfuel. rewrite length_app in Hfuel. cbn [length] in Hfuel.
    cbn [app]. rewrite <- app_assoc. cbn [app].
    rewrite parse_value_dict.
    destruct d as [|kv d].
    + reflexivity.
    + cbn [map]. rewrite skip_ws_join_member.
      destruct (join_head (lit ", ") (member_text kv) (map member_text d)) as [t Ht].
      pose proof (parse_members_dumps (kv :: d) ltac:(discriminate) Hd f rest) as Hm.
      cbn [map] in Hm, Hfuel. specialize (Hm ltac:(lia)).
      rewrite Ht, <- app_assoc, member_text_unfold in *. cbn [app] in *.
      change (34 =? 125) with false. cbv iota. rewrite Hm. reflexivity.
Qed.

(** [json.loads(json.dumps(v))]. *)
Theorem json_loads_dumps v : val_ok v -> json_loads (json_dumps v) = Ok (loaded v).
Proof.
  intros Hok. unfold json_loads.
  pose proof (json_dumps_reads_back v Hok (S (2 * length (json_dumps v))) []
                ltac:(lia)) as H.
  pose proof (skip_ws_dumps v []) as Hs.
  rewrite app_nil_r in H, Hs. rewrite Hs, H. cbn [rbind skip_ws].
  destruct (json_dumps_start v) as (c & tl & -> & Hstart).
  unfold value_start in Hstart. rewrite !orb_true_iff, !N.eqb_eq in Hstart.
  destruct Hstart as [[[[[->| ->]| ->]| ->]| ->]| ->]; reflexivity.
Qed.

(** ** The fuel of the scanner is enough *)

Lemma skip_ws_length s : (length (skip_ws s) <= length s)%nat.
Proof.
  induction s as [|c s IH]; cbn [skip_ws length]; [lia|].
  destruct (is_ws c); cbn [length]; lia.
Qed.

Lemma strip_prefix_length p : forall s r,
  strip_prefix p s = Some r -> length s = (length p + length r)%nat.
Proof.
  induction p as [|a p IH]; intros [|b s] r; cbn [strip_prefix length];
    try discriminate; try (intros [= <-]; reflexivity).
  destruct (a =? b); [|discriminate]. intros H. rewrite (IH _ _ H). reflexivity.
Qed.

Ltac scan_rest IH :=
  match goal with
  | |- context [scanstring ?x] =>
      let E := fresh "E" in
      destruct (scanstring x) as [[? ?]|] eqn:E; cbn [rbind];
      [intros [= <- <-]; apply IH in E; [cbn [length] in *; lia|cbn [length] in *; lia]
      |discriminate]
  end.

(** [scanstring] reads at least the closing quote. *)
Lemma scanstring_shorter n : forall s t r,
  (length s <= n)%nat -> scanstring s = Ok (t, r) -> (length r < length s)%nat.
Proof.
  induction n as [|n IH]; intros s t r Hlen.
  { destruct s; [discriminate|cbn [length] in Hlen; lia]. }
  destruct s as [|c s1]; [discriminate|]. cbn [length] in Hlen. cbn [scanstring].
  destruct (c =? 34); [intros [= <- <-]; cbn [length]; lia|].
  destruct (c =? 92).
  - destruct s1 as [|e s2]; [discriminate|]. cbn [length] in Hlen.
    destruct (e =? 117).
    + destruct s2 as [|h1 [|h2 [|h3 [|h4 s3]]]]; try discriminate.
      cbn [length] in Hlen.
      destruct (hex4 h1 h2 h3 h4) as [u|]; [|discriminate].
      destruct (is_high_surrogate u); [|scan_rest IH].
      destruct s3 as [|b [|e2 [|l1 [|l2 [|l3 [|l4 s4]]]]]]; try scan_rest IH.
      cbn [length] in Hlen.
      destruct ((b =? 92) && (e2 =? 117)); [|scan_rest IH].
      destruct (hex4 l1 l2 l3 l4) as [u2|]; [|discriminate].
      destruct (is_low_surrogate u2); scan_rest IH.
    + destruct (unescape e); [|discriminate]. scan_rest IH.
  - destruct (c <? 32); [discriminate|]. scan_rest IH.
Qed.

Ltac scan_raise IH :=
  match goal with
  | |- context [scanstring ?x] =>
      let E := fresh "E" in
      destruct (scanstring x) as [[? ?]|] eqn:E; cbn [rbind];
      [discriminate
      |intros [= <-]; apply IH in E; [exact E|cbn [length] in *; lia]]
  end.

(** It raises nothing but [JSONDecodeError]. *)
Lemma scanstring_raises n : forall s e,
  (length s <= n)%nat -> scanstring s = Raise e -> e = JSONDecodeError.
Proof.
  induction n as [|n IH]; intros s e Hlen.
  { destruct s; [intros [= <-]; reflexivity|cbn [length] in Hlen; lia]. }
  destruct s as [|c s1]; [intros [= <-]; reflexivity|].
  cbn [length] in Hlen. cbn [scanstring].
  destruct (c =? 34); [discriminate|].
  destruct (c =? 92).
  - destruct s1 as [|e0 s2]; [intros [= <-]; reflexivity|]. cbn [length] in Hlen.
    destruct (e0 =? 117).
    + destruct s2 as [|h1 [|h2 [|h3 [|h4 s3]]]]; try (intros [= <-]; reflexivity).
      cbn [length] in Hlen.
      destruct (hex4 h1 h2 h3 h4) as [u|]; [|intros [= <-]; reflexivity].
      destruct (is_high_surrogate u); [|scan_raise IH].
      destruct s3 as [|b [|e2 [|l1 [|l2 [|l3 [|l4 s4]]]]]]; try scan_raise IH.
      cbn [length] in Hlen.
      destruct ((b =? 92) && (e2 =? 117)); [|scan_raise IH].
      destruct (hex4 l1 l2 l3 l4) as [u2|]; [|intros [= <-]; reflexivity].
      destruct (is_low_surrogate u2); scan_raise IH.
    + destruct (unescape e0); [|intros [= <-]; reflexivity]. scan_raise IH.
  - destruct (c <? 32); [intros [= <-]; reflexivity|]. scan_raise IH.
Qed.

(** What the scanner reads, it reads from the front: the rest is shorter. *)
Lemma parse_shorter fuel :
  (forall s v r, parse_value fuel s = Ok (v, r) -> (length r < length s)%nat)
  /\ (forall s vs r, parse_items fuel s = Ok (vs, r) -> (length r < length s)%nat)
  /\ (forall s ms r, parse_members fuel s = Ok (ms, r) -> (length r < length s)%nat).
Proof.
  induction fuel as [|fuel (IHv & IHi & IHm)];
    [repeat split; intros; discriminate|].
  split; [|split].
  - intros s v r. cbn [parse_value].
    destruct s as [|c s']; [discriminate|].
    destruct (c =? 34).
    { destruct (scanstring s') as [[t r0]|] eqn:E; [|discriminate]. cbn [rbind].
      intros [= <- <-]. apply (scanstring_shorter _ _ _ _ (le_n _)) in E.
      cbn [length]. lia. }
    pose proof (skip_ws_length s') as Hws.
    destruct (c =? 123).
    { destruct (skip_ws s') as [|c1 s2] eqn:Es; [discriminate|].
      destruct (c1 =? 125); [intros [= <- <-]; cbn [length] in *; lia|].
      destruct (parse_members fuel (c1 :: s2)) as [[pairs r0]|] eqn:E; [|discriminate].
      cbn [rbind]. intros [= <- <-]. apply IHm in E. cbn [length] in *. lia. }
    destruct (c =? 91).
    { destruct (skip_ws s') as [|c1 s2] eqn:Es; [discriminate|].
      destruct (c1 =? 93); [intros [= <- <-]; cbn [length] in *; lia|].
      destruct (parse_items fuel (c1 :: s2)) as [[items r0]|] eqn:E; [|discriminate].
      cbn [rbind]. intros [= <- <-]. apply IHi in E. cbn [length] in *. lia. }
    destruct (strip_prefix (lit "null") (c :: s')) as [r0|] eqn:E1.
    { intros [= <- <-]. apply strip_prefix_length in E1. rewrite E1.
      change (length (lit "null")) with 4%nat. lia. }
    destruct (strip_prefix (lit "true") (c :: s')) as [r0|] eqn:E2.
    { intros [= <- <-]. apply strip_prefix_length in E2. rewrite E2.
      change (length (lit "true")) with 4%nat. lia. }
    destruct (strip_prefix (lit "false") (c :: s')) as [r0|] eqn:E3.
    { intros [= <- <-]. apply strip_prefix_length in E3. rewrite E3.
      change (length (lit "false")) with 5%nat. lia. }
    destruct (starts_number (c :: s')); discriminate.
  - intros s vs r. cbn [parse_items].
    destruct (parse_value fuel s) as [[v r0]|] eqn:E; [|discriminate]. cbn [rbind].
    apply IHv in E. pose proof (skip_ws_length r0) as Hws.
    destruct (skip_ws r0) as [|c r'] eqn:Es; [discriminate|].
    destruct (c =? 93); [intros [= <- <-]; cbn [length] in *; lia|].
    destruct (c =? 44); [|discriminate].
    destruct (parse_items fuel (skip_ws r')) as [[vs' r'']|] eqn:E'; [|discriminate].
    cbn [rbind]. intros [= <- <-]. apply IHi in E'.
    pose proof (skip_ws_length r'). cbn [length] in *. lia.
  - intros s ms r. cbn [parse_members].
    destruct s as [|c s']; [discriminate|].
    destruct (c =? 34); [|discriminate].
    destruct (scanstring s') as [[key r0]|] eqn:E; [|discriminate]. cbn [rbind].
    apply (scanstring_shorter _ _ _ _ (le_n _)) in E.
    pose proof (skip_ws_length r0) as Hws.
    destruct (skip_ws r0) as [|c1 r1] eqn:Es; [discriminate|].
    destruct (c1 =? 58); [|discriminate].
    destruct (parse_value fuel (skip_ws r1)) as [[v r2]|] eqn:Ev; [|discriminate].
    cbn [rbind]. apply IHv in Ev. pose proof (skip_ws_length r1) as Hws1.
    pose proof (skip_ws_length r2) as Hws2.
    destruct (skip_ws r2) as [|c2 r3] eqn:Es2; [discriminate|].
    destruct (c2 =? 125); [intros [= <- <-]; cbn [length] in *; lia|].
    destruct (c2 =? 44); [|discriminate].
    destruct (parse_members fuel (skip_ws r3)) as [[ms' r4]|] eqn:Em; [|discriminate].
    cbn [rbind]. intros [= <- <-]. apply IHm in Em.
    pose proof (skip_ws_length r3). cbn [length] in *. lia.
Qed.

(** With twice the length of the text as fuel, and one or two more, the
    scanner does not run out of fuel. *)
Lemma parse_fuel fuel :
  (forall s, (2 * length s + 1 <= fuel)%nat -> parse_value fuel s <> Raise RecursionError)
  /\ (forall s, (2 * length s + 2 <= fuel)%nat ->
        parse_items fuel s <> Raise RecursionError)
  /\ (forall s, (2 * length s + 2 <= fuel)%nat ->
        parse_members fuel s <> Raise RecursionError).
Proof.
  induction fuel as [|fuel (IHv & IHi & IHm)]; [repeat split; intros; lia|].
  destruct (parse_shorter fuel) as (Sv & Si & Sm).
  split; [|split].
  - intros s Hf. cbn [parse_value].
    destruct s as [|c s']; [discriminate|]. cbn [length] in Hf.
    destruct (c =? 34).
    { destruct (scanstring s') as [[t r0]|e] eqn:E; cbn [rbind]; [discriminate|].
      apply (scanstring_raises _ _ _ (le_n _)) in E. subst. discriminate. }
    pose proof (skip_ws_length s') as Hws.
    destruct (c =? 123).
    { destruct (skip_ws s') as [|c1 s2] eqn:Es; [discriminate|].
      destruct (c1 =? 125); [discriminate|].
      destruct (parse_members fuel (c1 :: s2)) as [[pairs r0]|e] eqn:E; cbn [rbind];
        [discriminate|].
      intros [= ->]. apply (IHm (c1 :: s2)); [cbn [length] in *; lia|exact E]. }
    destruct (c =? 91).
    { destruct (skip_ws s') as [|c1 s2] eqn:Es; [discriminate|].
      destruct (c1 =? 93); [discriminate|].
      destruct (parse_items fuel (c1 :: s2)) as [[items r0]|e] eqn:E; cbn [rbind];
        [discriminate|].
      intros [= ->]. apply (IHi (c1 :: s2)); [cbn [length] in *; lia|exact E]. }
    destruct (strip_prefix (lit "null") (c :: s')); [discriminate|].
    destruct (strip_prefix (lit "true") (c :: s')); [discriminate|].
    destruct (strip_prefix (lit "false") (c :: s')); [discriminate|].
    destruct (starts_number (c :: s')); discriminate.
  - intros s Hf. cbn [parse_items].
    destruct (parse_value fuel s) as [[v r0]|e] eqn:E; cbn [rbind].
    2:{ intros [= ->]. apply (IHv s); [lia|exact E]. }
    apply Sv in E. pose proof (skip_ws_length r0) as Hws.
    destruct (skip_ws r0) as [|c r'] eqn:Es; [discriminate|].
    destruct (c =? 93); [discriminate|].
    destruct (c =? 44); [|discriminate].
    pose proof (skip_ws_length r') as Hws'.
    destruct (parse_items fuel (skip_ws r')) as [[vs' r'']|e] eqn:E'; cbn [rbind];
      [discriminate|].
    intros [= ->]. apply (IHi (skip_ws r')); [cbn [length] in *; lia|exact E'].
  - intros s Hf. cbn [parse_members].
    destruct s as [|c s']; [discriminate|]. cbn [length] in Hf.
    destruct (c =? 34); [|discriminate].
    destruct (scanstring s') as [[key r0]|e] eqn:E; cbn [rbind].
    2:{ apply (scanstring_raises _ _ _ (le_n _)) in E. subst. discriminate. }
    apply (scanstring_shorter _ _ _ _ (le_n _)) in E.
    pose proof (skip_ws_length r0) as Hws.
    destruct (skip_ws r0) as [|c1 r1] eqn:Es; [discriminate|].
    destruct (c1 =? 58); [|discriminate].
    pose proof (skip_ws_length r1) as Hws1.
    destruct (parse_value fuel (skip_ws r1)) as [[v r2]|e] eqn:Ev; cbn [rbind].
    2:{ intros [= ->]. apply (IHv (skip_ws r1)); [cbn [length] in *; lia|exact Ev]. }
    apply Sv in Ev. pose proof (skip_ws_length r2) as Hws2.
    destruct (skip_ws r2) as [|c2 r3] eqn:Es2; [discriminate|].
    destruct (c2 =? 125); [discriminate|].
    destruct (c2 =? 44); [|discriminate].
    pose proof (skip_ws_length r3) as Hws3.
    destruct (parse_members fuel (skip_ws r3)) as [[ms' r4]|e] eqn:Em; cbn [rbind];
      [discriminate|].
    intros [= ->]. apply (IHm (skip_ws r3)); [cbn [length] in *; lia|exact Em].
Qed.

Lemma json_loads_unfold s :
  json_loads s = Raise JSONDecodeError
  \/ json_loads s
     = (let* '(v, r) := parse_value (S (2 * length s)) (skip_ws s) in
        match skip_ws r with
        | [] => Ok v
        | _ :: _ => Raise JSONDecodeError
        end)%R.
Proof.
  unfold json_loads. destruct s as [|c s]; [right; reflexivity|].
  destruct c as [|p]; [right; reflexivity|].
  do 16 (destruct p as [p|p|]; try (right; reflexivity)).
  all: try (left; reflexivity).
Qed.

(** The fuel [json_loads] gives the scanner never runs out. *)
Lemma json_loads_fuel s : json_loads s <> Raise RecursionError.
Proof.
  destruct (json_loads_unfold s) as [-> | ->]; [discriminate|].
  destruct (parse_fuel (S (2 * length s))) as (Hv & _ & _).
  specialize (Hv (skip_ws s)). pose proof (skip_ws_length s) as Hws.
  destruct (parse_value (S (2 * length s)) (skip_ws s)) as [[v r]|e]; cbn [rbind].
  - destruct (skip_ws r); discriminate.
  - intros [= ->]. apply Hv; [lia|reflexivity].
Qed.

Example unclosed_arrays : json_loads (lit "[[[[") = Raise JSONDecodeError.
Proof. vm_compute. reflexivity. Qed.

(** * Identifiers, decoded text, the CSV reader *)

(** ** Identifiers *)

Lemma lor_lt_pow2 a b n : a < 2 ^ n -> b < 2 ^ n -> N.lor a b < 2 ^ n.
Proof.
  intros Ha Hb.
  destruct (N.eq_dec a 0) as [->|Ha0]; [rewrite N.lor_0_l; exact Hb|].
  destruct (N.eq_dec b 0) as [->|Hb0]; [rewrite N.lor_0_r; exact Ha|].
  destruct (N.eq_dec (N.lor a b) 0) as [->|H0]; [lia|].
  apply N.log2_lt_pow2; [lia|]. rewrite N.log2_lor.
  apply N.max_lub_lt; apply N.log2_lt_pow2; lia.
Qed.

(** A UUID is a 128-bit integer. *)
Lemma uuid4_int_range random : uuid4_int random < 2 ^ 128.
Proof.
  unfold uuid4_int. cbv zeta.
  assert (H0 : random mod 2 ^ 128 < 2 ^ 128) by (apply N.mod_lt; discriminate).
  apply lor_lt_pow2; [|reflexivity].
  eapply N.le_lt_trans; [apply N.ldiff_le_l|].
  apply lor_lt_pow2; [|reflexivity].
  eapply N.le_lt_trans; [apply N.ldiff_le_l|]. exact H0.
Qed.

Lemma hex_digits_length n x : length (hex_digits n x) = n.
Proof.
  revert x. induction n as [|n IH]; intros x; cbn [hex_digits]; [reflexivity|].
  rewrite length_app, IH. cbn [length]. lia.
Qed.

Lemma hex_digit_inj a b : a < 16 -> b < 16 -> hex_digit a = hex_digit b -> a = b.
Proof.
  intros Ha Hb H. apply (f_equal hex_value) in H.
  rewrite !hex_value_digit in H by assumption. congruence.
Qed.

Lemma hex_digits_inj n a b :
  hex_digits n a = hex_digits n b -> a mod 16 ^ N.of_nat n = b mod 16 ^ N.of_nat n.
Proof.
  revert a b. induction n as [|n IH]; intros a b H.
  - change (16 ^ N.of_nat 0) with 1. rewrite !N.mod_1_r. reflexivity.
  - cbn [hex_digits] in H. apply app_inj_tail in H as [H1 H2].
    apply IH in H1.
    apply hex_digit_inj in H2; [|apply N.mod_lt; discriminate..].
    rewrite Nat2N.inj_succ, N.pow_succ_r'.
    rewrite !N.Div0.mod_mul_r. rewrite H1, H2. reflexivity.
Qed.

Lemma hex_digit_not_dash d : d < 16 -> hex_digit d <> 45.
Proof. unfold hex_digit. destruct (d <? 10); lia. Qed.

Lemma hex_digits_no_dash n x :
  List.filter (fun c => negb (c =? 45)) (hex_digits n x) = hex_digits n x.
Proof.
  revert x. induction n as [|n IH]; intros x; cbn [hex_digits]; [reflexivity|].
  rewrite List.filter_app, IH. cbn [List.filter].
  pose proof (hex_digit_not_dash (x mod 16) ltac:(apply N.mod_lt; discriminate)) as H.
  apply N.eqb_neq in H. rewrite H. reflexivity.
Qed.

Lemma uuid_groups {A} (l : list A) :
  firstn 8 l ++ firstn 4 (skipn 8 l) ++ firstn 4 (skipn 12 l)
  ++ firstn 4 (skipn 16 l) ++ skipn 20 l = l.
Proof.
  replace (skipn 20 l) with (skipn 4 (skipn 4 (skipn 4 (skipn 8 l))))
    by (rewrite !skipn_skipn; reflexivity).
  replace (skipn 16 l) with (skipn 4 (skipn 4 (skipn 8 l)))
    by (rewrite !skipn_skipn; reflexivity).
  replace (skipn 12 l) with (skipn 4 (skipn 8 l))
    by (rewrite !skipn_skipn; reflexivity).
  rewrite !firstn_skipn. reflexivity.
Qed.

(** The digits of a UUID are its text without the dashes. *)
Lemma uuid_str_digits int :
  List.filter (fun c => negb (c =? 45)) (uuid_str int) = hex_digits 32 int.
Proof.
  unfold uuid_str. cbv zeta. change (lit "-") with [45].
  rewrite !List.filter_app. cbn [List.filter]. change (45 =? 45) with true.
  cbn [negb app]. rewrite <- !List.filter_app, uuid_groups.
  apply hex_digits_no_dash.
Qed.

Lemma uuid_str_inj a b :
  a < 2 ^ 128 -> b < 2 ^ 128 -> uuid_str a = uuid_str b -> a = b.
Proof.
  intros Ha Hb H.
  apply (f_equal (List.filter (fun c => negb (c =? 45)))) in H.
  rewrite !uuid_str_digits in H. apply hex_digits_inj in H.
  change (16 ^ N.of_nat 32) with (2 ^ 128) in H.
  rewrite !N.mod_small in H by assumption. exact H.
Qed.

Lemma uuid_str_length int : length (uuid_str int) = 36%nat.
Proof.
  unfold uuid_str. cbv zeta. change (lit "-") with [45].
  rewrite !length_app, !length_firstn, !length_skipn, !hex_digits_length.
  reflexivity.
Qed.

Lemma uuid_str_ascii int : is_ascii (uuid_str int).
Proof.
  unfold uuid_str. cbv zeta. change (lit "-") with [45].
  pose proof (hex_digits_ascii 32 int) as H.
  assert (Hf : forall n l, is_ascii l -> is_ascii (firstn n l))
    by (intros; apply Forall_take; assumption).
  assert (Hs : forall n l, is_ascii l -> is_ascii (skipn n l))
    by (intros; apply Forall_drop; assumption).
  assert (Hd : is_ascii [45]) by (ascii_literal).
  repeat apply is_ascii_app; auto.
Qed.

(** Distinct draws of [uuid4] give distinct identifiers. *)
Lemma str_uuid4_inj r1 r2 :
  str_uuid4 r1 = str_uuid4 r2 -> uuid4_int r1 = uuid4_int r2.
Proof. apply uuid_str_inj; apply uuid4_int_range. Qed.

Lemma is_ascii_str_ok s : is_ascii s -> str_ok s.
Proof.
  unfold is_ascii, str_ok. apply List.Forall_impl. intros c Hc.
  unfold is_scalar, is_surrogate. apply andb_true_iff. split.
  - apply N.ltb_lt. lia.
  - apply negb_true_iff, andb_false_iff. left. apply N.leb_gt. lia.
Qed.

(** ** Decoded text holds scalar values *)

Lemma small_is_scalar c : c < 0x80 -> is_scalar c = true.
Proof.
  intros H. unfold is_scalar, is_surrogate. apply andb_true_iff. split.
  - apply N.ltb_lt. lia.
  - apply negb_true_iff, andb_false_iff. left. apply N.leb_gt. lia.
Qed.

Lemma bytes_decode_N_ok n : forall b s,
  (length b <= n)%nat -> bytes_decode_N b = Ok s -> str_ok s.
Proof.
  induction n as [|n IH]; intros b s Hlen H.
  { destruct b; [|cbn [length] in Hlen; lia]. inversion H. constructor. }
  destruct b as [|b0 r0]; [inversion H; constructor|].
  cbn [length] in Hlen. cbn [bytes_decode_N] in H.
  destruct (b0 <? 0x80) eqn:E0.
  { destruct (bytes_decode_N r0) as [t|] eqn:Er; [|discriminate].
    inversion H; subst. constructor.
    - apply small_is_scalar, N.ltb_lt, E0.
    - apply (IH r0); [lia|exact Er]. }
  destruct ((0xC0 <=? b0) && (b0 <? 0xE0)).
  { destruct r0 as [|b1 r1]; [discriminate|]. cbn [length] in Hlen.
    match type of H with (if ?c then _ else _) = _ => destruct c eqn:Ec end;
      [|discriminate].
    apply andb_true_iff in Ec as [_ Ec].
    destruct (bytes_decode_N r1) as [t|] eqn:Er; [|discriminate].
    inversion H; subst. constructor; [exact Ec|]. apply (IH r1); [lia|exact Er]. }
  destruct ((0xE0 <=? b0) && (b0 <? 0xF0)).
  { destruct r0 as [|b1 [|b2 r2]]; try discriminate. cbn [length] in Hlen.
    match type of H with (if ?c then _ else _) = _ => destruct c eqn:Ec end;
      [|discriminate].
    apply andb_true_iff in Ec as [_ Ec].
    destruct (bytes_decode_N r2) as [t|] eqn:Er; [|discriminate].
    inversion H; subst. constructor; [exact Ec|]. apply (IH r2); [lia|exact Er]. }
  destruct ((0xF0 <=? b0) && (b0 <? 0xF8)); [|discriminate].
  destruct r0 as [|b1 [|b2 [|b3 r3]]]; try discriminate. cbn [length] in Hlen.
  match type of H with (if ?c then _ else _) = _ => destruct c eqn:Ec end;
    [|discriminate].
  apply andb_true_iff in Ec as [_ Ec].
  destruct (bytes_decode_N r3) as [t|] eqn:Er; [|discriminate].
  inversion H; subst. constructor; [exact Ec|]. apply (IH r3); [lia|exact Er].
Qed.

Lemma bytes_decode_ok b s : bytes_decode b = Ok s -> str_ok s.
Proof. unfold bytes_decode. apply (bytes_decode_N_ok _ _ _ (le_n _)). Qed.

Section Characters.

(** A property of characters that the text handed to the [csv] module
    has. *)
Variable P : N -> Prop.

Lemma splitlines_from_keeps n : forall s cur,
  (length s <= n)%nat -> Forall P cur -> Forall P s ->
  Forall (Forall P) (splitlines_from cur s).
Proof.
  induction n as [|n IH]; intros s cur Hlen Hcur Hs.
  { destruct s; [|cbn [length] in Hlen; lia]. cbn [splitlines_from].
    destruct cur; repeat constructor; inversion Hcur; assumption. }
  destruct s as [|c s']; cbn [splitlines_from].
  { destruct cur; repeat constructor; inversion Hcur; assumption. }
  cbn [length] in Hlen. inversion Hs as [|? ? Hc Hs']; subst.
  destruct (is_linebreak c).
  - destruct s' as [|c2 s'']; [repeat constructor; exact Hcur|].
    cbn [length] in Hlen. inversion Hs' as [|? ? Hc2 Hs'']; subst.
    destruct ((c =? 13) && (c2 =? 10)); constructor; try exact Hcur;
      apply IH; try constructor; auto; cbn [length]; lia.
  - apply IH; [lia| |exact Hs'].
    apply Forall_app_2; [exact Hcur|repeat constructor; exact Hc].
Qed.

Lemma str_splitlines_keeps s : Forall P s -> Forall (Forall P) (str_splitlines s).
Proof. intros H. apply (splitlines_from_keeps (length s)); auto. Qed.

End Characters.

Create HintDb reader.

Section Reader.

Variable P : N -> Prop.

Lemma set_state_keeps self st : reader_keeps P self -> reader_keeps P (set_state self st).
Proof. intros H. exact H. Qed.

Lemma parse_save_field_keeps self :
  reader_keeps P self -> reader_keeps P (parse_save_field self).
Proof.
  intros [Hfs Hf]. split; cbn [fields field parse_save_field]; [|constructor].
  apply Forall_app_2; [exact Hfs|repeat constructor; exact Hf].
Qed.

Lemma parse_add_char_keeps self c self' :
  reader_keeps P self -> P c -> parse_add_char self c = Ok self' ->
  reader_keeps P self'.
Proof.
  intros [Hfs Hf] Hc. unfold parse_add_char.
  destruct (field_limit <=? _); [discriminate|]. intros H. inversion H; subst.
  split; cbn [fields field]; [exact Hfs|].
  apply Forall_app_2; [exact Hf|repeat constructor; exact Hc].
Qed.

#[local] Hint Resolve set_state_keeps parse_save_field_keeps : reader.

Lemma add_then_state_keeps self c st self' :
  reader_keeps P self -> P c ->
  (let* r := parse_add_char self c in Ok (set_state r st))%R = Ok self' ->
  reader_keeps P self'.
Proof.
  intros Hs Hc H. destruct (parse_add_char self c) as [r|] eqn:E; [|discriminate].
  inversion H; subst. apply set_state_keeps. eapply parse_add_char_keeps; eauto.
Qed.

Lemma start_field_keeps self c self' :
  reader_keeps P self -> (forall ch, c = Some ch -> P ch) ->
  start_field self c = Ok self' -> reader_keeps P self'.
Proof.
  intros Hs Hc. unfold start_field. destruct c as [ch|].
  - specialize (Hc ch eq_refl).
    destruct (is_newline ch); [intros H; inversion H; auto with reader|].
    destruct (ch =? quotechar); [intros H; inversion H; auto with reader|].
    destruct (ch =? delimiter); [intros H; inversion H; auto with reader|].
    apply add_then_state_keeps; assumption.
  - intros H; inversion H; auto with reader.
Qed.

Lemma parse_process_char_keeps self c self' :
  reader_keeps P self -> (forall ch, c = Some ch -> P ch) ->
  parse_process_char self c = Ok self' -> reader_keeps P self'.
Proof.
  intros Hs Hc. unfold parse_process_char.
  destruct (state self); destruct c as [ch|];
    try specialize (Hc ch eq_refl);
    repeat match goal with
           | |- context [if ?b then _ else _] => destruct b
           end;
    try (intros H; inversion H; subst; auto with reader; fail);
    try (apply add_then_state_keeps; assumption);
    try (apply parse_add_char_keeps; assumption);
    try (apply start_field_keeps; auto with reader; intros ? [= <-]; assumption).
Qed.

Lemma feed_chars_keeps line : forall self self',
  reader_keeps P self -> Forall P line ->
  feed_chars self line = Ok self' -> reader_keeps P self'.
Proof.
  induction line as [|c line IH]; intros self self' Hs Hl; cbn [feed_chars].
  - intros H; inversion H; subst; exact Hs.
  - inversion Hl as [|? ? Hc Hl']; subst.
    destruct (parse_process_char self (Some c)) as [r|] eqn:E; [|discriminate].
    cbn [rbind]. apply IH; [|exact Hl'].
    eapply parse_process_char_keeps; [exact Hs| |exact E]. intros ? [= <-]. exact Hc.
Qed.

Lemma feed_line_keeps self line self' :
  reader_keeps P self -> Forall P line ->
  feed_line self line = Ok self' -> reader_keeps P self'.
Proof.
  intros Hs Hl. unfold feed_line.
  destruct (feed_chars self line) as [r|] eqn:E; [|discriminate]. cbn [rbind].
  apply parse_process_char_keeps; [|discriminate].
  eapply feed_chars_keeps; eauto.
Qed.

Lemma read_rows_keeps lines : forall self rows,
  reader_keeps P self -> Forall (Forall P) lines ->
  read_rows self lines = Ok rows -> Forall (Forall (Forall P)) rows.
Proof.
  induction lines as [|line lines IH]; intros self rows Hs Hl; cbn [read_rows].
  - pose proof (parse_save_field_keeps _ Hs) as [Hsave _].
    destruct (field self); destruct (state self); intros H; inversion H; subst;
      repeat constructor; exact Hsave.
  - inversion Hl as [|? ? Hline Hl']; subst.
    destruct (feed_line self line) as [r|] eqn:E; [|discriminate]. cbn [rbind].
    pose proof (feed_line_keeps _ _ _ Hs Hline E) as Hr.
    destruct (state r); try (apply IH; assumption).
    destruct (read_rows parse_reset lines) as [rs|] eqn:Er; [|discriminate].
    cbn [rbind]. intros H; inversion H; subst. constructor; [apply Hr|].
    apply (IH parse_reset); [split; constructor|exact Hl'|exact Er].
Qed.

Lemma csv_reader_keeps lines rows :
  Forall (Forall P) lines -> csv_reader lines = Ok rows ->
  Forall (Forall (Forall P)) rows.
Proof. apply read_rows_keeps. split; constructor. Qed.

End Reader.

(** The cells of the table read from a decoded body hold scalar values. *)
Lemma csv_table_ok text rows :
  str_ok text -> csv_table text = Ok rows -> Forall (Forall str_ok) rows.
Proof.
  intros Ht. apply csv_reader_keeps. apply str_splitlines_keeps. exact Ht.
Qed.

(** ** Rows and records are well formed *)

Section Entries.

(** A property [K] of keys and a property [V] of values that the keys and
    values a row is made of have; [Q] is the property of the cells and
    field names they come from. *)
Variable Q : pystr -> Prop.
Variable K : pykey -> Prop.
Variable V : pyval -> Prop.
Hypothesis K_name : forall s, Q s -> K (Some s).
Hypothesis K_rest : K None.
Hypothesis V_cell : forall s, Q s -> V (PStr s).
Hypothesis V_missing : V PNone.
Hypothesis V_rest : forall cells, Forall Q cells -> V (PList (map PStr cells)).

Lemma dict_set_all d k v :
  dict_all K V d -> K k -> V v -> dict_all K V (dict_set d k v).
Proof.
  intros Hd Hk Hv. induction Hd as [|[k' v'] d [Hk' Hv'] Hd IH]; cbn [dict_set].
  - repeat constructor; assumption.
  - destruct (decide (k' = k)); constructor; try assumption; split; assumption.
Qed.

Lemma fold_dict_set_all {A} (f : A -> pykey * pyval) (l : list A) d :
  dict_all K V d ->
  Forall (fun a => K (fst (f a)) /\ V (snd (f a))) l ->
  dict_all K V (fold_left (fun d a => dict_set d (fst (f a)) (snd (f a))) l d).
Proof.
  intros Hd Hl. revert d Hd. induction Hl as [|a l [Hk Hv] Hl IH]; intros d Hd;
    cbn [fold_left]; [exact Hd|].
  apply IH. apply dict_set_all; assumption.
Qed.

Lemma DictReader_row_all fieldnames row :
  Forall Q fieldnames -> Forall Q row ->
  dict_all K V (DictReader_row fieldnames row).
Proof.
  intros Hf Hr. unfold DictReader_row.
  assert (Hzip : dict_all K V
                   (dict_of_pairs (combine (map Some fieldnames) (map PStr row)))).
  { apply (fold_dict_set_all (fun kv => kv)); [constructor|].
    clear -Hf Hr K_name V_cell. revert row Hr.
    induction Hf as [|f fs Hf0 Hfs IH]; intros row Hr; [constructor|].
    destruct Hr as [|c row Hc Hr]; cbn [map combine]; constructor.
    - split; [apply K_name; exact Hf0|apply V_cell; exact Hc].
    - apply IH. exact Hr. }
  destruct (Nat.ltb _ _).
  { apply dict_set_all; [exact Hzip|exact K_rest|].
    apply V_rest. apply Forall_drop. exact Hr. }
  destruct (Nat.ltb _ _); [|exact Hzip].
  apply (fold_dict_set_all (fun key => (Some key, PNone))); [exact Hzip|].
  apply Forall_drop with (n := length row) in Hf.
  induction Hf; constructor; [split; cbn [fst snd]|]; auto.
Qed.

Hypothesis V_id : forall random, V (PStr (str_uuid4 random)).
Hypothesis K_id : K (Some (lit "id")).

Lemma with_ids_all urandom rows : forall n,
  Forall (dict_all K V) rows ->
  Forall (fun r => exists d, r = PDict d /\ dict_all K V d)
    (UrlParser.with_ids urandom n rows).
Proof.
  induction rows as [|row rows IH]; intros n Hr; cbn [UrlParser.with_ids];
    [constructor|].
  inversion Hr; subst. constructor; [|apply IH; assumption].
  eexists. split; [reflexivity|]. apply dict_set_all; auto.
Qed.

Lemma written_records_all urandom header rows :
  Forall (Forall Q) (header :: rows) ->
  Forall (fun r => exists d, r = PDict d /\ dict_all K V d)
    (written_records urandom header rows).
Proof.
  intros Hrows. inversion Hrows as [|? ? Hh Hr]; subst.
  apply with_ids_all. unfold data_rows. clear Hrows.
  induction Hr as [|row rows Hrow Hr IH]; cbn [List.filter map]; [constructor|].
  destruct (negb (is_blank_row row)); [|exact IH].
  cbn [map]. constructor; [|exact IH]. apply DictReader_row_all; assumption.
Qed.

End Entries.

Lemma null_ok : str_ok (lit "null").
Proof. apply is_ascii_str_ok. ascii_literal. Qed.

Lemma str_uuid4_ok random : str_ok (str_uuid4 random).
Proof. apply is_ascii_str_ok, uuid_str_ascii. Qed.

Lemma id_ok : str_ok (lit "id").
Proof. apply is_ascii_str_ok. ascii_literal. Qed.

(** The records written for a decoded body can be read back. *)
Lemma written_records_ok text header rows urandom :
  str_ok text -> csv_table text = Ok (header :: rows) ->
  val_ok (PList (written_records urandom header rows)).
Proof.
  intros Ht Htab. constructor.
  eapply List.Forall_impl;
    [|apply (written_records_all str_ok (fun k => str_ok (key_text k)) val_ok)].
  - intros r (d & -> & Hd). constructor. exact Hd.
  - intros s Hs. exact Hs.
  - exact null_ok.
  - intros s Hs. constructor. exact Hs.
  - constructor.
  - intros cells Hc. constructor.
    induction Hc; cbn [map]; constructor; [constructor|]; assumption.
  - intros random. constructor. apply str_uuid4_ok.
  - exact id_ok.
  - apply (csv_table_ok _ _ Ht Htab).
Qed.

(** Their fields are strings, [None] or lists of strings: no object inside
    an object. *)
Lemma written_records_flat header rows urandom :
  Forall (fun r => exists d, r = PDict d /\ Forall (fun kv => distinct_keys (snd kv)) d)
    (written_records urandom header rows).
Proof.
  eapply List.Forall_impl;
    [|apply (written_records_all (fun _ => True) (fun _ => True) distinct_keys)].
  - intros r (d & -> & Hd). exists d. split; [reflexivity|].
    eapply List.Forall_impl; [|exact Hd]. intros kv [_ H]. exact H.
  - constructor.
  - constructor.
  - constructor.
  - constructor.
  - intros cells _. constructor. induction cells; cbn [map]; constructor;
      [constructor|assumption].
  - constructor.
  - constructor.
  - clear. assert (H : forall l : list (list pystr), Forall (Forall (fun _ => True)) l).
    { induction l as [|x l IH]; constructor; [|exact IH].
      induction x; constructor; auto. }
    apply H.
Qed.

(** ** What is read back of a record *)

Lemma dict_get_app d1 d2 k :
  dict_get (d1 ++ d2) k =
  match dict_get d1 k with Some v => Some v | None => dict_get d2 k end.
Proof.
  induction d1 as [|[k' v'] d1 IH]; cbn [app dict_get]; [reflexivity|].
  destruct (decide (k' = k)); [reflexivity|exact IH].
Qed.

(** In [dict(pairs)] a key has the value of its last pair. *)
Lemma dict_get_fold pairs : forall d k,
  dict_get (fold_left (fun d kv => dict_set d (fst kv) (snd kv)) pairs d) k =
  match dict_get (rev pairs) k with Some v => Some v | None => dict_get d k end.
Proof.
  induction pairs as [|[k' v'] pairs IH]; intros d k; cbn [fold_left rev fst snd];
    [reflexivity|].
  rewrite IH, dict_get_app. destruct (dict_get (rev pairs) k); [reflexivity|].
  cbn [dict_get]. destruct (decide (k' = k)) as [->|Hne].
  - apply dict_get_set_same.
  - apply dict_get_set_other. exact Hne.
Qed.

Lemma dict_get_of_pairs pairs k :
  dict_get (dict_of_pairs pairs) k = dict_get (rev pairs) k.
Proof.
  unfold dict_of_pairs. rewrite dict_get_fold.
  destruct (dict_get (rev pairs) k); reflexivity.
Qed.

(** The [id] of a record read back is the [id] written. *)
Lemma loaded_record_id d :
  List.NoDup (map fst d) ->
  record_id (loaded (PDict d)) = option_map loaded (dict_get d (Some (lit "id"))).
Proof.
  intros Hnd. rewrite loaded_dict. cbn [record_id]. rewrite dict_get_of_pairs.
  induction d as [|[k x] d IH]; [reflexivity|].
  inversion Hnd as [|? ? Hk Hd]; subst. specialize (IH Hd).
  cbn [map rev fst snd]. rewrite dict_get_app, IH. cbn [dict_get].
  destruct (decide (k = Some (lit "id"))) as [->|Hne].
  - apply dict_get_None in Hk. rewrite Hk. cbn [option_map key_text].
    rewrite decide_True by reflexivity. reflexivity.
  - destruct (option_map loaded (dict_get d (Some (lit "id")))); [reflexivity|].
    rewrite decide_False; [reflexivity|].
    intros [= E]. apply Hne. apply key_text_id. exact E.
Qed.

Lemma dict_set_absent d k v :
  ~ In k (map fst d) -> dict_set d k v = d ++ [(k, v)].
Proof.
  induction d as [|[k' v'] d IH]; cbn [dict_set map fst In app]; [reflexivity|].
  intros H. destruct (decide (k' = k)); [tauto|]. rewrite IH; tauto.
Qed.

Lemma fold_dict_set_distinct pairs : forall d,
  List.NoDup (map fst (d ++ pairs)) ->
  fold_left (fun d kv => dict_set d (fst kv) (snd kv)) pairs d = d ++ pairs.
Proof.
  induction pairs as [|[k v] pairs IH]; intros d Hnd; cbn [fold_left fst snd].
  - rewrite app_nil_r. reflexivity.
  - assert (Hk : ~ In k (map fst d)).
    { rewrite map_app in Hnd. cbn [map fst] in Hnd.
      apply NoDup_remove_2 in Hnd. rewrite in_app_iff in Hnd. tauto. }
    rewrite dict_set_absent by exact Hk. rewrite IH; rewrite <- app_assoc; [reflexivity|].
    exact Hnd.
Qed.

Lemma dict_of_pairs_distinct pairs :
  List.NoDup (map fst pairs) -> dict_of_pairs pairs = pairs.
Proof. intros H. apply (fold_dict_set_distinct pairs []). exact H. Qed.

Lemma NoDup_map_Some {A B} (f : A -> B) (l : list A) :
  List.NoDup (map f l) -> List.NoDup (map (fun x => Some (f x)) l).
Proof.
  induction l as [|x l IH]; cbn [map]; intros H; [constructor|].
  inversion H as [|? ? Hx Hl]; subst. constructor; [|apply IH; exact Hl].
  rewrite in_map_iff. intros (y & [= E] & Hy). apply Hx.
  rewrite in_map_iff. exists y. split; assumption.
Qed.

(** When no object has two fields of the same name, the text written for the
    value read back is the text written in the first place. *)
Lemma json_dumps_loaded v : distinct_keys v -> json_dumps (loaded v) = json_dumps v.
Proof.
  induction v as [| b | s | l IH | d IH] using pyval_nested_ind; intros Hdk;
    try reflexivity.
  - inversion Hdk as [| | |? Hl|]; subst.
    change (loaded (PList l)) with (PList (map loaded l)).
    rewrite !json_dumps_list, map_map.
    replace (map (fun x => json_dumps (loaded x)) l) with (map json_dumps l);
      [reflexivity|].
    clear Hdk. induction IH as [|x l Hx _ IHl]; [reflexivity|].
    inversion Hl; subst. cbn [map]. f_equal; [symmetry|]; auto.
  - inversion Hdk as [| | | |? Hnd Hd]; subst.
    rewrite loaded_dict, dict_of_pairs_distinct.
    2:{ rewrite map_map. cbn [fst].
        apply (NoDup_map_Some (fun kv => key_text (fst kv))). exact Hnd. }
    rewrite !json_dumps_dict, map_map. cbn [fst snd key_text].
    replace (map (fun x => encode_basestring_ascii (key_text (fst x)) ++ lit ": "
                           ++ json_dumps (loaded (snd x))) d)
      with (map (fun kv => encode_basestring_ascii (key_text (fst kv)) ++ lit ": "
                           ++ json_dumps (snd kv)) d); [reflexivity|].
    clear Hnd Hdk. induction IH as [|[k x] d Hx _ IHd]; [reflexivity|].
    inversion Hd; subst. cbn [map fst snd] in *. f_equal; [|auto].
    do 2 f_equal. symmetry. auto.
Qed.

(** * Properties of the query handler *)

Lemma py_eq_str x s :
  py_eq x (PStr s) = match x with PStr t => bool_decide (t = s) | _ => false end.
Proof. destruct x; reflexivity. Qed.

Lemma has_id_truthy r : has_id r = true -> truthy r = true.
Proof.
  unfold has_id, record_id. destruct r as [| | |l|d]; try discriminate.
  destruct d; [discriminate|reflexivity].
Qed.

Lemma next_match_found records s r :
  Forall (fun x => has_id x = true) records ->
  first_with_id s records = Some r ->
  JsonEndpoint.next_match records (PStr s) = Ok r.
Proof.
  unfold first_with_id. induction 1 as [|x records Hx _ IH]; simpl; [discriminate|].
  unfold id_is, has_id in *. unfold py_getitem.
  destruct x as [| | |l|d]; simpl in *; try discriminate.
  destruct (dict_get d (Some (lit "id"))) as [v|]; [|discriminate]. simpl.
  rewrite py_eq_str. destruct v; auto.
  destruct (bool_decide (s0 = s)); [congruence|auto].
Qed.

Lemma next_match_missing records s :
  Forall (fun x => has_id x = true) records ->
  first_with_id s records = None ->
  JsonEndpoint.next_match records (PStr s) = Ok PNone.
Proof.
  unfold first_with_id. induction 1 as [|x records Hx _ IH]; simpl; [reflexivity|].
  unfold id_is, has_id in *. unfold py_getitem.
  destruct x as [| | |l|d]; simpl in *; try discriminate.
  destruct (dict_get d (Some (lit "id"))) as [v|]; [|discriminate]. simpl.
  rewrite py_eq_str. destruct v; auto.
  destruct (bool_decide (s0 = s)); [discriminate|auto].
Qed.

Lemma first_with_id_In s records r :
  first_with_id s records = Some r -> In r records /\ id_is s r = true.
Proof. apply find_some. Qed.

Lemma random_choice_list random records :
  records <> [] ->
  exists r, In r records /\ random_choice random (PList records) = Ok r.
Proof.
  intros Hne. unfold random_choice. simpl.
  destruct (length records) as [|n] eqn:Hlen.
  { destruct records; [congruence|discriminate]. }
  rewrite <- Hlen.
  assert (Hlt : (N.to_nat (random mod N.of_nat (length records)) < length records)%nat).
  { assert (H : N.of_nat (length records) <> 0) by lia.
    pose proof (N.mod_lt random _ H). lia. }
  destruct (nth_error records _) as [r|] eqn:Hn.
  - exists r. split; [eapply nth_error_In; eauto|reflexivity].
  - apply nth_error_None in Hn. lia.
Qed.

Lemma next_match_key_error before r after item_id :
  Forall (fun x => exists v, record_id x = Some v /\ py_eq v item_id = false) before ->
  (exists d, r = PDict d) ->
  record_id r = None ->
  JsonEndpoint.next_match (before ++ r :: after) item_id = Raise KeyError.
Proof.
  intros Hb [d ->] Hr. induction Hb as [|x before (v & Hv & Hne) _ IH]; simpl.
  - simpl in Hr. unfold py_getitem. rewrite Hr. reflexivity.
  - destruct x as [| | |l|dx]; simpl in Hv; try discriminate.
    unfold py_getitem. rewrite Hv. simpl. rewrite Hne. exact IH.
Qed.

Lemma next_match_total records item_id :
  record_set records ->
  exists item, JsonEndpoint.next_match records item_id = Ok item.
Proof.
  induction 1 as [|x records Hx _ [item IH]]; simpl; [eauto|].
  unfold has_id in Hx. destruct x as [| | |l|dx]; simpl in Hx; try discriminate.
  unfold py_getitem. destruct (dict_get dx _) as [v|]; [|discriminate]. simpl.
  destruct (py_eq v item_id); eauto.
Qed.

Section Query.

Variable env : environ.
Variable s3 : s3_state.

(** The handler as a function of the persisted Record Set: it answers with
    the Record found by [id] when there is one, else with a random one, and
    leaves S3 as it is. *)
Lemma query_run random event context :
  JsonEndpoint.lambda_handler env random event context s3 =
  (match persisted env s3 with
   | Raise e => Raise e
   | Ok json_data =>
       (let* item_id := id_parameter event in
        let fallback := random_selection random json_data in
        if truthy item_id then
          let* item := (let* objs := py_iter json_data in
                        JsonEndpoint.next_match objs item_id) in
          if truthy item then Ok (JsonEndpoint.json_response item) else fallback
        else fallback)%R
   end, s3).
Proof.
  unfold JsonEndpoint.lambda_handler, persisted, id_parameter, random_selection,
    bind, lift, ret, get_object.
  destruct (s3 !! S3_BUCKET_NAME env) as [objects|]; [|reflexivity].
  destruct (objects !! JSON_KEY env) as [o|]; [|reflexivity].
  destruct (bytes_decode (Body o)) as [text|]; [|reflexivity]. simpl.
  destruct (json_loads text) as [json_data|]; [|reflexivity].
  destruct (py_getitem event _) as [params|]; [|reflexivity]. simpl.
  destruct (py_get _ _) as [item_id|]; [|reflexivity]. simpl.
  destruct (truthy item_id).
  - destruct (py_iter json_data) as [objs|]; [|reflexivity]. simpl.
    destruct (JsonEndpoint.next_match objs item_id) as [item|]; [|reflexivity].
    simpl. destruct (truthy item); [reflexivity|].
    destruct (random_choice random json_data); reflexivity.
  - destruct (random_choice random json_data); reflexivity.
Qed.

(** Whatever the request, a response of the handler has status 200. *)
Lemma query_status_200 random event context r :
  fst (JsonEndpoint.lambda_handler env random event context s3) = Ok r ->
  statusCode r = 200.
Proof.
  rewrite query_run. cbn [fst]. unfold random_selection.
  destruct (persisted env s3) as [json_data|]; [|discriminate].
  destruct (id_parameter event) as [item_id|]; [|discriminate]. cbn [rbind].
  destruct (truthy item_id).
  - destruct (let* objs := py_iter json_data in
              JsonEndpoint.next_match objs item_id)%R as [item|]; [|discriminate].
    cbn [rbind]. destruct (truthy item); [intros [= <-]; reflexivity|].
    destruct (random_choice random json_data); [|discriminate].
    intros [= <-]. reflexivity.
  - destruct (random_choice random json_data); [|discriminate].
    intros [= <-]. reflexivity.
Qed.

(** C2. Over a Record Set, a request whose [id] parameter is a non-empty
    string equal to the [id] of some Record is answered with status 200,
    the JSON encoding of the first such Record in array order as body, and
    the header [Content-Type: application/json]. *)
Theorem query_by_id_returns_first_match random event context records s r :
  persisted env s3 = Ok (PList records) ->
  record_set records ->
  id_parameter event = Ok (PStr s) ->
  s <> [] ->
  first_with_id s records = Some r ->
  JsonEndpoint.lambda_handler env random event context s3 =
  (Ok {| statusCode := 200;
         body := json_dumps r;
         headers := Some [(lit "Content-Type", lit "application/json")] |}, s3).
Proof.
  intros Hp Hrs Hid Hne Hfirst.
  rewrite query_run, Hp, Hid. simpl.
  destruct s as [|c s']; [congruence|]. simpl.
  rewrite (next_match_found _ _ _ Hrs Hfirst). simpl.
  apply first_with_id_In in Hfirst as [Hin _].
  unfold record_set in Hrs. rewrite List.Forall_forall in Hrs.
  rewrite (has_id_truthy _ (Hrs _ Hin)). reflexivity.
Qed.

(** C3. Over a non-empty Record Set, a request whose [id] parameter is
    absent, empty, or equal to no Record's [id] is answered with status 200
    and the JSON encoding of some Record of the set; no request at all is
    answered with status 404. *)
Theorem query_without_match_returns_some_record random event context records item_id :
  persisted env s3 = Ok (PList records) ->
  record_set records ->
  records <> [] ->
  id_parameter event = Ok item_id ->
  item_id = PNone \/ item_id = PStr [] \/
    (exists s, item_id = PStr s /\ first_with_id s records = None) ->
  (exists r, In r records /\
     JsonEndpoint.lambda_handler env random event context s3 =
     (Ok {| statusCode := 200;
            body := json_dumps r;
            headers := Some [(lit "Content-Type", lit "application/json")] |}, s3))
  /\ (forall random' event' context' response,
        fst (JsonEndpoint.lambda_handler env random' event' context' s3) = Ok response ->
        statusCode response <> 404).
Proof.
  intros Hp Hrs Hne Hid Hcase. split.
  2:{ intros random' event' context' response H.
      rewrite (query_status_200 _ _ _ _ H). discriminate. }
  destruct (random_choice_list random records Hne) as (r & Hin & Hr).
  exists r. split; [exact Hin|].
  rewrite query_run, Hp, Hid. unfold random_selection. simpl.
  destruct Hcase as [-> | [-> | (s & -> & Hnone)]]; simpl.
  - rewrite Hr. reflexivity.
  - rewrite Hr. reflexivity.
  - rewrite (next_match_missing _ _ Hrs Hnone). simpl.
    destruct (negb _); rewrite Hr; reflexivity.
Qed.

(** C4. Over an empty Record Set every request ends in an exception, never
    in a response; when the [id] parameter can be read at all, the exception
    is the [IndexError] of the random selection. *)
Theorem query_on_empty_set_fails random event context :
  persisted env s3 = Ok (PList []) ->
  exists e,
    fst (JsonEndpoint.lambda_handler env random event context s3) = Raise e /\
    (forall item_id, id_parameter event = Ok item_id -> e = IndexError).
Proof.
  intros Hp. rewrite query_run, Hp. simpl.
  destruct (id_parameter event) as [item_id|e].
  - exists IndexError. split; [|reflexivity]. simpl.
    destruct (truthy item_id); reflexivity.
  - exists e. split; [reflexivity|discriminate].
Qed.

(** C9. With a non-empty [id] parameter the lookup reads the [id] of every
    Record it scans: when a Record without an [id] key comes before any
    match, the handler fails with [KeyError] and does not fall back to the
    random selection; over a Record Set, where every Record has the key,
    the lookup always returns. *)
Theorem lookup_needs_id_on_scanned_records
  random event context item_id before r after :
  persisted env s3 = Ok (PList (before ++ r :: after)) ->
  id_parameter event = Ok item_id ->
  truthy item_id = true ->
  Forall (fun x => exists v, record_id x = Some v /\ py_eq v item_id = false) before ->
  (exists d, r = PDict d) ->
  record_id r = None ->
  fst (JsonEndpoint.lambda_handler env random event context s3) = Raise KeyError
  /\ (forall records, record_set records ->
        exists item, JsonEndpoint.next_match records item_id = Ok item).
Proof.
  intros Hp Hid Ht Hb Hd Hr. split.
  - rewrite query_run, Hp, Hid. simpl. rewrite Ht.
    rewrite (next_match_key_error _ _ _ _ Hb Hd Hr). reflexivity.
  - intros records. apply next_match_total.
Qed.

(** C10. An event without the key [queryStringParameters] makes the
    invocation fail with [KeyError]; an event where the key holds [null] is
    answered by random selection, exactly as one whose parameters hold no
    [id]. *)
Theorem query_string_parameters_key random context json_data d :
  persisted env s3 = Ok json_data ->
  (dict_get d (Some (lit "queryStringParameters")) = None ->
   fst (JsonEndpoint.lambda_handler env random (PDict d) context s3) = Raise KeyError)
  /\ (dict_get d (Some (lit "queryStringParameters")) = Some PNone ->
      JsonEndpoint.lambda_handler env random (PDict d) context s3 =
      (random_selection random json_data, s3))
  /\ (forall params,
        dict_get d (Some (lit "queryStringParameters")) = Some (PDict params) ->
        dict_get params (Some (lit "id")) = None ->
        JsonEndpoint.lambda_handler env random (PDict d) context s3 =
        (random_selection random json_data, s3)).
Proof.
  intros Hp. repeat split.
  - intros Hd. rewrite query_run, Hp. unfold id_parameter, py_getitem.
    rewrite Hd. reflexivity.
  - intros Hd. rewrite query_run, Hp. unfold id_parameter, py_getitem.
    rewrite Hd. reflexivity.
  - intros params Hd Hn. rewrite query_run, Hp. unfold id_parameter, py_getitem.
    rewrite Hd. simpl. unfold py_or, py_get.
    destruct (truthy (PDict params)); simpl; [rewrite Hn|]; reflexivity.
Qed.

End Query.

Lemma query_by_id_returns_first_match_witness :
  JsonEndpoint.lambda_handler demo_env 0 (request_id "b2") PNone
    (s3_holding (PList demo_records)) =
  (Ok {| statusCode := 200;
         body := json_dumps (fruit "apple" "b2");
         headers := Some [(lit "Content-Type", lit "application/json")] |},
   s3_holding (PList demo_records)).
Proof.
  apply (query_by_id_returns_first_match demo_env
           (s3_holding (PList demo_records)) 0 (request_id "b2") PNone
           demo_records (lit "b2") (fruit "apple" "b2")).
  - vm_compute. reflexivity.
  - repeat constructor.
  - reflexivity.
  - discriminate.
  - vm_compute. reflexivity.
Defined.

Lemma query_without_match_returns_some_record_witness :
  (exists r, In r demo_records /\
     JsonEndpoint.lambda_handler demo_env 7 (request_id "zz") PNone
       (s3_holding (PList demo_records)) =
     (Ok {| statusCode := 200;
            body := json_dumps r;
            headers := Some [(lit "Content-Type", lit "application/json")] |},
      s3_holding (PList demo_records)))
  /\ (forall random' event' context' response,
        fst (JsonEndpoint.lambda_handler demo_env random' event' context'
               (s3_holding (PList demo_records))) = Ok response ->
        statusCode response <> 404).
Proof.
  apply (query_without_match_returns_some_record demo_env
           (s3_holding (PList demo_records)) 7 (request_id "zz") PNone
           demo_records (PStr (lit "zz"))).
  - vm_compute. reflexivity.
  - repeat constructor.
  - discriminate.
  - reflexivity.
  - right. right. exists (lit "zz"). split; [reflexivity|vm_compute; reflexivity].
Defined.

Lemma query_on_empty_set_fails_witness :
  exists e,
    fst (JsonEndpoint.lambda_handler demo_env 7 (request_id "a1") PNone
           (s3_holding (PList []))) = Raise e /\
    (forall item_id, id_parameter (request_id "a1") = Ok item_id -> e = IndexError).
Proof.
  apply (query_on_empty_set_fails demo_env (s3_holding (PList [])) 7
           (request_id "a1") PNone).
  vm_compute. reflexivity.
Defined.

Lemma lookup_needs_id_on_scanned_records_witness :
  fst (JsonEndpoint.lambda_handler demo_env 7 (request_id "b2") PNone
         (s3_holding (PList [fruit "lemon" "a1"; nameless; fruit "apple" "b2"])))
  = Raise KeyError
  /\ (forall records, record_set records ->
        exists item, JsonEndpoint.next_match records (PStr (lit "b2")) = Ok item).
Proof.
  apply (lookup_needs_id_on_scanned_records demo_env
           (s3_holding (PList [fruit "lemon" "a1"; nameless; fruit "apple" "b2"]))
           7 (request_id "b2") PNone (PStr (lit "b2"))
           [fruit "lemon" "a1"] nameless [fruit "apple" "b2"]).
  - vm_compute. reflexivity.
  - reflexivity.
  - reflexivity.
  - constructor; [|constructor]. exists (PStr (lit "a1")). split; reflexivity.
  - eexists. reflexivity.
  - reflexivity.
Defined.

Lemma query_string_parameters_key_witness :
  fst (JsonEndpoint.lambda_handler demo_env 4 (PDict []) PNone
         (s3_holding (PList demo_records))) = Raise KeyError
  /\ JsonEndpoint.lambda_handler demo_env 4 (request PNone) PNone
       (s3_holding (PList demo_records))
     = (Ok (JsonEndpoint.json_response (fruit "apple" "b2")),
        s3_holding (PList demo_records))
  /\ JsonEndpoint.lambda_handler demo_env 4
       (request (PDict [(Some (lit "page"), PStr (lit "2"))])) PNone
       (s3_holding (PList demo_records))
     = (Ok (JsonEndpoint.json_response (fruit "apple" "b2")),
        s3_holding (PList demo_records)).
Proof.
  split; [|split].
  - apply (query_string_parameters_key demo_env (s3_holding (PList demo_records))
             4 PNone (PList demo_records) []); [vm_compute|]; reflexivity.
  - destruct (query_string_parameters_key demo_env (s3_holding (PList demo_records))
                4 PNone (PList demo_records)
                [(Some (lit "queryStringParameters"), PNone)]) as (_ & H & _);
      [vm_compute; reflexivity|].
    unfold request. rewrite H; reflexivity.
  - destruct (query_string_parameters_key demo_env (s3_holding (PList demo_records))
                4 PNone (PList demo_records)
                [(Some (lit "queryStringParameters"),
                  PDict [(Some (lit "page"), PStr (lit "2"))])]) as (_ & _ & H);
      [vm_compute; reflexivity|].
    unfold request. rewrite (H [(Some (lit "page"), PStr (lit "2"))]); reflexivity.
Defined.

(** * Properties of the ingestion handler *)

Lemma DictReader_table text header rows :
  csv_table text = Ok (header :: rows) ->
  DictReader (str_splitlines text) = Ok (map (DictReader_row header) (data_rows rows)).
Proof. unfold csv_table, DictReader. intros ->. reflexivity. Qed.

Section Ingestion.

Variable env : environ.
Variable net : network.
Variable urandom : nat -> N.
Variables event context : pyval.
Variable s3 : s3_state.

(** The handler in three steps: retrieve the body, read the rows, store the
    array. Only the last step touches S3. *)
Lemma ingest_run :
  UrlParser.lambda_handler env net urandom event context s3 =
  match fetched env net with
  | Raise e => (Raise e, s3)
  | Ok text =>
      match DictReader (str_splitlines text) with
      | Raise e => (Raise e, s3)
      | Ok rows =>
          match s3 !! S3_BUCKET_NAME env with
          | None => (Raise NoSuchBucket, s3)
          | Some objects =>
              (Ok confirmation,
               <[S3_BUCKET_NAME env :=
                   <[JSON_KEY env :=
                       json_object (json_dumps (PList (UrlParser.with_ids urandom 0 rows)))]>
                     objects]> s3)
          end
      end
  end.
Proof.
  unfold UrlParser.lambda_handler, fetched, bind, lift, ret, put_object.
  destruct (net (CSV_URL env)) as [response|]; [|reflexivity]. cbn [rbind].
  destruct (raise_for_status response); [|reflexivity]. cbn [rbind].
  destruct (bytes_decode (content response)) as [text|]; [|reflexivity].
  destruct (DictReader (str_splitlines text)) as [rows|]; [|reflexivity].
  cbv beta iota zeta.
  rewrite (str_encode_ascii _ (json_dumps_ascii _)).
  destruct (s3 !! S3_BUCKET_NAME env); reflexivity.
Qed.


(** C8. For a CSV body that holds a header row and no data row, the
    ingestion handler stores the empty JSON array under the configured key
    and returns status 200 with the confirmation message. *)
Theorem header_only_csv_gives_empty_array text header rows objects :
  fetched env net = Ok text ->
  csv_table text = Ok (header :: rows) ->
  data_rows rows = [] ->
  s3 !! S3_BUCKET_NAME env = Some objects ->
  UrlParser.lambda_handler env net urandom event context s3 =
  (Ok {| statusCode := 200;
         body := json_dumps
                   (PStr (lit "CSV successfully processed and stored as JSON in S3"));
         headers := None |},
   <[S3_BUCKET_NAME env := <[JSON_KEY env := json_object (lit "[]")]> objects]> s3).
Proof.
  intros Hf Ht Hd Hb.
  rewrite ingest_run, Hf, (DictReader_table _ _ _ Ht), Hd, Hb. reflexivity.
Qed.

(** C7. When the header has an [id] column, every stored record holds the
    generated identifier under [id], in the place of the value read from
    the CSV: the record has the fields of the row, no more, and exactly one
    of them is written [id]. *)
Theorem generated_id_replaces_csv_id text header rows objects :
  fetched env net = Ok text ->
  csv_table text = Ok (header :: rows) ->
  In (lit "id") header ->
  s3 !! S3_BUCKET_NAME env = Some objects ->
  exists records,
    UrlParser.lambda_handler env net urandom event context s3 =
    (Ok confirmation,
     <[S3_BUCKET_NAME env :=
         <[JSON_KEY env := json_object (json_dumps (PList records))]> objects]> s3)
    /\ length records = length (data_rows rows)
    /\ forall i row,
         nth_error (data_rows rows) i = Some row ->
         exists d old,
           nth_error records i = Some (PDict d)
           /\ dict_get (DictReader_row header row) (Some (lit "id")) = Some old
           /\ dict_get d (Some (lit "id")) = Some (PStr (str_uuid4 (urandom i)))
           /\ map fst d = map fst (DictReader_row header row)
           /\ length (List.filter (fun kv => bool_decide (key_text (fst kv) = lit "id")) d)
              = 1%nat.
Proof.
  intros Hf Ht Hid Hb.
  exists (UrlParser.with_ids urandom 0 (map (DictReader_row header) (data_rows rows))).
  rewrite ingest_run, Hf, (DictReader_table _ _ _ Ht), Hb.
  split; [reflexivity|]. split.
  { rewrite with_ids_length, length_map. reflexivity. }
  intros i row Hrow.
  pose proof (DictReader_row_has_field header row _ Hid) as Hkey.
  pose proof (DictReader_row_NoDup header row) as Hnd.
  destruct (dict_get (DictReader_row header row) (Some (lit "id"))) as [old|] eqn:Hold.
  2:{ apply dict_get_None in Hold. contradiction. }
  eexists _, old. split.
  { rewrite with_ids_nth, nth_error_map, Hrow. reflexivity. }
  split; [reflexivity|]. split; [apply dict_get_set_same|].
  split; [apply dict_set_keys_present; exact Hkey|].
  rewrite <- (count_key_NoDup (dict_set (DictReader_row header row) (Some (lit "id"))
                                (PStr (str_uuid4 (urandom (0 + i)%nat))))
                (Some (lit "id"))).
  - f_equal. apply filter_ext. intros [k v]. cbn [fst].
    apply bool_decide_ext. apply key_text_id.
  - apply dict_set_NoDup. exact Hnd.
  - apply dict_set_In_key.
Qed.

End Ingestion.

(** * Ingestion, then query *)

Lemma fetched_ok env net text : fetched env net = Ok text -> str_ok text.
Proof.
  unfold fetched. destruct (net (CSV_URL env)) as [response|]; [|discriminate].
  cbn [rbind]. destruct (raise_for_status response); [|discriminate]. cbn [rbind].
  apply bytes_decode_ok.
Qed.

Lemma Some_PStr_inj s t : Some (PStr s) = Some (PStr t) -> s = t.
Proof. intros [= H]. exact H. Qed.

Lemma written_nth urandom header rows i r :
  nth_error (written_records urandom header rows) i = Some r ->
  exists row,
    nth_error (data_rows rows) i = Some row /\ r = written_record urandom header i row.
Proof.
  unfold written_records. rewrite with_ids_nth, nth_error_map.
  destruct (nth_error (data_rows rows) i) as [row|]; [|discriminate].
  cbn [option_map]. intros [= <-]. exists row. split; reflexivity.
Qed.

Lemma written_at urandom header rows i row :
  nth_error (data_rows rows) i = Some row ->
  nth_error (written_records urandom header rows) i
  = Some (written_record urandom header i row).
Proof.
  intros H. unfold written_records. rewrite with_ids_nth, nth_error_map, H.
  reflexivity.
Qed.

Lemma written_length urandom header rows :
  length (written_records urandom header rows) = length (data_rows rows).
Proof. unfold written_records. rewrite with_ids_length, length_map. reflexivity. Qed.

(** The [id] read back of the record written at position [i]. *)
Lemma loaded_written_id urandom header rows i r :
  nth_error (written_records urandom header rows) i = Some r ->
  record_id (loaded r) = Some (PStr (str_uuid4 (urandom i))).
Proof.
  intros H. apply written_nth in H as (row & _ & ->). unfold written_record.
  rewrite loaded_record_id, dict_get_set_same; [reflexivity|].
  apply dict_set_NoDup, DictReader_row_NoDup.
Qed.

Lemma find_at {A} (f : A -> bool) (l : list A) : forall i y,
  (forall j x, (j < i)%nat -> nth_error l j = Some x -> f x = false) ->
  nth_error l i = Some y -> f y = true -> find f l = Some y.
Proof.
  induction l as [|a l IH]; intros [|i] y Hbefore Hy Hf; try discriminate.
  - cbn in Hy. injection Hy as ->. cbn [find]. rewrite Hf. reflexivity.
  - cbn [find]. rewrite (Hbefore 0%nat a (Nat.lt_0_succ i) eq_refl).
    apply (IH i); [|exact Hy|exact Hf].
    intros j x Hj Hx. apply (Hbefore (S j)); [lia|exact Hx].
Qed.

Section Pipeline.

Variable env : environ.
Variable net : network.
Variable urandom : nat -> N.
Variables event context : pyval.
Variable s3 : s3_state.
Variable text : pystr.
Variable header : list pystr.
Variable rows : list (list pystr).
Variable objects : gmap pystr s3_object.

Hypothesis Hfetched : fetched env net = Ok text.
Hypothesis Htable : csv_table text = Ok (header :: rows).
Hypothesis Hbucket : s3 !! S3_BUCKET_NAME env = Some objects.

Lemma ingest_stores :
  UrlParser.lambda_handler env net urandom event context s3 =
  (Ok confirmation,
   after_ingestion env s3 objects (written_records urandom header rows)).
Proof.
  rewrite ingest_run, Hfetched, (DictReader_table _ _ _ Htable), Hbucket.
  reflexivity.
Qed.

Lemma ingest_persisted :
  persisted env (after_ingestion env s3 objects (written_records urandom header rows))
  = Ok (PList (map loaded (written_records urandom header rows))).
Proof.
  unfold persisted, after_ingestion. rewrite lookup_insert_eq, lookup_insert_eq.
  unfold json_object. cbn [Body].
  rewrite (bytes_decode_ascii _ (json_dumps_ascii _)). cbn [rbind].
  apply json_loads_dumps.
  apply (written_records_ok text); [apply (fetched_ok env net)|]; assumption.
Qed.

Lemma loaded_written_record_set :
  record_set (map loaded (written_records urandom header rows)).
Proof.
  unfold record_set. apply List.Forall_forall. intros r Hr.
  apply in_map_iff in Hr as (w & <- & Hw).
  apply In_nth_error in Hw as [i Hi].
  unfold has_id. rewrite (loaded_written_id _ _ _ _ _ Hi). reflexivity.
Qed.

End Pipeline.

(** C1, as amended. For a CSV body that the [csv] module reads as a header
    row and [N] data rows, the ingestion handler stores a JSON array of
    exactly [N] objects; each has an [id] that is a non-empty string. The
    [id]s are pairwise distinct if and only if the UUIDs drawn for the rows
    are: nothing but the random source keeps two rows from the same
    [id]. *)
Theorem ingestion_gives_identified_records
  env net urandom event context s3 text header rows objects :
  fetched env net = Ok text ->
  csv_table text = Ok (header :: rows) ->
  s3 !! S3_BUCKET_NAME env = Some objects ->
  exists records,
    fst (UrlParser.lambda_handler env net urandom event context s3) = Ok confirmation
    /\ persisted env (snd (UrlParser.lambda_handler env net urandom event context s3))
       = Ok (PList records)
    /\ length records = length (data_rows rows)
    /\ (forall i r, nth_error records i = Some r ->
         exists d id, r = PDict d /\ dict_get d (Some (lit "id")) = Some (PStr id)
                      /\ id <> [])
    /\ (List.NoDup (map record_id records) <->
        forall i j, (i < j < length (data_rows rows))%nat ->
                    uuid4_int (urandom i) <> uuid4_int (urandom j)).
Proof.
  intros Hf Ht Hb.
  exists (map loaded (written_records urandom header rows)).
  rewrite (ingest_stores env net urandom event context s3 text header rows objects)
    by assumption.
  cbn [fst snd]. split; [reflexivity|].
  split; [eapply ingest_persisted; eassumption|].
  split; [rewrite length_map; apply written_length|].
  assert (Hid : forall i o, nth_error (map record_id
                                (map loaded (written_records urandom header rows))) i
                            = Some o ->
                            o = Some (PStr (str_uuid4 (urandom i)))).
  { intros i o. rewrite !nth_error_map.
    destruct (nth_error (written_records urandom header rows) i) as [w|] eqn:E;
      [|discriminate].
    cbn [option_map]. intros [= <-]. apply (loaded_written_id _ _ _ _ _ E). }
  assert (Hat : forall i, (i < length (data_rows rows))%nat ->
                  nth_error (map record_id
                               (map loaded (written_records urandom header rows))) i
                  = Some (Some (PStr (str_uuid4 (urandom i))))).
  { intros i Hi.
    destruct (nth_error (map record_id _) i) as [o|] eqn:Ei.
    - rewrite (Hid _ _ Ei). reflexivity.
    - apply nth_error_None in Ei. rewrite !length_map, written_length in Ei. lia. }
  split; [|split].
  - intros i r Hr. pose proof (Hid i (record_id r)) as H.
    rewrite nth_error_map, Hr in H. specialize (H eq_refl).
    rewrite nth_error_map in Hr.
    destruct (nth_error (written_records urandom header rows) i) as [w|] eqn:E;
      [|discriminate].
    apply written_nth in E as (row & _ & ->). injection Hr as <-.
    eexists _, _. split; [reflexivity|].
    split; [exact H|].
    intros Hnil. pose proof (uuid_str_length (uuid4_int (urandom i))) as Hlen.
    unfold str_uuid4 in Hnil. rewrite Hnil in Hlen. discriminate.
  - intros Hnd i j Hij Heq.
    rewrite NoDup_nth_error in Hnd. specialize (Hnd i j).
    rewrite !length_map, written_length, !Hat in Hnd by lia.
    unfold str_uuid4 in Hnd. rewrite Heq in Hnd.
    specialize (Hnd ltac:(lia) eq_refl). lia.
  - intros Hfresh. apply NoDup_nth_error. intros i j Hi Hij.
    rewrite !length_map, written_length in Hi.
    rewrite (Hat i Hi) in Hij. symmetry in Hij. pose proof (Hid _ _ Hij) as Hoj.
    assert (Hj : (j < length (data_rows rows))%nat).
    { assert (Hn : nth_error (map record_id
                     (map loaded (written_records urandom header rows))) j <> None)
        by congruence.
      apply nth_error_Some in Hn. rewrite !length_map, written_length in Hn.
      exact Hn. }
    apply Some_PStr_inj, str_uuid4_inj in Hoj.
    destruct (Nat.lt_total i j) as [Hlt|[Heq|Hgt]]; [|exact Heq|].
    + exfalso. apply (Hfresh i j); [lia|exact Hoj].
    + exfalso. apply (Hfresh j i); [lia|symmetry; exact Hoj].
Qed.

Lemma id_is_loaded_written urandom header rows j w s :
  nth_error (written_records urandom header rows) j = Some w ->
  id_is s (loaded w) = bool_decide (str_uuid4 (urandom j) = s).
Proof.
  intros H. unfold id_is. rewrite (loaded_written_id _ _ _ _ _ H). reflexivity.
Qed.

(** C6, as amended. Take a data row that has no more cells than the header,
    or a header without a column [null], and whose identifier no earlier row
    of the run was given. The record written for it is returned by a query
    for its [id] against the blob that run wrote: status 200 and, as body,
    the very JSON text written for the record. *)
Theorem round_trip_of_written_record
  env net urandom event0 context0 random event context s3 text header rows objects
  i row :
  fetched env net = Ok text ->
  csv_table text = Ok (header :: rows) ->
  s3 !! S3_BUCKET_NAME env = Some objects ->
  nth_error (data_rows rows) i = Some row ->
  ~ In (lit "null") header \/ (length row <= length header)%nat ->
  (forall j, (j < i)%nat -> uuid4_int (urandom j) <> uuid4_int (urandom i)) ->
  id_parameter event = Ok (PStr (str_uuid4 (urandom i))) ->
  nth_error (written_records urandom header rows) i
  = Some (written_record urandom header i row)
  /\ UrlParser.lambda_handler env net urandom event0 context0 s3 =
     (Ok confirmation,
      after_ingestion env s3 objects (written_records urandom header rows))
  /\ JsonEndpoint.lambda_handler env random event context
       (after_ingestion env s3 objects (written_records urandom header rows)) =
     (Ok {| statusCode := 200;
            body := json_dumps (written_record urandom header i row);
            headers := Some [(lit "Content-Type", lit "application/json")] |},
      after_ingestion env s3 objects (written_records urandom header rows)).
Proof.
  intros Hf Ht Hb Hrow Hkeys Hfresh Hid.
  pose proof (written_at urandom header rows i row Hrow) as Hi.
  split; [exact Hi|].
  split; [eapply ingest_stores; eassumption|].
  rewrite query_run.
  rewrite (ingest_persisted env net urandom s3 text header rows objects Hf Ht), Hid.
  cbn [rbind py_iter].
  assert (Htruthy : truthy (PStr (str_uuid4 (urandom i))) = true).
  { cbn [truthy]. unfold str_uuid4. rewrite uuid_str_length. reflexivity. }
  rewrite Htruthy.
  assert (Hfirst : first_with_id (str_uuid4 (urandom i))
                     (map loaded (written_records urandom header rows))
                   = Some (loaded (written_record urandom header i row))).
  { apply (find_at _ _ i).
    - intros j x Hj. rewrite nth_error_map.
      destruct (nth_error (written_records urandom header rows) j) as [w|] eqn:E;
        [|discriminate].
      cbn [option_map]. intros [= <-]. rewrite (id_is_loaded_written _ _ _ _ _ _ E).
      apply bool_decide_eq_false_2. intros Heq. apply str_uuid4_inj in Heq.
      exact (Hfresh j Hj Heq).
    - rewrite nth_error_map, Hi. reflexivity.
    - rewrite (id_is_loaded_written _ _ _ _ _ _ Hi).
      apply bool_decide_eq_true_2. reflexivity. }
  pose proof (loaded_written_record_set urandom header rows) as Hrs.
  rewrite (next_match_found _ _ _ Hrs Hfirst). cbn [rbind].
  apply first_with_id_In in Hfirst as [Hin _].
  unfold record_set in Hrs. rewrite List.Forall_forall in Hrs.
  rewrite (has_id_truthy _ (Hrs _ Hin)).
  unfold JsonEndpoint.json_response. rewrite json_dumps_loaded; [reflexivity|].
  constructor; [apply written_keys_distinct; exact Hkeys|].
  pose proof (written_records_flat header rows urandom) as Hflat.
  rewrite List.Forall_forall in Hflat.
  destruct (Hflat _ (nth_error_In _ _ Hi)) as (d' & [= <-] & Hd'). exact Hd'.
Qed.

(** X18. The boundary case of the specification: after the ingestion of a
    CSV body without data rows, every query fails. *)
Lemma query_after_empty_ingestion_fails
  env net urandom event0 context0 random event context s3 text header rows objects :
  fetched env net = Ok text ->
  csv_table text = Ok (header :: rows) ->
  data_rows rows = [] ->
  s3 !! S3_BUCKET_NAME env = Some objects ->
  exists e,
    fst (JsonEndpoint.lambda_handler env random event context
           (snd (UrlParser.lambda_handler env net urandom event0 context0 s3)))
    = Raise e.
Proof.
  intros Hf Ht Hd Hb.
  rewrite (ingest_stores env net urandom event0 context0 s3 text header rows objects)
    by assumption.
  cbn [snd]. rewrite query_run.
  rewrite (ingest_persisted env net urandom s3 text header rows objects Hf Ht).
  unfold written_records. rewrite Hd. cbn [map UrlParser.with_ids fst].
  destruct (id_parameter event) as [item_id|e]; [|exists e; reflexivity].
  exists IndexError. cbn [rbind py_iter JsonEndpoint.next_match].
  destruct (truthy item_id); reflexivity.
Qed.

(** * The claims on concrete runs *)

Lemma ingestion_gives_identified_records_witness :
  exists records,
    fst (UrlParser.lambda_handler demo_env (serve 200 demo_csv) demo_urandom
           PNone PNone empty_bucket) = Ok confirmation
    /\ persisted demo_env
         (snd (UrlParser.lambda_handler demo_env (serve 200 demo_csv) demo_urandom
                 PNone PNone empty_bucket))
       = Ok (PList records)
    /\ length records = 2%nat
    /\ (forall i r, nth_error records i = Some r ->
         exists d id, r = PDict d /\ dict_get d (Some (lit "id")) = Some (PStr id)
                      /\ id <> [])
    /\ (List.NoDup (map record_id records) <->
        forall i j, (i < j < 2)%nat ->
                    uuid4_int (demo_urandom i) <> uuid4_int (demo_urandom j)).
Proof.
  apply (ingestion_gives_identified_records demo_env (serve 200 demo_csv)
           demo_urandom PNone PNone empty_bucket demo_csv
           [lit "name"; lit "color"]
           [[lit "lemon"; lit "yellow"]; [lit "apple"; lit "red"]] ∅).
  - vm_compute. reflexivity.
  - vm_compute. reflexivity.
  - reflexivity.
Defined.

(** C1, as stated, fails: the CSV of two fruits is valid and has two data
    rows, yet when the random source repeats itself the two stored records
    have the same [id]. *)
Lemma equal_draws_give_equal_ids :
  csv_table demo_csv
  = Ok [[lit "name"; lit "color"]; [lit "lemon"; lit "yellow"]; [lit "apple"; lit "red"]]
  /\ fst (UrlParser.lambda_handler demo_env (serve 200 demo_csv) stuck_urandom
            PNone PNone empty_bucket) = Ok confirmation
  /\ persisted demo_env
       (snd (UrlParser.lambda_handler demo_env (serve 200 demo_csv) stuck_urandom
               PNone PNone empty_bucket))
     = Ok (PList
             [PDict [(Some (lit "name"), PStr (lit "lemon"));
                     (Some (lit "color"), PStr (lit "yellow"));
                     (Some (lit "id"),
                      PStr (lit "00000000-0000-4000-8000-000000000007"))];
              PDict [(Some (lit "name"), PStr (lit "apple"));
                     (Some (lit "color"), PStr (lit "red"));
                     (Some (lit "id"),
                      PStr (lit "00000000-0000-4000-8000-000000000007"))]])
  /\ ~ List.NoDup
        (map record_id
           [PDict [(Some (lit "name"), PStr (lit "lemon"));
                   (Some (lit "color"), PStr (lit "yellow"));
                   (Some (lit "id"),
                    PStr (lit "00000000-0000-4000-8000-000000000007"))];
            PDict [(Some (lit "name"), PStr (lit "apple"));
                   (Some (lit "color"), PStr (lit "red"));
                   (Some (lit "id"),
                    PStr (lit "00000000-0000-4000-8000-000000000007"))]]).
Proof.
  split; [vm_compute; reflexivity|]. split; [vm_compute; reflexivity|].
  split; [vm_compute; reflexivity|].
  intros H. inversion H as [|x l Hx _]; subst. apply Hx. left. reflexivity.
Qed.



Lemma round_trip_of_written_record_witness :
  nth_error (written_records demo_urandom [lit "name"; lit "color"]
               [[lit "lemon"; lit "yellow"]; [lit "apple"; lit "red"]]) 1
  = Some (written_record demo_urandom [lit "name"; lit "color"] 1
            [lit "apple"; lit "red"])
  /\ UrlParser.lambda_handler demo_env (serve 200 demo_csv) demo_urandom PNone PNone
       empty_bucket =
     (Ok confirmation,
      after_ingestion demo_env empty_bucket ∅
        (written_records demo_urandom [lit "name"; lit "color"]
           [[lit "lemon"; lit "yellow"]; [lit "apple"; lit "red"]]))
  /\ JsonEndpoint.lambda_handler demo_env 0 (request_row 1) PNone
       (after_ingestion demo_env empty_bucket ∅
          (written_records demo_urandom [lit "name"; lit "color"]
             [[lit "lemon"; lit "yellow"]; [lit "apple"; lit "red"]])) =
     (Ok {| statusCode := 200;
            body := json_dumps
                      (written_record demo_urandom [lit "name"; lit "color"] 1
                         [lit "apple"; lit "red"]);
            headers := Some [(lit "Content-Type", lit "application/json")] |},
      after_ingestion demo_env empty_bucket ∅
        (written_records demo_urandom [lit "name"; lit "color"]
           [[lit "lemon"; lit "yellow"]; [lit "apple"; lit "red"]])).
Proof.
  apply (round_trip_of_written_record demo_env (serve 200 demo_csv) demo_urandom
           PNone PNone 0 (request_row 1) PNone empty_bucket demo_csv
           [lit "name"; lit "color"]
           [[lit "lemon"; lit "yellow"]; [lit "apple"; lit "red"]] ∅ 1
           [lit "apple"; lit "red"]).
  - vm_compute. reflexivity.
  - vm_compute. reflexivity.
  - reflexivity.
  - reflexivity.
  - right. cbn [length]. lia.
  - intros j Hj. assert (Hj0 : j = 0%nat) by lia. subst. vm_compute. discriminate.
  - reflexivity.
Defined.

(** C6, as stated, fails: for the CSV with a column [null] and a row longer
    than the header, the record is written with two fields named [null];
    the query for its [id] returns an object with one. *)
Lemma round_trip_loses_a_field :
  blob demo_env
    (snd (UrlParser.lambda_handler demo_env (serve 200 null_csv) demo_urandom
            PNone PNone empty_bucket))
  = Some (json_object
            (json_dumps
               (PList [PDict [(Some (lit "null"), PStr (lit "1"));
                              (None, PList [PStr (lit "2")]);
                              (Some (lit "id"), PStr (str_uuid4 (demo_urandom 0)))]])))
  /\ fst (JsonEndpoint.lambda_handler demo_env 0 (request_row 0) PNone
            (snd (UrlParser.lambda_handler demo_env (serve 200 null_csv) demo_urandom
                    PNone PNone empty_bucket)))
     = Ok (JsonEndpoint.json_response
             (PDict [(Some (lit "null"), PList [PStr (lit "2")]);
                     (Some (lit "id"), PStr (str_uuid4 (demo_urandom 0)))]))
  /\ json_dumps (PDict [(Some (lit "null"), PList [PStr (lit "2")]);
                        (Some (lit "id"), PStr (str_uuid4 (demo_urandom 0)))])
     <> json_dumps (PDict [(Some (lit "null"), PStr (lit "1"));
                           (None, PList [PStr (lit "2")]);
                           (Some (lit "id"), PStr (str_uuid4 (demo_urandom 0)))]).
Proof.
  split; [vm_compute; reflexivity|]. split; [vm_compute; reflexivity|].
  vm_compute. discriminate.
Qed.

Lemma generated_id_replaces_csv_id_witness :
  exists records,
    UrlParser.lambda_handler demo_env (serve 200 id_csv) demo_urandom PNone PNone
      empty_bucket =
    (Ok confirmation,
     <[S3_BUCKET_NAME demo_env :=
         <[JSON_KEY demo_env := json_object (json_dumps (PList records))]> ∅]>
       empty_bucket)
    /\ length records = length (data_rows [[lit "7"; lit "kiwi"]])
    /\ forall i row,
         nth_error (data_rows [[lit "7"; lit "kiwi"]]) i = Some row ->
         exists d old,
           nth_error records i = Some (PDict d)
           /\ dict_get (DictReader_row [lit "id"; lit "name"] row) (Some (lit "id"))
              = Some old
           /\ dict_get d (Some (lit "id")) = Some (PStr (str_uuid4 (demo_urandom i)))
           /\ map fst d = map fst (DictReader_row [lit "id"; lit "name"] row)
           /\ length (List.filter
                        (fun kv => bool_decide (key_text (fst kv) = lit "id")) d)
              = 1%nat.
Proof.
  apply (generated_id_replaces_csv_id demo_env (serve 200 id_csv) demo_urandom
           PNone PNone empty_bucket id_csv [lit "id"; lit "name"]
           [[lit "7"; lit "kiwi"]] ∅).
  - vm_compute. reflexivity.
  - vm_compute. reflexivity.
  - left. reflexivity.
  - reflexivity.
Defined.

Lemma header_only_csv_gives_empty_array_witness :
  UrlParser.lambda_handler demo_env (serve 200 (text_of [lit "name,color"; []]))
    demo_urandom PNone PNone (s3_holding (PList demo_records)) =
  (Ok {| statusCode := 200;
         body := json_dumps
                   (PStr (lit "CSV successfully processed and stored as JSON in S3"));
         headers := None |},
   <[S3_BUCKET_NAME demo_env :=
       <[JSON_KEY demo_env := json_object (lit "[]")]>
         {[ lit "fruit.json" := json_object (json_dumps (PList demo_records)) ]}]>
     (s3_holding (PList demo_records))).
Proof.
  apply (header_only_csv_gives_empty_array demo_env
           (serve 200 (text_of [lit "name,color"; []])) demo_urandom PNone PNone
           (s3_holding (PList demo_records)) (text_of [lit "name,color"; []])
           [lit "name"; lit "color"] []).
  - vm_compute. reflexivity.
  - vm_compute. reflexivity.
  - reflexivity.
  - reflexivity.
Defined.

(** The scenario of the specification: the array stored for the CSV of two
    fruits, the identifiers being those drawn for rows 0 and 1. *)
Example scenario_blob :
  blob demo_env
    (snd (UrlParser.lambda_handler demo_env (serve 200 demo_csv) demo_urandom
            PNone PNone empty_bucket))
  = Some (json_object
            (json_dumps
               (PList
                  [PDict [(Some (lit "name"), PStr (lit "lemon"));
                          (Some (lit "color"), PStr (lit "yellow"));
                          (Some (lit "id"),
                           PStr (lit "00000000-0000-4000-8000-000000000000"))];
                   PDict [(Some (lit "name"), PStr (lit "apple"));
                          (Some (lit "color"), PStr (lit "red"));
                          (Some (lit "id"),
                           PStr (lit "00000000-0000-4000-8000-000000000001"))]]))).
Proof. vm_compute. reflexivity. Qed.

(** * More on the query handler *)

Lemma next_match_In objs item_id item :
  JsonEndpoint.next_match objs item_id = Ok item ->
  truthy item = true -> In item objs.
Proof.
  induction objs as [|obj objs IH]; cbn [JsonEndpoint.next_match].
  - intros [= <-]. discriminate.
  - destruct (py_getitem obj (lit "id")) as [x|]; [|discriminate]. cbn [rbind].
    destruct (py_eq x item_id).
    + intros [= <-] _. left. reflexivity.
    + intros H Ht. right. apply IH; assumption.
Qed.

Lemma random_choice_In random records r :
  random_choice random (PList records) = Ok r -> In r records.
Proof.
  unfold random_choice. cbn [py_len rbind].
  destruct (length records) as [|n]; [discriminate|]. cbn [py_index].
  destruct (nth_error records _) as [x|] eqn:E; [|discriminate].
  intros [= <-]. eapply nth_error_In. exact E.
Qed.

Section Answers.

Variable env : environ.
Variable s3 : s3_state.

(** X1. The query handler only reads: whatever the request and whatever it
    answers, S3 is afterwards as it was before. *)
Theorem query_leaves_s3_unchanged random event context :
  snd (JsonEndpoint.lambda_handler env random event context s3) = s3.
Proof. rewrite query_run. reflexivity. Qed.

(** X2. Every response of the query handler over a stored array carries one of
    the items of the array: status 200, the JSON content type, and as body
    the JSON text of an item, in ASCII. *)
Theorem query_response_is_a_stored_record random event context records r :
  persisted env s3 = Ok (PList records) ->
  fst (JsonEndpoint.lambda_handler env random event context s3) = Ok r ->
  exists item,
    In item records
    /\ r = {| statusCode := 200;
              body := json_dumps item;
              headers := Some [(lit "Content-Type", lit "application/json")] |}
    /\ is_ascii (body r).
Proof.
  intros Hp. rewrite query_run, Hp. cbn [fst]. unfold random_selection.
  assert (Hdone : forall item, In item records ->
            exists item',
              In item' records
              /\ JsonEndpoint.json_response item
                 = {| statusCode := 200;
                      body := json_dumps item';
                      headers := Some [(lit "Content-Type", lit "application/json")] |}
              /\ is_ascii (body (JsonEndpoint.json_response item))).
  { intros item Hin. exists item. split; [exact Hin|]. split; [reflexivity|].
    apply json_dumps_ascii. }
  assert (Hfallback : (let* x := random_choice random (PList records) in
                       Ok (JsonEndpoint.json_response x))%R = Ok r ->
            exists item,
              In item records
              /\ r = {| statusCode := 200;
                        body := json_dumps item;
                        headers := Some [(lit "Content-Type", lit "application/json")] |}
              /\ is_ascii (body r)).
  { destruct (random_choice random (PList records)) as [x|] eqn:E; [|discriminate].
    cbn [rbind]. intros [= <-]. apply Hdone. eapply random_choice_In. exact E. }
  destruct (id_parameter event) as [item_id|]; [|discriminate]. cbn [rbind py_iter].
  destruct (truthy item_id); [|exact Hfallback].
  destruct (JsonEndpoint.next_match records item_id) as [item|] eqn:E; [|discriminate].
  cbn [rbind]. destruct (truthy item) eqn:Ht; [|exact Hfallback].
  intros [= <-]. apply Hdone. eapply next_match_In; eassumption.
Qed.

(** X3. Without the stored object there is no answer: a missing bucket is
    [NoSuchBucket], a missing key [NoSuchKey], and so for every request,
    since the object is read before the request is looked at. *)
Theorem query_without_object_fails random event context :
  (s3 !! S3_BUCKET_NAME env = None ->
   JsonEndpoint.lambda_handler env random event context s3 = (Raise NoSuchBucket, s3))
  /\ (forall objects,
        s3 !! S3_BUCKET_NAME env = Some objects ->
        objects !! JSON_KEY env = None ->
        JsonEndpoint.lambda_handler env random event context s3 = (Raise NoSuchKey, s3)).
Proof.
  split.
  - intros H. rewrite query_run. unfold persisted. rewrite H. reflexivity.
  - intros objects H1 H2. rewrite query_run. unfold persisted. rewrite H1, H2.
    reflexivity.
Qed.

End Answers.

Lemma is_ws_small c : is_ws c = true -> c < 0x80.
Proof.
  unfold is_ws. intros H.
  repeat (apply orb_true_iff in H as [H|H]); apply N.eqb_eq in H; lia.
Qed.

Lemma bytes_decode_N_small b : Forall (fun c => c < 0x80) b -> bytes_decode_N b = Ok b.
Proof.
  induction 1 as [|c b Hc _ IH]; cbn [bytes_decode_N]; [reflexivity|].
  apply N.ltb_lt in Hc. rewrite Hc, IH. reflexivity.
Qed.

Lemma skip_ws_blank s : Forall (fun c => is_ws c = true) s -> skip_ws s = [].
Proof.
  induction 1 as [|c s Hc _ IH]; cbn [skip_ws]; [reflexivity|]. rewrite Hc. exact IH.
Qed.

Lemma is_ws_cases c : is_ws c = true -> c = 32 \/ c = 9 \/ c = 10 \/ c = 13.
Proof.
  unfold is_ws. intros H.
  repeat (apply orb_true_iff in H as [H|H]); apply N.eqb_eq in H; auto.
Qed.

(** A text of white space only holds no JSON term. *)
Lemma json_loads_blank s :
  Forall (fun c => is_ws c = true) s -> json_loads s = Raise JSONDecodeError.
Proof.
  intros H. pose proof (skip_ws_blank _ H) as Hs.
  destruct s as [|c s]; [reflexivity|].
  inversion H as [|? ? Hc _]; subst.
  apply is_ws_cases in Hc as [->|[->|[->| ->]]];
    unfold json_loads; cbv beta iota; rewrite Hs; reflexivity.
Qed.

Section BlankObject.

Variable env : environ.
Variable s3 : s3_state.

(** X4. A stored object that is empty, or holds white space only, is no
    JSON text: every request fails with [JSONDecodeError]. *)
Theorem query_on_blank_object_fails random event context o :
  blob env s3 = Some o ->
  Forall (fun b => is_ws (Byte.to_N b) = true) (Body o) ->
  JsonEndpoint.lambda_handler env random event context s3 = (Raise JSONDecodeError, s3).
Proof.
  intros Hb Hws. rewrite query_run. unfold persisted. unfold blob in Hb.
  destruct (s3 !! S3_BUCKET_NAME env) as [objects|]; [|discriminate].
  rewrite Hb. unfold bytes_decode.
  assert (Hws' : Forall (fun c => is_ws c = true) (map Byte.to_N (Body o))).
  { apply Forall_map. exact Hws. }
  rewrite bytes_decode_N_small.
  2:{ eapply List.Forall_impl; [|exact Hws']. intros c. apply is_ws_small. }
  cbn [rbind]. rewrite (json_loads_blank _ Hws'). reflexivity.
Qed.

End BlankObject.

Lemma next_match_stops before r after item_id v :
  Forall (fun x => exists v, record_id x = Some v /\ py_eq v item_id = false) before ->
  record_id r = Some v -> py_eq v item_id = true ->
  JsonEndpoint.next_match (before ++ r :: after) item_id = Ok r.
Proof.
  intros Hb Hr Hv.
  induction Hb as [|x before (w & Hw & Hne) _ IH]; cbn [app JsonEndpoint.next_match].
  - destruct r as [| | |l|d]; cbn [record_id] in Hr; try discriminate.
    unfold py_getitem. rewrite Hr. cbn [rbind]. rewrite Hv. reflexivity.
  - destruct x as [| | |l|dx]; cbn [record_id] in Hw; try discriminate.
    unfold py_getitem. rewrite Hw. cbn [rbind]. rewrite Hne. exact IH.
Qed.

Section Requests.

Variable env : environ.
Variable s3 : s3_state.

(** X5. The lookup stops at the first match. The items after it are not looked
    at: whatever they are, with or without an [id], objects or not, the
    request is answered with the match. *)
Theorem lookup_stops_at_first_match random event context item_id before r after v :
  persisted env s3 = Ok (PList (before ++ r :: after)) ->
  id_parameter event = Ok item_id ->
  truthy item_id = true ->
  Forall (fun x => exists v, record_id x = Some v /\ py_eq v item_id = false) before ->
  record_id r = Some v ->
  py_eq v item_id = true ->
  JsonEndpoint.lambda_handler env random event context s3 =
  (Ok {| statusCode := 200;
         body := json_dumps r;
         headers := Some [(lit "Content-Type", lit "application/json")] |}, s3).
Proof.
  intros Hp Hid Ht Hb Hr Hv. rewrite query_run, Hp, Hid. cbn [rbind py_iter].
  rewrite Ht, (next_match_stops _ _ _ _ _ Hb Hr Hv). cbn [rbind].
  assert (Hrt : truthy r = true).
  { apply has_id_truthy. unfold has_id. rewrite Hr. reflexivity. }
  rewrite Hrt. reflexivity.
Qed.

(** X6. The shapes of a request. An event that is not an object cannot be
    indexed: [TypeError]. Query string parameters that are false in Python
    ([null], [false], the empty string, list or object) are replaced by the
    empty object, so the request is answered by random selection.
    Parameters that are true and not an object have no [get] method:
    [AttributeError]. *)
Theorem request_shapes random context json_data :
  persisted env s3 = Ok json_data ->
  (forall event, (forall d, event <> PDict d) ->
     JsonEndpoint.lambda_handler env random event context s3 = (Raise TypeError, s3))
  /\ (forall d params,
        dict_get d (Some (lit "queryStringParameters")) = Some params ->
        truthy params = false ->
        JsonEndpoint.lambda_handler env random (PDict d) context s3 =
        (random_selection random json_data, s3))
  /\ (forall d params,
        dict_get d (Some (lit "queryStringParameters")) = Some params ->
        truthy params = true -> (forall p, params <> PDict p) ->
        JsonEndpoint.lambda_handler env random (PDict d) context s3 =
        (Raise AttributeError, s3)).
Proof.
  intros Hp. split; [|split].
  - intros event Hev. rewrite query_run, Hp. unfold id_parameter, py_getitem.
    destruct event as [| | | |d]; try reflexivity. destruct (Hev d eq_refl).
  - intros d params Hd Hf. rewrite query_run, Hp. unfold id_parameter, py_getitem.
    rewrite Hd. cbn [rbind]. unfold py_or. rewrite Hf. reflexivity.
  - intros d params Hd Ht Hnd. rewrite query_run, Hp. unfold id_parameter, py_getitem.
    rewrite Hd. cbn [rbind]. unfold py_or. rewrite Ht. unfold py_get.
    destruct params as [| | | |p]; try reflexivity. destruct (Hnd p eq_refl).
Qed.

(** X7. A stored JSON text that is not an array: when it is [null], a boolean
    or an object, no request is answered. *)
Theorem query_on_non_array_fails random event context json_data :
  persisted env s3 = Ok json_data ->
  json_data = PNone \/ (exists b, json_data = PBool b) \/ (exists d, json_data = PDict d) ->
  exists e, JsonEndpoint.lambda_handler env random event context s3 = (Raise e, s3).
Proof.
  intros Hp Hshape. rewrite query_run, Hp. unfold random_selection.
  destruct (id_parameter event) as [item_id|e]; [|exists e; reflexivity].
  cbn [rbind].
  destruct Hshape as [->|[[b ->]|[d ->]]].
  - exists TypeError. destruct (truthy item_id); reflexivity.
  - exists TypeError. destruct (truthy item_id); reflexivity.
  - assert (Hchoice : exists e, random_choice random (PDict d) = Raise e).
    { unfold random_choice. cbn [py_len rbind].
      destruct (length d); [exists IndexError|exists KeyError]; reflexivity. }
    destruct Hchoice as [e He].
    destruct (truthy item_id); [|exists e; rewrite He; reflexivity].
    cbn [py_iter rbind].
    destruct d as [|[k x] d].
    + cbn [map JsonEndpoint.next_match rbind truthy]. exists e. rewrite He. reflexivity.
    + exists TypeError. cbn [map fst JsonEndpoint.next_match].
      destruct k; reflexivity.
Qed.

End Requests.

(** * More on the ingestion handler *)

Lemma DictReader_cases text rows :
  DictReader (str_splitlines text) = Ok rows ->
  (csv_table text = Ok [] /\ rows = [])
  \/ (exists header rs,
        csv_table text = Ok (header :: rs)
        /\ rows = map (DictReader_row header) (data_rows rs)).
Proof.
  unfold DictReader, csv_table.
  destruct (csv_reader (str_splitlines text)) as [[|header rs]|]; cbn [rbind];
    [intros [= <-]; left; split; reflexivity| |discriminate].
  intros [= <-]. right. exists header, rs. split; reflexivity.
Qed.

(** The records built from a decoded body are read back by [json.loads]. *)
Lemma with_ids_reads_back env net text urandom rows :
  fetched env net = Ok text ->
  DictReader (str_splitlines text) = Ok rows ->
  json_loads (json_dumps (PList (UrlParser.with_ids urandom 0 rows)))
  = Ok (PList (map loaded (UrlParser.with_ids urandom 0 rows))).
Proof.
  intros Hf Hd. apply (json_loads_dumps (PList _)).
  apply DictReader_cases in Hd as [[_ ->]|(header & rs & Ht & ->)].
  - constructor. constructor.
  - apply (written_records_ok text); [apply (fetched_ok env net)|]; assumption.
Qed.

Lemma byte_of_N_small s :
  is_ascii s -> Forall (fun b => Byte.to_N b < 128) (map byte_of_N s).
Proof.
  intros H. apply Forall_map. eapply List.Forall_impl; [|exact H].
  intros c Hc. cbv beta in Hc |- *. rewrite to_N_byte_of_N by lia. exact Hc.
Qed.

(** The decoder raises nothing but [UnicodeDecodeError]. *)
Lemma bytes_decode_N_raises n : forall b e,
  (length b <= n)%nat -> bytes_decode_N b = Raise e -> e = UnicodeDecodeError.
Proof.
  induction n as [|n IH]; intros b e Hlen H.
  { destruct b; [discriminate|cbn [length] in Hlen; lia]. }
  destruct b as [|b0 r0]; [discriminate|].
  cbn [length] in Hlen. cbn [bytes_decode_N] in H.
  destruct (b0 <? 0x80).
  { destruct (bytes_decode_N r0) as [t|e'] eqn:Er; [discriminate|].
    injection H as <-. apply (IH r0); [lia|exact Er]. }
  destruct ((0xC0 <=? b0) && (b0 <? 0xE0)).
  { destruct r0 as [|b1 r1]; [congruence|]. cbn [length] in Hlen.
    match type of H with (if ?c then _ else _) = _ => destruct c end; [|congruence].
    destruct (bytes_decode_N r1) as [t|e'] eqn:Er; [discriminate|].
    injection H as <-. apply (IH r1); [lia|exact Er]. }
  destruct ((0xE0 <=? b0) && (b0 <? 0xF0)).
  { destruct r0 as [|b1 [|b2 r2]]; try congruence. cbn [length] in Hlen.
    match type of H with (if ?c then _ else _) = _ => destruct c end; [|congruence].
    destruct (bytes_decode_N r2) as [t|e'] eqn:Er; [discriminate|].
    injection H as <-. apply (IH r2); [lia|exact Er]. }
  destruct ((0xF0 <=? b0) && (b0 <? 0xF8)); [|congruence].
  destruct r0 as [|b1 [|b2 [|b3 r3]]]; try congruence. cbn [length] in Hlen.
  match type of H with (if ?c then _ else _) = _ => destruct c end; [|congruence].
  destruct (bytes_decode_N r3) as [t|e'] eqn:Er; [discriminate|].
  injection H as <-. apply (IH r3); [lia|exact Er].
Qed.

Lemma bytes_decode_raises b e : bytes_decode b = Raise e -> e = UnicodeDecodeError.
Proof. unfold bytes_decode. apply (bytes_decode_N_raises _ _ _ (le_n _)). Qed.

(** The [csv] reader raises nothing but its own [Error]. *)
Lemma parse_add_char_raises self c e : parse_add_char self c = Raise e -> e = CsvError.
Proof. unfold parse_add_char. destruct (field_limit <=? _); congruence. Qed.

Lemma add_then_state_raises self c st e :
  (let* r := parse_add_char self c in Ok (set_state r st))%R = Raise e -> e = CsvError.
Proof.
  destruct (parse_add_char self c) as [r|e'] eqn:E; [discriminate|].
  intros [= <-]. eapply parse_add_char_raises. exact E.
Qed.

Lemma start_field_raises self c e : start_field self c = Raise e -> e = CsvError.
Proof.
  unfold start_field. destruct c as [ch|]; [|discriminate].
  destruct (is_newline ch); [discriminate|].
  destruct (ch =? quotechar); [discriminate|].
  destruct (ch =? delimiter); [discriminate|].
  apply add_then_state_raises.
Qed.

Lemma parse_process_char_raises self c e :
  parse_process_char self c = Raise e -> e = CsvError.
Proof.
  unfold parse_process_char.
  destruct (state self); destruct c as [ch|];
    repeat match goal with
           | |- context [if ?b then _ else _] => destruct b
           end;
    try discriminate; try congruence;
    try apply add_then_state_raises; try apply parse_add_char_raises;
    try apply start_field_raises.
Qed.

Lemma feed_chars_raises line : forall self e,
  feed_chars self line = Raise e -> e = CsvError.
Proof.
  induction line as [|c line IH]; intros self e; cbn [feed_chars]; [discriminate|].
  destruct (parse_process_char self (Some c)) as [r|e'] eqn:E; cbn [rbind].
  - apply IH.
  - intros [= <-]. eapply parse_process_char_raises. exact E.
Qed.

Lemma feed_line_raises self line e : feed_line self line = Raise e -> e = CsvError.
Proof.
  unfold feed_line. destruct (feed_chars self line) as [r|e'] eqn:E; cbn [rbind].
  - apply parse_process_char_raises.
  - intros [= <-]. eapply feed_chars_raises. exact E.
Qed.

Lemma read_rows_raises lines : forall self e,
  read_rows self lines = Raise e -> e = CsvError.
Proof.
  induction lines as [|line lines IH]; intros self e; cbn [read_rows].
  - destruct (field self); destruct (state self); discriminate.
  - destruct (feed_line self line) as [r|e'] eqn:E; cbn [rbind].
    2:{ intros [= <-]. eapply feed_line_raises. exact E. }
    destruct (state r); try apply IH.
    destruct (read_rows parse_reset lines) as [rs|e'] eqn:Er; cbn [rbind];
      [discriminate|].
    intros [= <-]. eapply IH. exact Er.
Qed.

Lemma DictReader_raises lines e : DictReader lines = Raise e -> e = CsvError.
Proof.
  unfold DictReader, csv_reader.
  destruct (read_rows parse_reset lines) as [[|header rs]|e'] eqn:E; cbn [rbind];
    try discriminate.
  intros [= <-]. eapply read_rows_raises. exact E.
Qed.

Section Runs.

Variable env : environ.
Variable net : network.
Variable urandom : nat -> N.
Variables event context : pyval.
Variable s3 : s3_state.

(** X8. The ingestion handler changes one object at most, the one under
    the configured bucket and key: every other object of S3, in that bucket
    or another, is after the run what it was before, and no bucket is
    created or removed. *)
Theorem ingestion_touches_only_its_object :
  (forall bucket key,
     (bucket, key) <> (S3_BUCKET_NAME env, JSON_KEY env) ->
     object_at (snd (UrlParser.lambda_handler env net urandom event context s3))
       bucket key
     = object_at s3 bucket key)
  /\ (forall bucket,
        is_Some (snd (UrlParser.lambda_handler env net urandom event context s3)
                 !! bucket)
        <-> is_Some (s3 !! bucket)).
Proof.
  rewrite ingest_run.
  destruct (fetched env net) as [text|]; [|split; reflexivity].
  destruct (DictReader _) as [rows|]; [|split; reflexivity].
  destruct (s3 !! S3_BUCKET_NAME env) as [objects|] eqn:Hb; [|split; reflexivity].
  cbn [snd]. unfold object_at. split.
  - intros bucket key Hne.
    destruct (decide (bucket = S3_BUCKET_NAME env)) as [->|Hbucket].
    + rewrite lookup_insert_eq, Hb. apply lookup_insert_ne. congruence.
    + rewrite lookup_insert_ne by congruence. reflexivity.
  - intros bucket.
    destruct (decide (bucket = S3_BUCKET_NAME env)) as [->|Hbucket].
    + rewrite lookup_insert_eq, Hb. split; eauto.
    + rewrite lookup_insert_ne by congruence. reflexivity.
Qed.

(** X9. What a successful run leaves: the confirmation as result and, under the
    configured key, an object of content type [application/json] whose
    bytes are all ASCII and which the query handler loads as a JSON
    array. *)
Theorem successful_ingestion_stores_ascii_json r :
  fst (UrlParser.lambda_handler env net urandom event context s3) = Ok r ->
  r = {| statusCode := 200;
         body := json_dumps
                   (PStr (lit "CSV successfully processed and stored as JSON in S3"));
         headers := None |}
  /\ exists o records,
       blob env (snd (UrlParser.lambda_handler env net urandom event context s3)) = Some o
       /\ ContentType o = lit "application/json"
       /\ Forall (fun b => Byte.to_N b < 128) (Body o)
       /\ persisted env (snd (UrlParser.lambda_handler env net urandom event context s3))
          = Ok (PList records).
Proof.
  rewrite ingest_run.
  destruct (fetched env net) as [text|] eqn:Hf; [|discriminate].
  destruct (DictReader _) as [rows|] eqn:Hd; [|discriminate].
  destruct (s3 !! S3_BUCKET_NAME env) as [objects|] eqn:Hb; [|discriminate].
  cbn [fst snd]. intros [= <-]. split; [reflexivity|].
  eexists _, _. unfold blob, persisted. rewrite !lookup_insert_eq.
  split; [reflexivity|]. split; [reflexivity|].
  unfold json_object. cbn [Body]. split.
  - apply byte_of_N_small, json_dumps_ascii.
  - rewrite (bytes_decode_ascii _ (json_dumps_ascii _)). cbn [rbind].
    eapply with_ids_reads_back; eassumption.
Qed.

(** X10. Up to the upload a run can fail in four ways only: the request
    raises, the status is from 400 to 599, the body is not UTF-8, or the
    [csv] reader rejects the text; S3 is then as it was. Otherwise the rows
    are read, the JSON text written for them is ASCII, and the run ends as
    its one [put_object] call on that text ends: with the confirmation when
    the call returns, with what the call raises when it raises. *)
Theorem ingestion_fails_early_or_uploads :
  (exists e,
     UrlParser.lambda_handler env net urandom event context s3 = (Raise e, s3)
     /\ (net (CSV_URL env) = Raise e
         \/ exists response,
              net (CSV_URL env) = Ok response
              /\ ((e = HTTPError /\ 400 <= status_code response < 600)
                  \/ (e = UnicodeDecodeError
                      /\ ~ (400 <= status_code response < 600)
                      /\ bytes_decode (content response) = Raise e)
                  \/ (e = CsvError
                      /\ ~ (400 <= status_code response < 600)
                      /\ exists text,
                           bytes_decode (content response) = Ok text
                           /\ DictReader (str_splitlines text) = Raise e))))
  \/ (exists text rows,
        fetched env net = Ok text
        /\ DictReader (str_splitlines text) = Ok rows
        /\ is_ascii (json_dumps (PList (UrlParser.with_ids urandom 0 rows)))
        /\ UrlParser.lambda_handler env net urandom event context s3
           = match put_object (S3_BUCKET_NAME env) (JSON_KEY env)
                     (json_dumps (PList (UrlParser.with_ids urandom 0 rows)))
                     (lit "application/json") s3 with
             | (Ok _, s3') => (Ok confirmation, s3')
             | (Raise e, s3') => (Raise e, s3')
             end).
Proof.
  unfold UrlParser.lambda_handler, bind, lift, ret.
  destruct (net (CSV_URL env)) as [response|e] eqn:Hnet; cbn [rbind];
    [|left; exists e; split; [reflexivity|left; reflexivity]].
  unfold raise_for_status.
  destruct ((400 <=? status_code response) && (status_code response <? 600)) eqn:Es;
    cbn [rbind].
  { left. exists HTTPError. split; [reflexivity|]. right. exists response.
    split; [reflexivity|]. left. split; [reflexivity|].
    apply andb_true_iff in Es as [H1 H2].
    apply N.leb_le in H1. apply N.ltb_lt in H2. split; assumption. }
  assert (Hs : ~ (400 <= status_code response < 600)).
  { intros [H1 H2]. apply N.leb_le in H1. apply N.ltb_lt in H2.
    rewrite H1, H2 in Es. discriminate. }
  destruct (bytes_decode (content response)) as [text|e] eqn:Ed.
  2:{ left. exists e. split; [reflexivity|]. right. exists response.
      split; [reflexivity|]. right. left.
      split; [eapply bytes_decode_raises; exact Ed|]. split; [exact Hs|exact Ed]. }
  destruct (DictReader (str_splitlines text)) as [rows|e] eqn:Er.
  2:{ left. exists e. split; [reflexivity|]. right. exists response.
      split; [reflexivity|]. right. right.
      split; [eapply DictReader_raises; exact Er|]. split; [exact Hs|].
      exists text. split; [exact Ed|exact Er]. }
  right. exists text, rows.
  split; [unfold fetched, raise_for_status; rewrite Hnet; cbn [rbind]; rewrite Es; exact Ed|].
  split; [exact Er|]. split; [apply json_dumps_ascii|].
  cbv beta zeta.
  destruct (put_object _ _ _ _ s3) as [[[]|e] s3']; reflexivity.
Qed.

(** X11. An empty body is not an error: the empty array is stored. *)
Theorem empty_body_gives_empty_array objects :
  fetched env net = Ok [] ->
  s3 !! S3_BUCKET_NAME env = Some objects ->
  UrlParser.lambda_handler env net urandom event context s3 =
  (Ok confirmation,
   <[S3_BUCKET_NAME env := <[JSON_KEY env := json_object (lit "[]")]> objects]> s3).
Proof.
  intros Hf Hb. rewrite ingest_run, Hf, Hb. reflexivity.
Qed.

End Runs.

(** X27. The status is looked at for one thing only, whether it is from 400
    to 599. Two responses with the same body and statuses outside that
    range, whatever they are, are processed alike. *)
Theorem only_error_statuses_matter
  env net net' urandom event context s3 response response' :
  net (CSV_URL env) = Ok response ->
  net' (CSV_URL env) = Ok response' ->
  content response = content response' ->
  ~ 400 <= status_code response < 600 ->
  ~ 400 <= status_code response' < 600 ->
  UrlParser.lambda_handler env net urandom event context s3
  = UrlParser.lambda_handler env net' urandom event context s3.
Proof.
  intros Hnet Hnet' Hcontent Hs Hs'.
  assert (Hok : forall r, ~ 400 <= status_code r < 600 -> raise_for_status r = Ok tt).
  { intros r Hr. unfold raise_for_status.
    destruct (N.leb_spec 400 (status_code r)); [|reflexivity].
    destruct (N.ltb_spec (status_code r) 600); [|reflexivity]. lia. }
  rewrite !ingest_run. unfold fetched.
  rewrite Hnet, Hnet'. cbn [rbind]. rewrite (Hok _ Hs), (Hok _ Hs'), Hcontent.
  reflexivity.
Qed.

(** X12. Each run replaces what the run before it stored: after a second run
    that succeeds, S3 is what it would be had the first run not taken
    place. *)
Theorem second_ingestion_replaces_the_first
  env net1 urandom1 event1 context1 net2 urandom2 event2 context2 s3 r :
  fst (UrlParser.lambda_handler env net2 urandom2 event2 context2 s3) = Ok r ->
  UrlParser.lambda_handler env net2 urandom2 event2 context2
    (snd (UrlParser.lambda_handler env net1 urandom1 event1 context1 s3))
  = UrlParser.lambda_handler env net2 urandom2 event2 context2 s3.
Proof.
  rewrite (ingest_run env net2 urandom2 event2 context2 s3).
  rewrite (ingest_run env net1 urandom1 event1 context1 s3).
  rewrite ingest_run.
  destruct (fetched env net2) as [text2|]; [|discriminate].
  destruct (DictReader (str_splitlines text2)) as [rows2|]; [|discriminate].
  destruct (s3 !! S3_BUCKET_NAME env) as [objects|] eqn:Hb; [|discriminate].
  intros _.
  destruct (fetched env net1) as [text1|]; cbn [snd]; [|rewrite Hb; reflexivity].
  destruct (DictReader (str_splitlines text1)) as [rows1|]; cbn [snd];
    [|rewrite Hb; reflexivity].
  rewrite lookup_insert_eq. f_equal.
  rewrite insert_insert_eq, insert_insert_eq. reflexivity.
Qed.

Lemma dict_set_same_keys d k v1 v2 :
  map fst (dict_set d k v1) = map fst (dict_set d k v2).
Proof.
  destruct (in_dec (decide_rel eq) k (map fst d)) as [H|H].
  - rewrite !dict_set_keys_present by exact H. reflexivity.
  - rewrite !dict_set_keys_absent by exact H. reflexivity.
Qed.

Lemma with_ids_same_but_id urandom1 urandom2 rows : forall n,
  Forall2 same_but_id (UrlParser.with_ids urandom1 n rows)
    (UrlParser.with_ids urandom2 n rows).
Proof.
  induction rows as [|row rows IH]; intros n; cbn [UrlParser.with_ids]; constructor;
    [|apply IH].
  eexists _, _. split; [reflexivity|]. split; [reflexivity|].
  split; [apply dict_set_same_keys|].
  intros k Hk. rewrite !dict_get_set_other by congruence. reflexivity.
Qed.

Lemma with_ids_imap urandom (f : list pystr -> pydict) l : forall n,
  UrlParser.with_ids urandom n (map f l)
  = imap (fun i row => PDict (dict_set (f row) (Some (lit "id"))
                                (PStr (str_uuid4 (urandom (n + i)%nat))))) l.
Proof.
  induction l as [|row l IH]; intros n; cbn [map UrlParser.with_ids imap];
    [reflexivity|].
  rewrite Nat.add_0_r, IH. f_equal. apply imap_ext. intros i x _. unfold compose.
  replace (S n + i)%nat with (n + S i)%nat by lia. reflexivity.
Qed.

Lemma written_records_imap urandom header rows :
  written_records urandom header rows
  = imap (written_record urandom header) (data_rows rows).
Proof. unfold written_records. rewrite with_ids_imap. reflexivity. Qed.

Lemma combine_keys {A B} (a : list A) (b : list B) :
  length a = length b -> map fst (combine a b) = a.
Proof.
  revert b. induction a as [|x a IH]; intros [|y b]; cbn [length combine map fst];
    try discriminate; [reflexivity|].
  intros [= H]. rewrite IH by exact H. reflexivity.
Qed.

Lemma NoDup_Some (l : list pystr) : List.NoDup l -> List.NoDup (map Some l).
Proof.
  intros H. apply (NoDup_map_Some (fun x => x)). rewrite map_id. exact H.
Qed.

Lemma written_regular urandom header i row :
  List.NoDup header -> ~ In (lit "id") header -> length row = length header ->
  written_record urandom header i row = regular_record urandom header i row.
Proof.
  intros Hnd Hid Hlen. unfold written_record, regular_record, DictReader_row.
  rewrite Hlen, Nat.ltb_irrefl.
  assert (Hkeys : map fst (combine (map Some header) (map PStr row)) = map Some header).
  { apply combine_keys. rewrite !length_map. symmetry. exact Hlen. }
  rewrite dict_of_pairs_distinct
    by (unfold pykey; rewrite Hkeys; apply NoDup_Some; exact Hnd).
  rewrite dict_set_absent; [reflexivity|].
  unfold pykey. rewrite Hkeys, in_map_iff. intros (name & [= ->] & Hin). contradiction.
Qed.

Lemma loaded_regular urandom header i row :
  List.NoDup header -> ~ In (lit "id") header -> length row = length header ->
  loaded (regular_record urandom header i row) = regular_record urandom header i row.
Proof.
  intros Hnd Hid Hlen. unfold regular_record. rewrite loaded_dict.
  assert (Hkeys : map fst (combine (map Some header) (map PStr row)) = map Some header).
  { apply combine_keys. rewrite !length_map. symmetry. exact Hlen. }
  assert (Hsame : forall d : pydict,
            Forall (fun kv => (exists s, fst kv = Some s) /\ exists s, snd kv = PStr s) d ->
            map (fun kv => (Some (key_text (fst kv)), loaded (snd kv))) d = d).
  { induction 1 as [|[k x] d [[s Hs] [t Ht]] _ IH]; cbn [map fst snd] in *;
      [reflexivity|].
    subst. rewrite IH. reflexivity. }
  rewrite Hsame.
  - rewrite dict_of_pairs_distinct; [reflexivity|].
    unfold pykey. rewrite map_app, Hkeys. cbn [map fst].
    apply NoDup_snoc; [apply NoDup_Some; exact Hnd|].
    rewrite in_map_iff. intros (name & [= ->] & Hin). contradiction.
  - apply Forall_app_2; [|repeat constructor; cbn [fst snd]; eauto].
    clear. revert row. induction header as [|h header IH]; intros [|c row];
      cbn [map combine]; constructor; [cbn [fst snd]; eauto|apply IH].
Qed.

Lemma written_headerless urandom i row :
  row <> [] -> written_record urandom [] i row = headerless_record urandom i row.
Proof.
  intros Hrow. unfold written_record, headerless_record, DictReader_row.
  destruct row as [|c row]; [congruence|]. reflexivity.
Qed.

Lemma data_rows_not_blank rows row : In row (data_rows rows) -> row <> [].
Proof.
  unfold data_rows. rewrite filter_In. intros [_ H] ->. discriminate.
Qed.

Lemma csv_table_after_blank_line rest rows :
  csv_table rest = Ok rows ->
  csv_table (10 :: rest) = Ok ([] :: rows)
  /\ csv_table (13 :: 10 :: rest) = Ok ([] :: rows).
Proof.
  unfold csv_table, csv_reader, str_splitlines. intros H.
  assert (E : forall lines, read_rows parse_reset lines = Ok rows ->
                read_rows parse_reset ([] :: lines) = Ok ([] :: rows)).
  { intros lines Hl. cbn [read_rows feed_line feed_chars rbind parse_process_char
                            parse_reset state]. rewrite Hl. reflexivity. }
  split.
  - destruct rest as [|c rest]; [injection H as <-; reflexivity|].
    apply E. exact H.
  - apply E. exact H.
Qed.

Section Rows.

Variable env : environ.
Variable net : network.
Variable urandom : nat -> N.
Variables event context : pyval.
Variable s3 : s3_state.
Variable objects : gmap pystr s3_object.

Hypothesis Hbucket : s3 !! S3_BUCKET_NAME env = Some objects.

(** X13. The usual case: the column names are distinct, none is [id], and every
    data row has one cell for each column. Then each stored record lists
    the cells under the column names in the order of the header, followed by
    the identifier, and the query handler loads exactly these records. *)
Theorem regular_rows_are_stored_in_header_order text header rows :
  fetched env net = Ok text ->
  csv_table text = Ok (header :: rows) ->
  List.NoDup header ->
  ~ In (lit "id") header ->
  Forall (fun row => length row = length header) (data_rows rows) ->
  UrlParser.lambda_handler env net urandom event context s3 =
  (Ok confirmation,
   after_ingestion env s3 objects
     (imap (regular_record urandom header) (data_rows rows)))
  /\ persisted env
       (after_ingestion env s3 objects
          (imap (regular_record urandom header) (data_rows rows)))
     = Ok (PList (imap (regular_record urandom header) (data_rows rows))).
Proof.
  intros Hf Ht Hnd Hid Hreg.
  assert (Hw : written_records urandom header rows
               = imap (regular_record urandom header) (data_rows rows)).
  { rewrite written_records_imap. apply imap_ext. intros i row Hi.
    apply written_regular; try assumption.
    rewrite List.Forall_forall in Hreg. apply Hreg.
    apply list_elem_of_In. eapply list_elem_of_lookup_2. exact Hi. }
  rewrite <- Hw. split.
  - eapply ingest_stores; eassumption.
  - rewrite (ingest_persisted env net urandom s3 text header rows objects Hf Ht).
    do 2 f_equal. rewrite Hw. clear Hw.
    rewrite <- (map_id (imap _ _)) at 2. apply map_ext_in. intros r Hr.
    apply list_elem_of_In, elem_of_lookup_imap in Hr as (i & row & -> & Hi).
    apply loaded_regular; try assumption.
    rewrite List.Forall_forall in Hreg. apply Hreg.
    apply list_elem_of_In. eapply list_elem_of_lookup_2. exact Hi.
Qed.

(** X14. A body that begins with an empty line has an empty header: the line
    meant as the header is read as the first data row, and every record
    holds the cells of its row as a list under the key [None], which is
    written [null]. *)
Theorem blank_first_line_is_the_header text rest rows :
  fetched env net = Ok text ->
  text = 10 :: rest \/ text = 13 :: 10 :: rest ->
  csv_table rest = Ok rows ->
  UrlParser.lambda_handler env net urandom event context s3 =
  (Ok confirmation,
   after_ingestion env s3 objects (imap (headerless_record urandom) (data_rows rows))).
Proof.
  intros Hf Htext Hrest.
  assert (Ht : csv_table text = Ok ([] :: rows)).
  { destruct (csv_table_after_blank_line _ _ Hrest) as [H1 H2].
    destruct Htext as [-> | ->]; assumption. }
  rewrite (ingest_stores env net urandom event context s3 text [] rows objects)
    by assumption.
  do 2 f_equal. rewrite written_records_imap. apply imap_ext. intros i row Hi.
  apply written_headerless. apply (data_rows_not_blank rows).
  apply list_elem_of_In. eapply list_elem_of_lookup_2. exact Hi.
Qed.

End Rows.

(** ** The cells of a row, field by field *)

Lemma combine_app_cons {A B} (a1 : list A) (x : A) (a2 : list A) (b : list B) (y : B) :
  nth_error b (length a1) = Some y ->
  combine (a1 ++ x :: a2) b
  = combine a1 (firstn (length a1) b) ++ (x, y) :: combine a2 (skipn (S (length a1)) b).
Proof.
  revert b. induction a1 as [|a a1 IH]; intros [|b0 b]; cbn [length nth_error];
    try discriminate.
  - intros [= ->]. reflexivity.
  - intros H. cbn [app combine firstn skipn]. rewrite (IH b H). reflexivity.
Qed.

Lemma combine_keys_in {A B} (a : list A) (b : list B) k :
  In k (map fst (combine a b)) -> In k a.
Proof.
  rewrite in_map_iff. intros ([x y] & <- & H). apply in_combine_l in H. exact H.
Qed.

Lemma dict_get_last (p1 p2 : pydict) k v :
  ~ In k (map fst p2) -> dict_get (rev (p1 ++ (k, v) :: p2)) k = Some v.
Proof.
  intros Hk. rewrite rev_app_distr. cbn [rev]. rewrite <- app_assoc, dict_get_app.
  assert (Hnone : dict_get (rev p2) k = None).
  { apply dict_get_None. rewrite map_rev, <- in_rev. exact Hk. }
  rewrite Hnone. cbn [app dict_get]. rewrite decide_True by reflexivity. reflexivity.
Qed.

Lemma dict_get_restval_out (l : list pystr) : forall (d : pydict) name,
  ~ In name l ->
  dict_get (fold_left (fun d key => dict_set d (Some key) PNone) l d) (Some name)
  = dict_get d (Some name).
Proof.
  induction l as [|key l IH]; intros d name Hin; cbn [fold_left]; [reflexivity|].
  cbn [In] in Hin. rewrite IH by tauto. apply dict_get_set_other. intros [= E]. tauto.
Qed.

Lemma dict_get_restval_in (l : list pystr) : forall (d : pydict) name,
  In name l ->
  dict_get (fold_left (fun d key => dict_set d (Some key) PNone) l d) (Some name)
  = Some PNone.
Proof.
  induction l as [|key l IH]; intros d name; cbn [fold_left In]; [tauto|].
  destruct (in_dec (decide_rel eq) name l) as [Hin|Hin]; [intros _; apply IH; exact Hin|].
  intros [->|H]; [|contradiction].
  rewrite dict_get_restval_out by exact Hin. apply dict_get_set_same.
Qed.

(** [row[name]] for the last column of that name: the cell in that column,
    or [None] when the row ends before it. *)
Lemma DictReader_row_field pre name post row :
  ~ In name post ->
  dict_get (DictReader_row (pre ++ name :: post) row) (Some name)
  = Some (match nth_error row (length pre) with
          | Some cell => PStr cell
          | None => PNone
          end).
Proof.
  intros Hpost. unfold DictReader_row. cbv zeta.
  rewrite length_app. cbn [length].
  destruct (nth_error row (length pre)) as [cell|] eqn:Hcell.
  - assert (Hlt : (length pre < length row)%nat).
    { apply nth_error_Some. congruence. }
    assert (Hzip : dict_get (dict_of_pairs
                               (combine (map Some (pre ++ name :: post)) (map PStr row)))
                     (Some name) = Some (PStr cell)).
    { rewrite dict_get_of_pairs, map_app. cbn [map].
      rewrite (combine_app_cons _ _ _ _ (PStr cell)).
      2:{ rewrite length_map, nth_error_map, Hcell. reflexivity. }
      apply dict_get_last. intros Hin. apply combine_keys_in in Hin.
      apply in_map_iff in Hin as (x & [= ->] & Hin). contradiction. }
    destruct (Nat.ltb _ _); [rewrite dict_get_set_other by discriminate; exact Hzip|].
    destruct (Nat.ltb _ _); [|exact Hzip].
    rewrite dict_get_restval_out; [exact Hzip|].
    intros Hin. apply Hpost.
    replace (length row) with (length row - S (length pre) + S (length pre))%nat in Hin
      by lia.
    rewrite <- skipn_skipn in Hin.
    replace (skipn (S (length pre)) (pre ++ name :: post)) with post in Hin.
    + rewrite <- (firstn_skipn (length row - S (length pre)) post).
      apply in_or_app. right. exact Hin.
    + replace (S (length pre)) with (length (pre ++ [name])) by (rewrite length_app; cbn; lia).
      change (pre ++ name :: post) with (pre ++ [name] ++ post).
      rewrite app_assoc, skipn_app, skipn_all, Nat.sub_diag. reflexivity.
  - apply nth_error_None in Hcell.
    replace (Nat.ltb (length pre + S (length post)) (length row)) with false
      by (symmetry; apply Nat.ltb_ge; lia).
    replace (Nat.ltb (length row) (length pre + S (length post))) with true
      by (symmetry; apply Nat.ltb_lt; lia).
    rewrite dict_get_restval_in; [reflexivity|].
    rewrite <- (firstn_skipn (length pre - length row) (skipn _ _)).
    apply in_or_app. right. rewrite skipn_skipn.
    replace (length pre - length row + length row)%nat with (length pre) by lia.
    rewrite skipn_app, skipn_all, Nat.sub_diag. left. reflexivity.
Qed.

(** [row[None]]: the cells beyond the header, when there are any. *)
Lemma DictReader_row_rest header row :
  dict_get (DictReader_row header row) None
  = if Nat.ltb (length header) (length row)
    then Some (PList (map PStr (skipn (length header) row)))
    else None.
Proof.
  destruct (Nat.ltb (length header) (length row)) eqn:E.
  - unfold DictReader_row. cbv zeta. rewrite E. apply dict_get_set_same.
  - apply dict_get_None. intros Hin.
    apply DictReader_row_keys in Hin as [(name & Hn & _)|[_ Hlt]]; [discriminate|].
    apply Nat.ltb_ge in E. lia.
Qed.

Section Ragged.

Variable env : environ.
Variable net : network.
Variable urandom : nat -> N.
Variables event context : pyval.
Variable s3 : s3_state.
Variable objects : gmap pystr s3_object.

Hypothesis Hbucket : s3 !! S3_BUCKET_NAME env = Some objects.

(** X15. No row is rejected for its length. In the stored record of a data row,
    a column name other than [id] holds the cell of the last column of that
    name, or [null] when the row ends before that column; the cells beyond
    the header are kept as a list under the key [None], which is absent
    when there are none. *)
Theorem ragged_rows_are_stored text header rows :
  fetched env net = Ok text ->
  csv_table text = Ok (header :: rows) ->
  exists records,
    UrlParser.lambda_handler env net urandom event context s3 =
    (Ok confirmation, after_ingestion env s3 objects records)
    /\ length records = length (data_rows rows)
    /\ forall i row,
         nth_error (data_rows rows) i = Some row ->
         exists d,
           nth_error records i = Some (PDict d)
           /\ (forall pre name post,
                 header = pre ++ name :: post -> ~ In name post -> name <> lit "id" ->
                 dict_get d (Some name)
                 = Some (match nth_error row (length pre) with
                         | Some cell => PStr cell
                         | None => PNone
                         end))
           /\ dict_get d None
              = if Nat.ltb (length header) (length row)
                then Some (PList (map PStr (skipn (length header) row)))
                else None.
Proof.
  intros Hf Ht. exists (written_records urandom header rows).
  split; [eapply ingest_stores; eassumption|].
  split; [apply written_length|].
  intros i row Hrow. eexists. split; [apply written_at; exact Hrow|]. split.
  - intros pre name post -> Hpost Hid.
    rewrite dict_get_set_other by congruence. apply DictReader_row_field. exact Hpost.
  - rewrite dict_get_set_other by discriminate. apply DictReader_row_rest.
Qed.

End Ragged.

(** X16. Two runs on the same CSV source store arrays of the same length whose
    records agree, position by position, on their fields and on every value
    but the [id]; the [id]s at a position are equal only when the two runs
    drew the same UUID there. *)
Theorem ingestion_twice_same_structure
  env net urandom1 urandom2 event1 context1 event2 context2 s3 r :
  fst (UrlParser.lambda_handler env net urandom1 event1 context1 s3) = Ok r ->
  exists objects records1 records2,
    UrlParser.lambda_handler env net urandom1 event1 context1 s3
    = (Ok confirmation, after_ingestion env s3 objects records1)
    /\ UrlParser.lambda_handler env net urandom2 event2 context2
         (after_ingestion env s3 objects records1)
       = (Ok confirmation, after_ingestion env s3 objects records2)
    /\ length records1 = length records2
    /\ Forall2 same_but_id records1 records2
    /\ forall i r1 r2,
         nth_error records1 i = Some r1 -> nth_error records2 i = Some r2 ->
         (record_id r1 = record_id r2 <->
          uuid4_int (urandom1 i) = uuid4_int (urandom2 i)).
Proof.
  rewrite ingest_run.
  destruct (fetched env net) as [text|] eqn:Hf; [|discriminate].
  destruct (DictReader (str_splitlines text)) as [rows|] eqn:Hd; [|discriminate].
  destruct (s3 !! S3_BUCKET_NAME env) as [objects|] eqn:Hb; [|discriminate].
  intros _.
  exists objects, (UrlParser.with_ids urandom1 0 rows), (UrlParser.with_ids urandom2 0 rows).
  split; [reflexivity|]. split.
  { rewrite ingest_run, Hf, Hd. unfold after_ingestion.
    rewrite lookup_insert_eq, insert_insert_eq, insert_insert_eq. reflexivity. }
  split; [rewrite !with_ids_length; reflexivity|].
  split; [apply with_ids_same_but_id|].
  intros i r1 r2. rewrite !with_ids_nth.
  destruct (nth_error rows i) as [row|]; [|discriminate]. cbn [option_map].
  intros [= <-] [= <-]. cbn [record_id]. rewrite !dict_get_set_same. split.
  - intros E. apply Some_PStr_inj, str_uuid4_inj in E. exact E.
  - intros E. unfold str_uuid4. rewrite E. reflexivity.
Qed.

(** X17. After the ingestion of a CSV with at least one data row, every request
    whose [id] parameter can be read is answered: status 200 and one of the
    records of that run. *)
Theorem query_after_ingestion_is_answered
  env net urandom event0 context0 random event context s3 text header rows objects
  item_id :
  fetched env net = Ok text ->
  csv_table text = Ok (header :: rows) ->
  data_rows rows <> [] ->
  s3 !! S3_BUCKET_NAME env = Some objects ->
  id_parameter event = Ok item_id ->
  exists i row,
    nth_error (data_rows rows) i = Some row
    /\ fst (JsonEndpoint.lambda_handler env random event context
              (snd (UrlParser.lambda_handler env net urandom event0 context0 s3)))
       = Ok {| statusCode := 200;
               body := json_dumps (loaded (written_record urandom header i row));
               headers := Some [(lit "Content-Type", lit "application/json")] |}.
Proof.
  intros Hf Ht Hne Hb Hid.
  rewrite (ingest_stores env net urandom event0 context0 s3 text header rows objects)
    by assumption.
  cbn [snd].
  pose proof (ingest_persisted env net urandom s3 text header rows objects Hf Ht) as Hp.
  pose proof (loaded_written_record_set urandom header rows) as Hrs.
  assert (Hnonempty : map loaded (written_records urandom header rows) <> []).
  { intros E. apply (f_equal (@length _)) in E.
    rewrite length_map, written_length in E. destruct (data_rows rows); [congruence|].
    discriminate. }
  assert (Hitem : exists item,
            In item (map loaded (written_records urandom header rows))
            /\ fst (JsonEndpoint.lambda_handler env random event context
                      (after_ingestion env s3 objects (written_records urandom header rows)))
               = Ok (JsonEndpoint.json_response item)).
  { rewrite query_run, Hp, Hid. cbn [fst rbind py_iter]. unfold random_selection.
    destruct (random_choice_list random _ Hnonempty) as (x & Hx & Hchoice).
    destruct (next_match_total _ item_id Hrs) as [item Hitem].
    rewrite Hitem, Hchoice. cbn [rbind].
    destruct (truthy item_id); [|exists x; split; [exact Hx|reflexivity]].
    destruct (truthy item) eqn:Htruthy; [|exists x; split; [exact Hx|reflexivity]].
    exists item. split; [|reflexivity]. eapply next_match_In; eassumption. }
  destruct Hitem as (item & Hin & Hrun).
  apply in_map_iff in Hin as (w & <- & Hw).
  apply In_nth_error in Hw as [i Hi].
  destruct (written_nth _ _ _ _ _ Hi) as (row & Hrow & ->).
  exists i, row. split; [exact Hrow|exact Hrun].
Qed.

(** * Lines and their terminators *)

Lemma splitlines_from_line line : forall cur s,
  unbroken line -> splitlines_from cur (line ++ s) = splitlines_from (cur ++ line) s.
Proof.
  induction line as [|c line IH]; intros cur s Hl; cbn [app].
  - rewrite app_nil_r. reflexivity.
  - inversion Hl as [|? ? Hc Hl']; subst. cbn [splitlines_from]. rewrite Hc.
    rewrite IH by exact Hl'. rewrite <- app_assoc. reflexivity.
Qed.

Lemma splitlines_from_eol eol cur s :
  line_terminator eol -> (eol = [13] -> no_lf_first s) ->
  splitlines_from cur (eol ++ s) = cur :: splitlines_from [] s.
Proof.
  intros [->|(c & -> & Hc)] Hs.
  - reflexivity.
  - cbn [app splitlines_from]. rewrite Hc.
    destruct s as [|c2 s]; [reflexivity|].
    destruct (N.eqb_spec c 13) as [->|Hne]; cbn [andb]; [|reflexivity].
    specialize (Hs eq_refl). cbn [no_lf_first] in Hs.
    apply N.eqb_neq in Hs. rewrite Hs. reflexivity.
Qed.

Lemma unbroken_no_lf_first s : unbroken s -> no_lf_first s.
Proof.
  destruct s as [|c s]; [constructor|]. intros H. inversion H as [|? ? Hc _]; subst.
  cbn [no_lf_first]. intros ->. discriminate.
Qed.

Lemma terminated_no_lf_first lines last :
  Forall unbroken lines -> unbroken last ->
  no_lf_first (terminated [13] lines ++ last).
Proof.
  intros Hl Hlast. destruct Hl as [|line lines Hline _]; cbn [terminated flat_map app].
  - apply unbroken_no_lf_first. exact Hlast.
  - destruct line as [|c line]; cbn [app no_lf_first]; [discriminate|].
    inversion Hline as [|? ? Hc _]; subst. intros ->. discriminate.
Qed.

(** [str.splitlines] gives back the lines of a text, whatever terminator
    they end with, and whether or not the last line is terminated. *)
Lemma str_splitlines_terminated eol lines last :
  line_terminator eol -> Forall unbroken lines -> unbroken last ->
  str_splitlines (terminated eol lines ++ last)
  = lines ++ match last with [] => [] | _ => [last] end.
Proof.
  intros Heol Hl Hlast. unfold str_splitlines.
  induction Hl as [|line lines Hline Hl IH]; cbn [terminated flat_map app].
  - rewrite <- (app_nil_r last) at 1. rewrite splitlines_from_line by exact Hlast.
    cbn [app splitlines_from]. destruct last; reflexivity.
  - fold (terminated eol lines). rewrite <- !app_assoc.
    rewrite splitlines_from_line by exact Hline.
    rewrite splitlines_from_eol; [cbn [app]; rewrite IH; reflexivity|exact Heol|].
    intros ->. apply terminated_no_lf_first; assumption.
Qed.

Lemma terminated_snoc eol lines last :
  terminated eol (lines ++ [last]) = terminated eol lines ++ last ++ eol.
Proof.
  unfold terminated. rewrite flat_map_app. cbn [flat_map]. rewrite app_nil_r.
  reflexivity.
Qed.

Lemma str_splitlines_all_terminated eol lines :
  line_terminator eol -> Forall unbroken lines ->
  str_splitlines (terminated eol lines) = lines.
Proof.
  intros Heol Hl. rewrite <- (app_nil_r (terminated eol lines)).
  rewrite (str_splitlines_terminated eol lines []); [apply app_nil_r|exact Heol|exact Hl|].
  constructor.
Qed.

(** The lines [str.splitlines] gives hold no boundary character. *)
Lemma splitlines_from_unbroken n : forall s cur,
  (length s <= n)%nat -> unbroken cur -> Forall unbroken (splitlines_from cur s).
Proof.
  induction n as [|n IH]; intros s cur Hlen Hcur.
  { destruct s; [|cbn [length] in Hlen; lia]. cbn [splitlines_from].
    destruct cur; repeat constructor; inversion Hcur; assumption. }
  destruct s as [|c s']; cbn [splitlines_from].
  { destruct cur; repeat constructor; inversion Hcur; assumption. }
  cbn [length] in Hlen. destruct (is_linebreak c) eqn:Hc.
  - destruct s' as [|c2 s'']; [repeat constructor; exact Hcur|].
    cbn [length] in Hlen.
    destruct ((c =? 13) && (c2 =? 10)); constructor; try exact Hcur;
      apply IH; try constructor; cbn [length]; lia.
  - apply IH; [lia|]. apply Forall_app_2; [exact Hcur|repeat constructor; exact Hc].
Qed.

Lemma str_splitlines_unbroken s : Forall unbroken (str_splitlines s).
Proof. apply (splitlines_from_unbroken (length s)); [lia|constructor]. Qed.

(** X19. No cell and no column name holds a line break, or any other
    boundary character of [str.splitlines]: the body is cut into lines
    before the [csv] module sees it, so the line breaks inside a quoted cell
    are dropped and the pieces joined. *)
Theorem cells_hold_no_line_break text rows :
  csv_table text = Ok rows -> Forall (Forall unbroken) rows.
Proof.
  apply (csv_reader_keeps (fun c => is_linebreak c = false)).
  apply str_splitlines_unbroken.
Qed.

(** X20. The line terminator does not matter. Two bodies with the same
    lines are stored as the same array whether their lines end in LF,
    CR LF, CR or another boundary character of [str.splitlines], and
    whether or not the last line is terminated. *)
Theorem line_terminators_do_not_matter
  env net net' urandom event context s3 eol eol' lines last :
  line_terminator eol -> line_terminator eol' ->
  Forall unbroken lines -> unbroken last ->
  fetched env net = Ok (terminated eol lines ++ last) ->
  fetched env net' = Ok (terminated eol' lines ++ last)
  \/ (last <> [] /\ fetched env net' = Ok (terminated eol' (lines ++ [last]))) ->
  UrlParser.lambda_handler env net' urandom event context s3
  = UrlParser.lambda_handler env net urandom event context s3.
Proof.
  intros Heol Heol' Hl Hlast Hf Hf'.
  rewrite !ingest_run, Hf.
  rewrite (str_splitlines_terminated eol lines last) by assumption.
  destruct Hf' as [-> | [Hne ->]].
  - rewrite (str_splitlines_terminated eol' lines last) by assumption. reflexivity.
  - rewrite str_splitlines_all_terminated;
      [|exact Heol'|apply Forall_app_2; [exact Hl|repeat constructor; exact Hlast]].
    destruct last; [congruence|reflexivity].
Qed.

(** * What the reader accepts *)

Lemma size_app s t : size (s ++ t) = size s + size t.
Proof. unfold size. rewrite length_app. lia. Qed.

Lemma size_cons c s : size (c :: s) = 1 + size s.
Proof. unfold size. cbn [length]. lia. Qed.

Lemma parse_add_char_fits self c :
  size (field self) < field_limit ->
  parse_add_char self c
  = Ok {| state := state self; fields := fields self; field := field self ++ [c] |}.
Proof.
  intros H. unfold parse_add_char. fold (size (field self)).
  apply N.leb_gt in H. rewrite H. reflexivity.
Qed.

Lemma parse_process_char_accepts self c :
  state self <> EAT_CRNL -> is_newline c = false ->
  size (field self) < field_limit ->
  exists self',
    parse_process_char self (Some c) = Ok self'
    /\ state self' <> EAT_CRNL
    /\ size (field self') <= 1 + size (field self)
    /\ (unquoted (state self) -> c <> quotechar -> unquoted (state self')).
Proof.
  intros Hst Hnl Hfit. unfold parse_process_char, start_field.
  assert (Hadd := parse_add_char_fits self c Hfit).
  assert (Hadd' := parse_add_char_fits (set_state self START_FIELD) c Hfit).
  destruct (state self) eqn:Est; try congruence; rewrite ?Hnl.
  all: repeat match goal with
         | |- context [if ?b then _ else _] => destruct b eqn:?
         end.
  all: rewrite ?Hadd, ?Hadd'; cbn [rbind].
  all: eexists; split; [reflexivity|].
  all: cbn [state field set_state parse_save_field]; rewrite ?Est, ?size_app.
  all: unfold unquoted, size; cbn [length].
  all: repeat split; try congruence; try lia; auto.
  all: try (intros _ Hq; apply N.eqb_neq in Hq; congruence).
  all: try (intros [?|[?|?]]; congruence).
Qed.

Lemma end_of_line_accepts self :
  exists self',
    parse_process_char self None = Ok self'
    /\ state self' <> EAT_CRNL
    /\ size (field self') <= size (field self)
    /\ (unquoted (state self) -> state self' = START_RECORD).
Proof.
  unfold parse_process_char, start_field.
  destruct (state self) eqn:Est.
  all: eexists; split; [reflexivity|].
  all: cbn [state field set_state parse_save_field]; rewrite ?Est.
  all: unfold unquoted, size; cbn [length].
  all: repeat split; try congruence; try lia.
  all: try (intros [?|[?|?]]; congruence).
Qed.

Lemma feed_chars_accepts line : forall self,
  state self <> EAT_CRNL -> Forall (fun c => is_newline c = false) line ->
  size (field self) + size line <= field_limit ->
  exists self',
    feed_chars self line = Ok self'
    /\ state self' <> EAT_CRNL
    /\ size (field self') <= size (field self) + size line
    /\ (unquoted (state self) -> ~ In quotechar line -> unquoted (state self')).
Proof.
  induction line as [|c line IH]; intros self Hst Hnl Hfit; cbn [feed_chars].
  - exists self. repeat split; [exact Hst|unfold size; cbn [length]; lia|tauto].
  - inversion Hnl as [|? ? Hc Hnl']; subst. rewrite size_cons in Hfit.
    destruct (parse_process_char_accepts self c Hst Hc) as (r & -> & Hr & Hsize & Hq);
      [lia|].
    cbn [rbind]. destruct (IH r Hr Hnl') as (self' & -> & Hst' & Hsize' & Hq'); [lia|].
    exists self'. split; [reflexivity|]. split; [exact Hst'|].
    split; [rewrite size_cons; lia|].
    intros Hu Hin. cbn [In] in Hin. apply Hq'; [apply Hq|]; tauto.
Qed.

Lemma feed_line_accepts line self :
  state self <> EAT_CRNL -> Forall (fun c => is_newline c = false) line ->
  size (field self) + size line <= field_limit ->
  exists self',
    feed_line self line = Ok self'
    /\ state self' <> EAT_CRNL
    /\ size (field self') <= size (field self) + size line
    /\ (unquoted (state self) -> ~ In quotechar line -> state self' = START_RECORD).
Proof.
  intros Hst Hnl Hfit. unfold feed_line.
  destruct (feed_chars_accepts line self Hst Hnl Hfit) as (r & -> & Hr & Hsize & Hq).
  cbn [rbind]. destruct (end_of_line_accepts r) as (self' & -> & Hst' & Hsize' & Hq').
  exists self'. split; [reflexivity|]. split; [exact Hst'|]. split; [lia|].
  intros Hu Hin. apply Hq', Hq; assumption.
Qed.

Lemma unbroken_no_newline line :
  unbroken line -> Forall (fun c => is_newline c = false) line.
Proof.
  apply List.Forall_impl. intros c Hc. unfold is_newline.
  destruct (N.eqb_spec c 10) as [->|_]; [discriminate|].
  destruct (N.eqb_spec c 13) as [->|_]; [discriminate|]. reflexivity.
Qed.

(** A text within the field limit is read, whatever its quotes. *)
Lemma read_rows_accepts_short lines : forall self,
  state self <> EAT_CRNL -> Forall unbroken lines ->
  size (field self) + size (concat lines) <= field_limit ->
  exists rows, read_rows self lines = Ok rows.
Proof.
  induction lines as [|line lines IH]; intros self Hst Hl Hfit; cbn [read_rows].
  - destruct (field self); destruct (state self); eauto.
  - inversion Hl as [|? ? Hline Hl']; subst. cbn [concat] in Hfit.
    rewrite size_app in Hfit.
    destruct (feed_line_accepts line self Hst (unbroken_no_newline _ Hline))
      as (r & -> & Hr & Hsize & _); [lia|].
    cbn [rbind].
    assert (Hreset : exists rows, read_rows parse_reset lines = Ok rows).
    { apply IH; [discriminate|exact Hl'|]. unfold size at 1. cbn [parse_reset field length].
      lia. }
    assert (Hgo : exists rows, read_rows r lines = Ok rows).
    { apply IH; [exact Hr|exact Hl'|lia]. }
    destruct (state r); try exact Hgo.
    destruct Hreset as [rows ->]. cbn [rbind]. eauto.
Qed.

(** A text without quotes is read line by line: its lines have to be within
    the field limit. *)
Lemma read_rows_accepts_plain lines :
  Forall unbroken lines ->
  Forall (fun line => ~ In quotechar line) lines ->
  Forall (fun line => size line <= field_limit) lines ->
  exists rows, read_rows parse_reset lines = Ok rows.
Proof.
  intros Hl. induction Hl as [|line lines Hline Hl IH]; intros Hq Hsize;
    cbn [read_rows]; [eauto|].
  inversion Hq as [|? ? Hq0 Hq']; subst. inversion Hsize as [|? ? Hs0 Hs']; subst.
  destruct (feed_line_accepts line parse_reset) as (r & -> & _ & _ & Hstart);
    [discriminate|apply unbroken_no_newline; exact Hline| |].
  { unfold size at 1. cbn [parse_reset field length]. lia. }
  cbn [rbind]. rewrite Hstart; [|left; reflexivity|exact Hq0].
  destruct (IH Hq' Hs') as [rows ->]. cbn [rbind]. eauto.
Qed.

Lemma splitlines_from_size n : forall s cur,
  (length s <= n)%nat ->
  size (concat (splitlines_from cur s)) <= size cur + size s.
Proof.
  induction n as [|n IH]; intros s cur Hlen.
  { destruct s; [|cbn [length] in Hlen; lia]. cbn [splitlines_from].
    destruct cur; cbn [concat]; rewrite ?app_nil_r; unfold size; cbn [length]; lia. }
  destruct s as [|c s']; cbn [splitlines_from].
  { destruct cur; cbn [concat]; rewrite ?app_nil_r; unfold size; cbn [length]; lia. }
  cbn [length] in Hlen. rewrite size_cons. destruct (is_linebreak c).
  - destruct s' as [|c2 s'']; [cbn [concat]; rewrite app_nil_r; lia|].
    cbn [length] in Hlen. rewrite size_cons.
    destruct ((c =? 13) && (c2 =? 10)); cbn [concat]; rewrite size_app.
    + pose proof (IH s'' [] ltac:(lia)) as H. unfold size at 2 in H.
      cbn [length] in H. lia.
    + pose proof (IH (c2 :: s'') [] ltac:(cbn [length]; lia)) as H.
      rewrite size_cons in H. unfold size at 2 in H. cbn [length] in H. lia.
  - pose proof (IH s' (cur ++ [c]) ltac:(lia)) as H. rewrite size_app in H.
    unfold size at 3 in H. cbn [length] in H. lia.
Qed.

Lemma str_splitlines_size s : size (concat (str_splitlines s)) <= size s.
Proof.
  pose proof (splitlines_from_size (length s) s [] (le_n _)) as H.
  unfold size at 2 in H. cbn [length] in H. exact H.
Qed.

Lemma DictReader_accepts lines rows :
  csv_reader lines = Ok rows -> exists dicts, DictReader lines = Ok dicts.
Proof.
  unfold DictReader. intros ->. cbn [rbind]. destruct rows; eauto.
Qed.

(** X21. The [csv] reader is lenient: it rejects a text only for a field
    beyond its size limit of 131072 characters. So a body of at most that
    many characters is always accepted, and so is a body without double
    quotes whose lines are each within the limit: with a status outside
    400 to 599, a UTF-8 body and the bucket in place, the run succeeds. *)
Theorem ingestion_accepts_csv_text env net urandom event context s3 objects text :
  fetched env net = Ok text ->
  s3 !! S3_BUCKET_NAME env = Some objects ->
  size text <= field_limit
  \/ (~ In quotechar text
      /\ Forall (fun line => size line <= field_limit) (str_splitlines text)) ->
  fst (UrlParser.lambda_handler env net urandom event context s3) = Ok confirmation.
Proof.
  intros Hf Hb Htext. rewrite ingest_run, Hf.
  assert (Hrows : exists rows, csv_reader (str_splitlines text) = Ok rows).
  { destruct Htext as [Hshort|[Hq Hlines]].
    - apply read_rows_accepts_short; [discriminate|apply str_splitlines_unbroken|].
      pose proof (str_splitlines_size text). unfold size at 1.
      cbn [parse_reset field length]. lia.
    - apply read_rows_accepts_plain; [apply str_splitlines_unbroken| |exact Hlines].
      assert (Hq' : Forall (fun c => c <> quotechar) text).
      { apply List.Forall_forall. intros c Hc ->. contradiction. }
      apply (str_splitlines_keeps (fun c => c <> quotechar)) in Hq'.
      eapply List.Forall_impl; [|exact Hq']. intros line Hline Hin.
      rewrite List.Forall_forall in Hline. exact (Hline _ Hin eq_refl). }
  destruct Hrows as [rows Hrows].
  destruct (DictReader_accepts _ _ Hrows) as [dicts ->]. rewrite Hb. reflexivity.
Qed.

(** * What the reader rejects *)

Lemma plain_char_facts c :
  plain_char c = true ->
  is_linebreak c = false /\ is_newline c = false
  /\ (c =? quotechar) = false /\ (c =? delimiter) = false.
Proof.
  unfold plain_char. intros H.
  apply andb_true_iff in H as [H Hd]. apply andb_true_iff in H as [Hl Hq].
  apply negb_true_iff in Hl, Hq, Hd. repeat split; try assumption.
  unfold is_newline. destruct (N.eqb_spec c 10) as [->|_]; [discriminate|].
  destruct (N.eqb_spec c 13) as [->|_]; [discriminate|]. reflexivity.
Qed.

Lemma parse_add_char_inv self c r :
  parse_add_char self c = Ok r ->
  size (field self) < field_limit /\ field r = field self ++ [c]
  /\ state r = state self.
Proof.
  unfold parse_add_char. fold (size (field self)).
  destruct (N.leb_spec field_limit (size (field self))); [discriminate|].
  intros [= <-]. repeat split. assumption.
Qed.

(** A plain character is added to the field being read, in every state. *)
Lemma parse_process_char_plain self c r :
  state self <> EAT_CRNL -> plain_char c = true ->
  parse_process_char self (Some c) = Ok r ->
  state r <> EAT_CRNL /\ size (field r) = size (field self) + 1
  /\ size (field self) < field_limit.
Proof.
  intros Hst Hc. apply plain_char_facts in Hc as (_ & Hnl & Hq & Hd).
  unfold parse_process_char, start_field.
  destruct (state self) eqn:Est; try congruence; rewrite ?Hnl, ?Hq, ?Hd.
  all: match goal with
       | |- context [parse_add_char ?s ?x] =>
           destruct (parse_add_char s x) as [r'|] eqn:Ea; [|discriminate];
           apply parse_add_char_inv in Ea as (Hlt & Hf & Hs)
       end.
  all: cbn [rbind]; intros [= <-]; cbn [state field set_state] in *.
  all: rewrite ?Hf, ?Hs, ?Est, ?size_app; unfold size at 2; cbn [length].
  all: repeat split; try congruence; try lia.
Qed.

Lemma feed_chars_plain run : forall self r,
  state self <> EAT_CRNL -> forallb plain_char run = true ->
  feed_chars self run = Ok r ->
  state r <> EAT_CRNL /\ size (field r) = size (field self) + size run
  /\ (run <> [] -> size (field r) <= field_limit).
Proof.
  induction run as [|c run IH]; intros self r Hst Hrun; cbn [feed_chars].
  - intros [= <-]. unfold size at 3. cbn [length].
    repeat split; [exact Hst|lia|congruence].
  - cbn [forallb] in Hrun. apply andb_true_iff in Hrun as [Hc Hrun].
    destruct (parse_process_char self (Some c)) as [r0|] eqn:E; [|discriminate].
    cbn [rbind]. intros Hr.
    destruct (parse_process_char_plain _ _ _ Hst Hc E) as (Hst0 & Hs0 & Hlt).
    destruct (IH _ _ Hst0 Hrun Hr) as (Hst' & Hs' & Hle).
    rewrite size_cons. repeat split; [exact Hst'|lia|]. intros _.
    destruct run as [|c' run']; [|apply Hle; discriminate].
    cbn [feed_chars] in Hr. injection Hr as <-. lia.
Qed.

Lemma feed_chars_app a : forall self b,
  feed_chars self (a ++ b) = (let* r := feed_chars self a in feed_chars r b)%R.
Proof.
  induction a as [|c a IH]; intros self b; cbn [app feed_chars rbind]; [reflexivity|].
  destruct (parse_process_char self (Some c)) as [r|]; cbn [rbind]; [apply IH|reflexivity].
Qed.

Lemma parse_process_char_state self c r :
  state self <> EAT_CRNL -> is_newline c = false ->
  parse_process_char self (Some c) = Ok r -> state r <> EAT_CRNL.
Proof.
  intros Hst Hnl. unfold parse_process_char, start_field.
  destruct (state self) eqn:Est; try congruence; rewrite ?Hnl.
  all: repeat match goal with
         | |- context [if ?b then _ else _] => destruct b eqn:?
         end.
  all: try match goal with
       | |- context [parse_add_char ?s ?x] =>
           destruct (parse_add_char s x) as [r'|] eqn:Ea; [|discriminate];
           apply parse_add_char_inv in Ea as (Hlt & Hf & Hs)
       end.
  all: cbn [rbind]; intros [= <-]; cbn [state set_state parse_save_field] in *;
    congruence.
Qed.

Lemma feed_chars_state line : forall self r,
  state self <> EAT_CRNL -> Forall (fun c => is_newline c = false) line ->
  feed_chars self line = Ok r -> state r <> EAT_CRNL.
Proof.
  induction line as [|c line IH]; intros self r Hst Hl; cbn [feed_chars].
  - intros [= <-]. exact Hst.
  - inversion Hl as [|? ? Hc Hl']; subst.
    destruct (parse_process_char self (Some c)) as [r0|] eqn:E; [|discriminate].
    cbn [rbind]. apply IH; [|exact Hl'].
    eapply parse_process_char_state; eassumption.
Qed.

Lemma feed_line_state self line r :
  feed_line self line = Ok r -> state r <> EAT_CRNL.
Proof.
  unfold feed_line. destruct (feed_chars self line) as [r0|]; [|discriminate].
  cbn [rbind]. destruct (end_of_line_accepts r0) as (r1 & E & H & _).
  rewrite E. intros [= <-]. exact H.
Qed.

(** A line with a run of plain characters longer than the field limit is
    not read. *)
Lemma feed_line_oversized self a run b :
  state self <> EAT_CRNL -> unbroken a ->
  forallb plain_char run = true -> field_limit < size run ->
  feed_line self (a ++ run ++ b) = Raise CsvError.
Proof.
  intros Hst Ha Hrun Hbig.
  destruct (feed_line self (a ++ run ++ b)) as [r|e] eqn:E.
  2:{ apply feed_line_raises in E. congruence. }
  exfalso. unfold feed_line in E. rewrite !feed_chars_app in E.
  destruct (feed_chars self a) as [ra|] eqn:Ea; cbn [rbind] in E; [|discriminate].
  rewrite feed_chars_app in E.
  destruct (feed_chars ra run) as [rr|] eqn:Er; cbn [rbind] in E; [|discriminate].
  pose proof (feed_chars_state _ _ _ Hst (unbroken_no_newline _ Ha) Ea) as Hsta.
  destruct (feed_chars_plain _ _ _ Hsta Hrun Er) as (_ & Hs & Hle).
  assert (Hne : run <> []).
  { intros ->. unfold size in Hbig. cbn [length] in Hbig. lia. }
  specialize (Hle Hne). lia.
Qed.

Lemma read_rows_oversized ls1 a run b ls2 : forall self,
  state self <> EAT_CRNL -> Forall unbroken ls1 -> unbroken a ->
  forallb plain_char run = true -> field_limit < size run ->
  read_rows self (ls1 ++ (a ++ run ++ b) :: ls2) = Raise CsvError.
Proof.
  induction ls1 as [|line ls1 IH]; intros self Hst Hl Ha Hrun Hbig;
    cbn [app read_rows].
  - rewrite feed_line_oversized by assumption. reflexivity.
  - inversion Hl as [|? ? Hline Hl']; subst.
    destruct (feed_line self line) as [r|e] eqn:E; cbn [rbind].
    2:{ apply feed_line_raises in E. congruence. }
    pose proof (feed_line_state _ _ _ E) as Hr.
    assert (Hgo : read_rows r (ls1 ++ (a ++ run ++ b) :: ls2) = Raise CsvError)
      by (apply IH; assumption).
    destruct (state r); try exact Hgo.
    rewrite IH by (try assumption; discriminate). reflexivity.
Qed.

Lemma splitlines_from_first s : forall cur,
  cur <> [] -> exists b ls, splitlines_from cur s = (cur ++ b) :: ls.
Proof.
  induction s as [|c s IH]; intros cur Hcur; cbn [splitlines_from].
  - exists [], []. rewrite app_nil_r. destruct cur; [congruence|reflexivity].
  - destruct (is_linebreak c).
    + destruct s as [|c2 s]; [|destruct ((c =? 13) && (c2 =? 10))];
        eexists [], _; rewrite app_nil_r; reflexivity.
    + destruct (IH (cur ++ [c])) as (b & ls & ->); [destruct cur; discriminate|].
      exists (c :: b), ls. rewrite <- app_assoc. reflexivity.
Qed.

Lemma plain_unbroken run : forallb plain_char run = true -> unbroken run.
Proof.
  intros H. apply List.Forall_forall. intros c Hc.
  rewrite forallb_forall in H. apply plain_char_facts, H, Hc.
Qed.

(** The line of a run of plain characters. *)
Lemma splitlines_from_run n run rest : forall pre cur,
  (length pre <= n)%nat -> unbroken cur -> run <> [] -> unbroken run ->
  exists ls1 a b ls2,
    splitlines_from cur (pre ++ run ++ rest) = ls1 ++ (a ++ run ++ b) :: ls2
    /\ Forall unbroken ls1 /\ unbroken a.
Proof.
  induction n as [|n IH]; intros pre cur Hlen Hcur Hne Hrun.
  { destruct pre; [|cbn [length] in Hlen; lia]. cbn [app].
    rewrite splitlines_from_line by exact Hrun.
    destruct (splitlines_from_first rest (cur ++ run)) as (b & ls & ->).
    { destruct cur; [cbn [app]; exact Hne|discriminate]. }
    exists [], cur, b, ls. rewrite <- app_assoc. repeat split; [constructor|exact Hcur]. }
  destruct pre as [|c pre].
  { apply (IH []); [cbn [length]; lia|assumption..]. }
  cbn [length] in Hlen. cbn [app splitlines_from].
  destruct (is_linebreak c) eqn:Hc.
  - assert (Hnext : forall pre', (length pre' <= n)%nat ->
              exists ls1 a b ls2,
                cur :: splitlines_from [] (pre' ++ run ++ rest)
                = ls1 ++ (a ++ run ++ b) :: ls2
                /\ Forall unbroken ls1 /\ unbroken a).
    { intros pre' Hlen'.
      destruct (IH pre' [] Hlen' ltac:(constructor) Hne Hrun)
        as (ls1 & a & b & ls2 & -> & Hls1 & Ha).
      exists (cur :: ls1), a, b, ls2. repeat split; [constructor|]; assumption. }
    destruct pre as [|c2 pre].
    + cbn [app]. destruct run as [|r0 run']; [congruence|]. cbn [app].
      inversion Hrun as [|? ? Hr0 _]; subst.
      replace ((c =? 13) && (r0 =? 10)) with false.
      * apply (Hnext []). cbn [length]. lia.
      * symmetry. apply andb_false_iff. right. apply N.eqb_neq. intros ->. discriminate.
    + cbn [app length] in *. destruct ((c =? 13) && (c2 =? 10)).
      * apply (Hnext pre). lia.
      * apply (Hnext (c2 :: pre)). cbn [length]. lia.
  - apply IH; [lia| |assumption..].
    apply Forall_app_2; [exact Hcur|repeat constructor; exact Hc].
Qed.

(** X22. A field beyond the size limit is the one thing the [csv] reader
    rejects: a body with a run of more than 131072 characters without a
    comma, a double quote or a line break makes the run fail with the
    reader's [Error], and nothing is stored. *)
Theorem oversized_field_is_rejected env net urandom event context s3 pre run rest :
  fetched env net = Ok (pre ++ run ++ rest) ->
  forallb plain_char run = true ->
  field_limit < size run ->
  UrlParser.lambda_handler env net urandom event context s3 = (Raise CsvError, s3).
Proof.
  intros Hf Hrun Hbig. rewrite ingest_run, Hf.
  assert (Hne : run <> []).
  { intros ->. unfold size in Hbig. cbn [length] in Hbig. lia. }
  destruct (splitlines_from_run (length pre) run rest pre [] (le_n _)
              ltac:(constructor) Hne (plain_unbroken _ Hrun))
    as (ls1 & a & b & ls2 & Hlines & Hls1 & Ha).
  unfold DictReader, csv_reader, str_splitlines. rewrite Hlines.
  rewrite read_rows_oversized; try assumption; [reflexivity|discriminate].
Qed.

(** * The shape of an identifier *)

Lemma hex_digit_lower d : d < 16 -> is_hex_lower (hex_digit d) = true.
Proof.
  intros H. unfold hex_digit, is_hex_lower.
  destruct (N.ltb_spec d 10).
  - apply orb_true_iff. left. apply andb_true_iff. split; apply N.leb_le; lia.
  - apply orb_true_iff. right. apply andb_true_iff. split; apply N.leb_le; lia.
Qed.

Lemma uuid4_int_testbit random n :
  N.testbit (uuid4_int random) n
  = ((N.testbit (random mod 2 ^ 128) n && negb (N.testbit (N.shiftl 0xc000 48) n)
      || N.testbit (N.shiftl 0x8000 48) n)
     && negb (N.testbit (N.shiftl 0xf000 64) n))
    || N.testbit (N.shiftl 4 76) n.
Proof.
  unfold uuid4_int. cbv zeta.
  rewrite N.lor_spec, N.ldiff_spec, N.lor_spec, N.ldiff_spec. reflexivity.
Qed.

(** The bits of a hexadecimal digit of a number. *)
Lemma nibble_testbit x n i :
  N.testbit ((x / 2 ^ n) mod 2 ^ 4) i
  = if i <? 4 then N.testbit x (i + n) else false.
Proof.
  destruct (N.ltb_spec i 4).
  - rewrite N.mod_pow2_bits_low by assumption. apply N.div_pow2_bits.
  - apply N.mod_pow2_bits_high. assumption.
Qed.

Lemma below_16 d : d < 16 ->
  d = 0 \/ d = 1 \/ d = 2 \/ d = 3 \/ d = 4 \/ d = 5 \/ d = 6 \/ d = 7 \/ d = 8
  \/ d = 9 \/ d = 10 \/ d = 11 \/ d = 12 \/ d = 13 \/ d = 14 \/ d = 15.
Proof. lia. Qed.

(** The version digit is 4. *)
Lemma uuid4_version random : (uuid4_int random / 2 ^ 76) mod 2 ^ 4 = 4.
Proof.
  assert (Hlt : (uuid4_int random / 2 ^ 76) mod 2 ^ 4 < 16)
    by (apply N.mod_lt; discriminate).
  assert (H0 := nibble_testbit (uuid4_int random) 76 0).
  assert (H1 := nibble_testbit (uuid4_int random) 76 1).
  assert (H2 := nibble_testbit (uuid4_int random) 76 2).
  assert (H3 := nibble_testbit (uuid4_int random) 76 3).
  rewrite uuid4_int_testbit in H0, H1, H2, H3.
  generalize dependent ((uuid4_int random / 2 ^ 76) mod 2 ^ 4). intros d Hlt.
  change (N.testbit (N.shiftl 61440 64) (0 + 76)) with true.
  change (N.testbit (N.shiftl 61440 64) (1 + 76)) with true.
  change (N.testbit (N.shiftl 61440 64) (2 + 76)) with true.
  change (N.testbit (N.shiftl 61440 64) (3 + 76)) with true.
  change (N.testbit (N.shiftl 4 76) (0 + 76)) with false.
  change (N.testbit (N.shiftl 4 76) (1 + 76)) with false.
  change (N.testbit (N.shiftl 4 76) (2 + 76)) with true.
  change (N.testbit (N.shiftl 4 76) (3 + 76)) with false.
  rewrite !andb_false_r, !orb_false_l. cbn [orb]. change (0 <? 4) with true.
  change (1 <? 4) with true. change (2 <? 4) with true. change (3 <? 4) with true.
  cbv iota. intros H0 H1 H2 H3.
  destruct (below_16 d Hlt) as
    [->|[->|[->|[->|[->|[->|[->|[->|[->|[->|[->|[->|[->|[->|[->| ->]]]]]]]]]]]]]]];
    try reflexivity; vm_compute in H0, H1, H2, H3; congruence.
Qed.

(** The variant digit is 8, 9, a or b. *)
Lemma uuid4_variant random :
  8 <= (uuid4_int random / 2 ^ 60) mod 2 ^ 4 <= 11.
Proof.
  assert (Hlt : (uuid4_int random / 2 ^ 60) mod 2 ^ 4 < 16)
    by (apply N.mod_lt; discriminate).
  assert (H2 := nibble_testbit (uuid4_int random) 60 2).
  assert (H3 := nibble_testbit (uuid4_int random) 60 3).
  rewrite uuid4_int_testbit in H2, H3.
  generalize dependent ((uuid4_int random / 2 ^ 60) mod 2 ^ 4). intros d Hlt.
  change (N.testbit (N.shiftl 49152 48) (2 + 60)) with true.
  change (N.testbit (N.shiftl 49152 48) (3 + 60)) with true.
  change (N.testbit (N.shiftl 32768 48) (2 + 60)) with false.
  change (N.testbit (N.shiftl 32768 48) (3 + 60)) with true.
  change (N.testbit (N.shiftl 61440 64) (2 + 60)) with false.
  change (N.testbit (N.shiftl 61440 64) (3 + 60)) with false.
  change (N.testbit (N.shiftl 4 76) (2 + 60)) with false.
  change (N.testbit (N.shiftl 4 76) (3 + 60)) with false.
  cbn [negb]. rewrite !andb_false_r, !andb_true_r, !orb_false_r, !orb_true_r.
  cbn [orb]. change (2 <? 4) with true. change (3 <? 4) with true. cbv iota.
  intros H2 H3.
  destruct (below_16 d Hlt) as
    [->|[->|[->|[->|[->|[->|[->|[->|[->|[->|[->|[->|[->|[->|[->| ->]]]]]]]]]]]]]]];
    try lia; vm_compute in H2, H3; congruence.
Qed.

Lemma uuid4_version_digit random :
  (uuid4_int random / 16 / 16 / 16 / 16 / 16 / 16 / 16 / 16 / 16 / 16
   / 16 / 16 / 16 / 16 / 16 / 16 / 16 / 16 / 16) mod 16 = 4.
Proof.
  rewrite !N.Div0.div_div. exact (uuid4_version random).
Qed.

Lemma uuid4_variant_digit random :
  8 <= (uuid4_int random / 16 / 16 / 16 / 16 / 16 / 16 / 16 / 16
        / 16 / 16 / 16 / 16 / 16 / 16 / 16) mod 16 <= 11.
Proof.
  rewrite !N.Div0.div_div. exact (uuid4_variant random).
Qed.

Lemma variant_char d :
  8 <= d <= 11 ->
  (hex_digit d =? 56) || (hex_digit d =? 57) || (hex_digit d =? 97)
  || (hex_digit d =? 98) = true.
Proof.
  intros H.
  assert (Hd : d = 8 \/ d = 9 \/ d = 10 \/ d = 11) by lia.
  destruct Hd as [->|[->|[->| ->]]]; reflexivity.
Qed.

(** The text of every identifier drawn is that of a version 4 UUID. *)
Lemma str_uuid4_text random : uuid4_text (str_uuid4 random) = true.
Proof.
  unfold uuid4_text, str_uuid4, uuid_str. cbv zeta. change (lit "-") with [45].
  cbn [hex_digits app firstn skipn uuid4_chars uuid4_char_ok].
  rewrite !hex_digit_lower by (apply N.mod_lt; discriminate).
  rewrite uuid4_version_digit, (variant_char _ (uuid4_variant_digit random)).
  reflexivity.
Qed.

Lemma with_ids_uuid4 urandom rows : forall n,
  Forall (fun record => exists d s,
            record = PDict d /\ dict_get d (Some (lit "id")) = Some (PStr s)
            /\ uuid4_text s = true)
    (UrlParser.with_ids urandom n rows).
Proof.
  induction rows as [|row rows IH]; intros n; cbn [UrlParser.with_ids]; constructor;
    [|apply IH].
  eexists _, _. split; [reflexivity|]. split; [apply dict_get_set_same|].
  apply str_uuid4_text.
Qed.

(** X23. Every identifier a run assigns is the canonical text of a version 4
    UUID: 36 characters, lower-case hexadecimal digits in groups of 8, 4, 4,
    4 and 12 separated by dashes, the third group starting with [4] and the
    fourth with [8], [9], [a] or [b]. *)
Theorem assigned_ids_are_uuid4_texts env net urandom event context s3 r :
  fst (UrlParser.lambda_handler env net urandom event context s3) = Ok r ->
  exists objects records,
    UrlParser.lambda_handler env net urandom event context s3
    = (Ok confirmation, after_ingestion env s3 objects records)
    /\ Forall (fun record => exists d s,
                 record = PDict d /\ dict_get d (Some (lit "id")) = Some (PStr s)
                 /\ uuid4_text s = true) records.
Proof.
  rewrite ingest_run.
  destruct (fetched env net) as [text|]; [|discriminate].
  destruct (DictReader (str_splitlines text)) as [dicts|]; [|discriminate].
  destruct (s3 !! S3_BUCKET_NAME env) as [objects|]; [|discriminate].
  intros _. exists objects, (UrlParser.with_ids urandom 0 dicts).
  split; [reflexivity|apply with_ids_uuid4].
Qed.

(** * Bodies that are not UTF-8 *)

Lemma is_cont_high b : is_cont b = true -> 0x80 <= b.
Proof.
  unfold is_cont. intros H. apply N.eqb_eq in H.
  apply (f_equal (fun x => N.testbit x 7)) in H. rewrite N.land_spec in H.
  change (N.testbit 192 7) with true in H. change (N.testbit 128 7) with true in H.
  rewrite andb_true_r in H. apply N.testbit_true in H.
  destruct (N.le_gt_cases 0x80 b) as [Hle|Hlt]; [exact Hle|].
  change (2 ^ 7) with 128 in H. rewrite N.div_small in H by exact Hlt. discriminate.
Qed.

Lemma is_cont_low b : is_cont b = true -> b < 256 -> b < 0xC0.
Proof.
  unfold is_cont. intros H Hb. apply N.eqb_eq in H.
  apply (f_equal (fun x => N.testbit x 6)) in H. rewrite N.land_spec in H.
  change (N.testbit 192 6) with true in H. change (N.testbit 128 6) with false in H.
  rewrite andb_true_r in H.
  destruct (N.le_gt_cases 0xC0 b) as [Hle|Hlt]; [|exact Hlt]. exfalso.
  assert (Hbit : N.testbit b 6 = true).
  { apply N.testbit_true. change (2 ^ 6) with 64.
    assert (Hq : b / 64 = 3).
    { symmetry. apply (N.div_unique b 64 3 (b - 192)); lia. }
    rewrite Hq. reflexivity. }
  congruence.
Qed.

(** A byte from [0xC0] on starts a sequence or is invalid, and what follows
    the start of a sequence is no ASCII byte: the pair is not UTF-8 wherever
    it stands. *)
Lemma bytes_decode_N_lead_then_ascii n : forall pre b a post,
  (length pre <= n)%nat -> 0xC0 <= b < 256 -> a < 0x80 ->
  bytes_decode_N (pre ++ b :: a :: post) = Raise UnicodeDecodeError.
Proof.
  induction n as [|n IH]; intros pre b a post Hlen Hb Ha.
  - destruct pre; [|cbn [length] in Hlen; lia]. cbn [app bytes_decode_N].
    assert (Hca : is_cont a = false).
    { destruct (is_cont a) eqn:E; [|reflexivity]. apply is_cont_high in E. lia. }
    replace (b <? 0x80) with false by (symmetry; apply N.ltb_ge; lia).
    rewrite Hca. cbn [andb].
    repeat match goal with
           | |- context [if ?c then _ else _] => destruct c
           | |- context [match ?l with [] => _ | _ :: _ => _ end] => destruct l
           end; reflexivity.
  - destruct pre as [|p pre]; [apply (IH []); [cbn [length]; lia|assumption..]|].
    cbn [length] in Hlen.
    assert (Hcb : is_cont b = false).
    { destruct (is_cont b) eqn:E; [|reflexivity]. apply is_cont_low in E; lia. }
    assert (Hrec : forall pre', (length pre' <= n)%nat ->
              bytes_decode_N (pre' ++ b :: a :: post) = Raise UnicodeDecodeError).
    { intros pre' Hlen'. apply IH; assumption. }
    cbn [app bytes_decode_N].
    destruct (p <? 0x80).
    { rewrite Hrec by lia. reflexivity. }
    assert (Hca : is_cont a = false).
    { destruct (is_cont a) eqn:E; [|reflexivity]. apply is_cont_high in E. lia. }
    destruct ((0xC0 <=? p) && (p <? 0xE0)).
    { destruct pre as [|p1 pre]; cbn [app length] in *.
      - rewrite Hcb. reflexivity.
      - rewrite Hrec by lia. destruct (_ && _); reflexivity. }
    destruct ((0xE0 <=? p) && (p <? 0xF0)).
    { destruct pre as [|p1 [|p2 pre]]; cbn [app length] in *.
      - rewrite Hcb. reflexivity.
      - rewrite Hcb, andb_false_r. reflexivity.
      - rewrite Hrec by lia. destruct (_ && _); reflexivity. }
    destruct ((0xF0 <=? p) && (p <? 0xF8)); [|reflexivity].
    destruct pre as [|p1 [|p2 [|p3 pre]]]; cbn [app length] in *.
    + rewrite Hcb. destruct post; reflexivity.
    + rewrite Hcb, andb_false_r. reflexivity.
    + rewrite Hcb, andb_false_r. reflexivity.
    + rewrite Hrec by lia. destruct (_ && _); reflexivity.
Qed.

Lemma byte_bounded b : Byte.to_N b < 256.
Proof. destruct b; reflexivity. Qed.

(** X24. A body in another encoding is rejected as a whole. Wherever a
    byte from [0xC0] on, such as an accented letter of Latin-1, is followed
    by an ASCII byte, the body is not UTF-8: the run fails with
    [UnicodeDecodeError] and stores nothing. *)
Theorem non_utf8_body_is_rejected
  env net urandom event context s3 response pre b a post :
  net (CSV_URL env) = Ok response ->
  status_code response < 400 ->
  content response = pre ++ b :: a :: post ->
  0xC0 <= Byte.to_N b ->
  Byte.to_N a < 0x80 ->
  UrlParser.lambda_handler env net urandom event context s3
  = (Raise UnicodeDecodeError, s3).
Proof.
  intros Hnet Hstatus Hcontent Hb Ha.
  rewrite ingest_run. unfold fetched, raise_for_status. rewrite Hnet. cbn [rbind].
  replace (400 <=? status_code response) with false
    by (symmetry; apply N.leb_gt; exact Hstatus).
  cbn [andb rbind]. unfold bytes_decode. rewrite Hcontent, map_app. cbn [map].
  rewrite (bytes_decode_N_lead_then_ascii (length (map Byte.to_N pre)));
    [reflexivity|lia| |exact Ha].
  split; [exact Hb|apply byte_bounded].
Qed.

(** * The byte order mark *)

Lemma bytes_decode_mark rest text :
  bytes_decode (Byte.xef :: Byte.xbb :: Byte.xbf :: rest) = Ok text ->
  exists t, text = BOM :: t.
Proof.
  unfold bytes_decode. cbn [map]. change (Byte.to_N Byte.xef) with 0xEF.
  change (Byte.to_N Byte.xbb) with 0xBB. change (Byte.to_N Byte.xbf) with 0xBF.
  cbn [bytes_decode_N].
  change (0xEF <? 0x80) with false. change ((0xC0 <=? 0xEF) && (0xEF <? 0xE0)) with false.
  change ((0xE0 <=? 0xEF) && (0xEF <? 0xF0)) with true. cbv iota.
  match goal with
  | |- (if ?c then _ else _) = _ -> _ => change c with true
  end.
  cbv iota. destruct (bytes_decode_N (map Byte.to_N rest)) as [t|]; [|discriminate].
  cbn [rbind]. intros [= <-]. exists t. reflexivity.
Qed.

Lemma str_splitlines_mark t :
  exists l ls, str_splitlines (BOM :: t) = (BOM :: l) :: ls.
Proof.
  unfold str_splitlines. cbn [splitlines_from]. change (is_linebreak BOM) with false.
  cbv iota. cbn [app].
  destruct (splitlines_from_first t [BOM]) as (b & ls & ->); [discriminate|].
  exists b, ls. reflexivity.
Qed.

Lemma parse_add_char_fields self c r :
  parse_add_char self c = Ok r ->
  fields r = fields self /\ field r = field self ++ [c] /\ state r = state self.
Proof.
  unfold parse_add_char. destruct (_ <=? _); [discriminate|].
  intros [= <-]. repeat split.
Qed.

(** The fields read are never taken back. *)
Lemma parse_process_char_fields self c r :
  parse_process_char self c = Ok r -> exists more, fields r = fields self ++ more.
Proof.
  unfold parse_process_char, start_field.
  destruct (state self); destruct c as [ch|];
    repeat match goal with
           | |- context [if ?b then _ else _] => destruct b
           end;
    try match goal with
        | |- context [parse_add_char ?s ?x] =>
            destruct (parse_add_char s x) as [r'|] eqn:Ea; [|discriminate];
            apply parse_add_char_fields in Ea as (Hfs & _ & _)
        end;
    cbn [rbind]; try discriminate; intros [= <-];
    cbn [fields set_state parse_save_field] in *;
    rewrite ?Hfs; eauto using app_nil_r.
  all: exists []; rewrite app_nil_r; reflexivity.
Qed.

Lemma marked_step self c r :
  marked self -> parse_process_char self c = Ok r -> marked r.
Proof.
  intros [(Hfs & Hst & f & Hf)|(f & fs & Hfs)] Hr.
  - revert Hr. unfold parse_process_char. rewrite Hst.
    destruct c as [ch|];
      repeat match goal with
             | |- context [if ?b then _ else _] => destruct b
             end.
    all: try (intros [= <-]; right; cbn [fields set_state parse_save_field];
              rewrite Hfs, Hf; eexists _, _; reflexivity).
    intros Hr. apply parse_add_char_fields in Hr as (Hfs' & Hf' & Hst').
    left. rewrite Hfs', Hf', Hst', Hfs, Hst, Hf. repeat split. eexists. reflexivity.
  - right. apply parse_process_char_fields in Hr as [more ->]. rewrite Hfs.
    eexists _, _. reflexivity.
Qed.

Lemma marked_feed_chars line : forall self r,
  marked self -> feed_chars self line = Ok r -> marked r.
Proof.
  induction line as [|c line IH]; intros self r Hm; cbn [feed_chars].
  - intros [= <-]. exact Hm.
  - destruct (parse_process_char self (Some c)) as [r0|] eqn:E; [|discriminate].
    cbn [rbind]. apply IH. eapply marked_step; eassumption.
Qed.

(** At the end of a line the row is complete, or a quoted field is open. *)
Lemma marked_end_of_line self r :
  marked self -> parse_process_char self None = Ok r ->
  (exists f fs, fields r = (BOM :: f) :: fs)
  /\ (state r = START_RECORD \/ state r = IN_QUOTED_FIELD).
Proof.
  intros Hm Hr. pose proof (marked_step _ _ _ Hm Hr) as Hm'. revert Hr Hm'.
  unfold parse_process_char, start_field.
  destruct Hm as [(Hfs & Hst & f & Hf)|(f & fs & Hfs)].
  - rewrite Hst. intros [= <-]. cbn [fields state set_state parse_save_field].
    rewrite Hfs, Hf. intros _. split; [eexists _, _; reflexivity|left; reflexivity].
  - destruct (state self) eqn:Est; intros [= <-];
      cbn [fields state set_state parse_save_field]; rewrite ?Est, ?Hfs; intros _;
      (split; [eexists _, _; reflexivity|auto]).
Qed.

Lemma marked_feed_line self line r :
  marked self -> feed_line self line = Ok r ->
  (exists f fs, fields r = (BOM :: f) :: fs)
  /\ (state r = START_RECORD \/ state r = IN_QUOTED_FIELD).
Proof.
  intros Hm. unfold feed_line.
  destruct (feed_chars self line) as [r0|] eqn:E; [|discriminate]. cbn [rbind].
  apply marked_end_of_line. eapply marked_feed_chars; eassumption.
Qed.

Lemma marked_read_rows lines : forall self rows,
  (exists f fs, fields self = (BOM :: f) :: fs) -> state self = IN_QUOTED_FIELD ->
  read_rows self lines = Ok rows ->
  exists name names rows', rows = ((BOM :: name) :: names) :: rows'.
Proof.
  induction lines as [|line lines IH]; intros self rows (f & fs & Hfs) Hst;
    cbn [read_rows].
  - rewrite Hst. cbn [parse_save_field fields]. rewrite Hfs.
    destruct (field self); intros [= <-]; eexists _, _, _; reflexivity.
  - destruct (feed_line self line) as [r|] eqn:E; [|discriminate]. cbn [rbind].
    destruct (marked_feed_line self line r) as ((f' & fs' & Hfs') & Hst');
      [right; eauto|exact E|].
    destruct Hst' as [Hst'|Hst']; rewrite Hst'.
    + destruct (read_rows parse_reset lines) as [rs|]; [|discriminate].
      cbn [rbind]. intros [= <-]. rewrite Hfs'. eexists _, _, _. reflexivity.
    + apply IH; eauto.
Qed.

(** The header of a text that starts with the byte order mark. *)
Lemma csv_table_mark t rows :
  csv_table (BOM :: t) = Ok rows ->
  exists name names rows', rows = ((BOM :: name) :: names) :: rows'.
Proof.
  unfold csv_table, csv_reader.
  destruct (str_splitlines_mark t) as (l & ls & ->). cbn [read_rows].
  destruct (feed_line parse_reset (BOM :: l)) as [r|] eqn:E; [|discriminate].
  cbn [rbind].
  assert (Hm : (exists f fs, fields r = (BOM :: f) :: fs)
               /\ (state r = START_RECORD \/ state r = IN_QUOTED_FIELD)).
  { revert E. unfold feed_line. cbn [feed_chars].
    change (parse_process_char parse_reset (Some BOM))
      with (Ok {| state := IN_FIELD; fields := []; field := [BOM] |}).
    cbn [rbind]. intros E.
    apply (marked_feed_line {| state := IN_FIELD; fields := []; field := [BOM] |} l);
      [|exact E].
    left. cbn [fields state field]. repeat split. eexists. reflexivity. }
  destruct Hm as ((f & fs & Hfs) & [Hst|Hst]); rewrite Hst.
  - destruct (read_rows parse_reset ls) as [rs|]; [|discriminate].
    cbn [rbind]. intros [= <-]. rewrite Hfs. eexists _, _, _. reflexivity.
  - apply marked_read_rows; eauto.
Qed.

(** X25. A UTF-8 byte order mark at the start of the body is not removed:
    it is read as the first character of the first column name, so in every
    stored record that column goes by a name that starts with U+FEFF. *)
Theorem byte_order_mark_stays_in_first_name
  env net urandom event context s3 response rest r :
  net (CSV_URL env) = Ok response ->
  content response = Byte.xef :: Byte.xbb :: Byte.xbf :: rest ->
  fst (UrlParser.lambda_handler env net urandom event context s3) = Ok r ->
  exists objects records name,
    UrlParser.lambda_handler env net urandom event context s3
    = (Ok confirmation, after_ingestion env s3 objects records)
    /\ Forall (fun record => exists d, record = PDict d
                                     /\ In (Some (BOM :: name)) (map fst d)) records.
Proof.
  intros Hnet Hcontent. rewrite ingest_run.
  destruct (fetched env net) as [text|] eqn:Hf; [|discriminate].
  destruct (DictReader (str_splitlines text)) as [dicts|] eqn:Hd; [|discriminate].
  destruct (s3 !! S3_BUCKET_NAME env) as [objects|]; [|discriminate].
  intros _.
  assert (Htext : exists t, text = BOM :: t).
  { revert Hf. unfold fetched. rewrite Hnet. cbn [rbind].
    destruct (raise_for_status response); [|discriminate]. cbn [rbind].
    rewrite Hcontent. apply bytes_decode_mark. }
  destruct Htext as [t ->].
  apply DictReader_cases in Hd as [[Ht _]|(header & rs & Ht & ->)];
    apply csv_table_mark in Ht as (name & names & rows' & E); [discriminate|].
  injection E as -> ->.
  exists objects, (written_records urandom ((BOM :: name) :: names) rows'), name.
  split; [reflexivity|].
  apply List.Forall_forall. intros record Hin.
  apply In_nth_error in Hin as [i Hi].
  apply written_nth in Hi as (row & _ & ->). eexists. split; [reflexivity|].
  apply dict_set_keep_key, DictReader_row_has_field. left. reflexivity.
Qed.

(** X26. The query handler does not take a byte order mark either: a stored
    object that starts with one is decoded with U+FEFF as its first
    character, which [json.loads] refuses, so every request fails. *)
Theorem marked_object_is_rejected env s3 random event context o rest :
  blob env s3 = Some o ->
  Body o = Byte.xef :: Byte.xbb :: Byte.xbf :: rest ->
  exists e,
    JsonEndpoint.lambda_handler env random event context s3 = (Raise e, s3)
    /\ (e = UnicodeDecodeError \/ e = JSONDecodeError).
Proof.
  intros Hb Hbody. rewrite query_run. unfold persisted. unfold blob in Hb.
  destruct (s3 !! S3_BUCKET_NAME env) as [objects|]; [|discriminate].
  rewrite Hb, Hbody.
  destruct (bytes_decode _) as [text|e] eqn:E; cbn [rbind].
  - apply bytes_decode_mark in E as [t ->]. exists JSONDecodeError.
    split; [reflexivity|right; reflexivity].
  - exists e. split; [reflexivity|]. left. eapply bytes_decode_raises. exact E.
Qed.

(** * The further properties on concrete runs *)

Lemma fetched_serve env status body :
  is_ascii body -> (status <? 400) = true ->
  fetched env (serve status body) = Ok body.
Proof.
  intros Hb Hs. unfold fetched, serve, raise_for_status. cbn [rbind status_code content].
  apply N.ltb_lt in Hs.
  replace (400 <=? status) with false by (symmetry; apply N.leb_gt; exact Hs).
  cbn [andb rbind]. apply bytes_decode_ascii. exact Hb.
Qed.

Lemma repeat_all {A} (P : A -> Prop) (x : A) n : P x -> Forall P (repeat x n).
Proof. intros H. induction n; cbn [repeat]; constructor; assumption. Qed.

Lemma forallb_repeat {A} (f : A -> bool) (x : A) n :
  f x = true -> forallb f (repeat x n) = true.
Proof.
  intros H. induction n; cbn [repeat forallb]; [reflexivity|]. rewrite H. exact IHn.
Qed.

Lemma query_response_is_a_stored_record_witness :
  exists item,
    In item demo_records
    /\ JsonEndpoint.json_response (fruit "apple" "b2")
       = {| statusCode := 200;
            body := json_dumps item;
            headers := Some [(lit "Content-Type", lit "application/json")] |}
    /\ is_ascii (body (JsonEndpoint.json_response (fruit "apple" "b2"))).
Proof.
  apply (query_response_is_a_stored_record demo_env (s3_holding (PList demo_records))
           7 (request_id "zz") PNone demo_records).
  - vm_compute. reflexivity.
  - vm_compute. reflexivity.
Defined.

Lemma query_without_object_fails_witness :
  JsonEndpoint.lambda_handler demo_env 0 (request PNone) PNone ∅
  = (Raise NoSuchBucket, ∅)
  /\ JsonEndpoint.lambda_handler demo_env 0 (request PNone) PNone empty_bucket
     = (Raise NoSuchKey, empty_bucket).
Proof.
  split.
  - destruct (query_without_object_fails demo_env ∅ 0 (request PNone) PNone)
      as [H _].
    apply H. reflexivity.
  - destruct (query_without_object_fails demo_env empty_bucket 0 (request PNone) PNone)
      as [_ H].
    apply (H ∅); reflexivity.
Defined.

Lemma query_on_blank_object_fails_witness :
  JsonEndpoint.lambda_handler demo_env 0 (request PNone) PNone (s3_storing [32; 10])
  = (Raise JSONDecodeError, s3_storing [32; 10]).
Proof.
  apply (query_on_blank_object_fails demo_env (s3_storing [32; 10]) 0 (request PNone)
           PNone (json_object [32; 10])).
  - reflexivity.
  - repeat constructor.
Defined.

Lemma lookup_stops_at_first_match_witness :
  JsonEndpoint.lambda_handler demo_env 0 (request_id "b2") PNone
    (s3_holding (PList [fruit "lemon" "a1"; fruit "apple" "b2"; nameless; PNone]))
  = (Ok {| statusCode := 200;
           body := json_dumps (fruit "apple" "b2");
           headers := Some [(lit "Content-Type", lit "application/json")] |},
     s3_holding (PList [fruit "lemon" "a1"; fruit "apple" "b2"; nameless; PNone])).
Proof.
  apply (lookup_stops_at_first_match demo_env
           (s3_holding (PList [fruit "lemon" "a1"; fruit "apple" "b2"; nameless; PNone]))
           0 (request_id "b2") PNone (PStr (lit "b2"))
           [fruit "lemon" "a1"] (fruit "apple" "b2") [nameless; PNone]
           (PStr (lit "b2"))).
  - vm_compute. reflexivity.
  - reflexivity.
  - reflexivity.
  - constructor; [|constructor]. exists (PStr (lit "a1")). split; reflexivity.
  - reflexivity.
  - reflexivity.
Defined.

Lemma request_shapes_witness :
  JsonEndpoint.lambda_handler demo_env 4 PNone PNone (s3_holding (PList demo_records))
  = (Raise TypeError, s3_holding (PList demo_records))
  /\ JsonEndpoint.lambda_handler demo_env 4 (request (PStr [])) PNone
       (s3_holding (PList demo_records))
     = (random_selection 4 (PList demo_records), s3_holding (PList demo_records))
  /\ JsonEndpoint.lambda_handler demo_env 4 (request (PStr (lit "id=a1"))) PNone
       (s3_holding (PList demo_records))
     = (Raise AttributeError, s3_holding (PList demo_records)).
Proof.
  destruct (request_shapes demo_env (s3_holding (PList demo_records)) 4 PNone
              (PList demo_records)) as (H1 & H2 & H3).
  { vm_compute. reflexivity. }
  split; [|split].
  - apply H1. discriminate.
  - apply (H2 _ (PStr [])); reflexivity.
  - apply (H3 _ (PStr (lit "id=a1"))); [reflexivity|reflexivity|discriminate].
Defined.

Lemma query_on_non_array_fails_witness :
  exists e,
    JsonEndpoint.lambda_handler demo_env 4 (request_id "a1") PNone
      (s3_holding (PDict [(Some (lit "a1"), fruit "lemon" "a1")]))
    = (Raise e, s3_holding (PDict [(Some (lit "a1"), fruit "lemon" "a1")])).
Proof.
  apply (query_on_non_array_fails demo_env
           (s3_holding (PDict [(Some (lit "a1"), fruit "lemon" "a1")]))
           4 (request_id "a1") PNone (PDict [(Some (lit "a1"), fruit "lemon" "a1")])).
  - vm_compute. reflexivity.
  - right. right. eexists. reflexivity.
Defined.

Lemma ingestion_touches_only_its_object_witness :
  object_at
    (snd (UrlParser.lambda_handler demo_env (serve 200 demo_csv) demo_urandom PNone
            PNone (s3_holding (PList demo_records))))
    (lit "records") (lit "other.json")
  = object_at (s3_holding (PList demo_records)) (lit "records") (lit "other.json").
Proof.
  destruct (ingestion_touches_only_its_object demo_env (serve 200 demo_csv)
              demo_urandom PNone PNone (s3_holding (PList demo_records))) as [H _].
  apply H. vm_compute. discriminate.
Defined.

Lemma successful_ingestion_stores_ascii_json_witness :
  confirmation
  = {| statusCode := 200;
       body := json_dumps
                 (PStr (lit "CSV successfully processed and stored as JSON in S3"));
       headers := None |}
  /\ exists o records,
       blob demo_env
         (snd (UrlParser.lambda_handler demo_env (serve 200 demo_csv) demo_urandom
                 PNone PNone empty_bucket)) = Some o
       /\ ContentType o = lit "application/json"
       /\ Forall (fun b => Byte.to_N b < 128) (Body o)
       /\ persisted demo_env
            (snd (UrlParser.lambda_handler demo_env (serve 200 demo_csv) demo_urandom
                    PNone PNone empty_bucket))
          = Ok (PList records).
Proof.
  apply (successful_ingestion_stores_ascii_json demo_env (serve 200 demo_csv)
           demo_urandom PNone PNone empty_bucket confirmation).
  vm_compute. reflexivity.
Defined.

Lemma empty_body_gives_empty_array_witness :
  UrlParser.lambda_handler demo_env (serve 200 []) demo_urandom PNone PNone empty_bucket
  = (Ok confirmation,
     <[S3_BUCKET_NAME demo_env := <[JSON_KEY demo_env := json_object (lit "[]")]> ∅]>
       empty_bucket).
Proof.
  apply (empty_body_gives_empty_array demo_env (serve 200 []) demo_urandom PNone PNone
           empty_bucket ∅); reflexivity.
Defined.

Lemma second_ingestion_replaces_the_first_witness :
  UrlParser.lambda_handler demo_env (serve 200 demo_csv) demo_urandom PNone PNone
    (snd (UrlParser.lambda_handler demo_env (serve 200 id_csv) other_urandom PNone
            PNone empty_bucket))
  = UrlParser.lambda_handler demo_env (serve 200 demo_csv) demo_urandom PNone PNone
      empty_bucket.
Proof.
  apply (second_ingestion_replaces_the_first demo_env (serve 200 id_csv) other_urandom
           PNone PNone (serve 200 demo_csv) demo_urandom PNone PNone empty_bucket
           confirmation).
  vm_compute. reflexivity.
Defined.

Lemma regular_rows_are_stored_in_header_order_witness :
  UrlParser.lambda_handler demo_env (serve 200 demo_csv) demo_urandom PNone PNone
    empty_bucket =
  (Ok confirmation,
   after_ingestion demo_env empty_bucket ∅
     (imap (regular_record demo_urandom [lit "name"; lit "color"])
        (data_rows [[lit "lemon"; lit "yellow"]; [lit "apple"; lit "red"]])))
  /\ persisted demo_env
       (after_ingestion demo_env empty_bucket ∅
          (imap (regular_record demo_urandom [lit "name"; lit "color"])
             (data_rows [[lit "lemon"; lit "yellow"]; [lit "apple"; lit "red"]])))
     = Ok (PList (imap (regular_record demo_urandom [lit "name"; lit "color"])
                    (data_rows [[lit "lemon"; lit "yellow"]; [lit "apple"; lit "red"]]))).
Proof.
  apply (regular_rows_are_stored_in_header_order demo_env (serve 200 demo_csv)
           demo_urandom PNone PNone empty_bucket ∅ eq_refl demo_csv
           [lit "name"; lit "color"]
           [[lit "lemon"; lit "yellow"]; [lit "apple"; lit "red"]]).
  - vm_compute. reflexivity.
  - vm_compute. reflexivity.
  - vm_compute. repeat (constructor; [cbn [In]; intuition discriminate|]). constructor.
  - vm_compute. intuition discriminate.
  - repeat constructor.
Defined.

Lemma blank_first_line_is_the_header_witness :
  UrlParser.lambda_handler demo_env (serve 200 (10 :: demo_csv)) demo_urandom PNone
    PNone empty_bucket =
  (Ok confirmation,
   after_ingestion demo_env empty_bucket ∅
     (imap (headerless_record demo_urandom)
        (data_rows [[lit "name"; lit "color"]; [lit "lemon"; lit "yellow"];
                    [lit "apple"; lit "red"]]))).
Proof.
  apply (blank_first_line_is_the_header demo_env (serve 200 (10 :: demo_csv))
           demo_urandom PNone PNone empty_bucket ∅ eq_refl (10 :: demo_csv) demo_csv).
  - vm_compute. reflexivity.
  - left. reflexivity.
  - vm_compute. reflexivity.
Defined.

Lemma ragged_rows_are_stored_witness :
  exists records,
    UrlParser.lambda_handler demo_env (serve 200 ragged_csv) demo_urandom PNone PNone
      empty_bucket =
    (Ok confirmation, after_ingestion demo_env empty_bucket ∅ records)
    /\ length records = length (data_rows [[lit "1"]; [lit "1"; lit "2"; lit "3"]])
    /\ forall i row,
         nth_error (data_rows [[lit "1"]; [lit "1"; lit "2"; lit "3"]]) i = Some row ->
         exists d,
           nth_error records i = Some (PDict d)
           /\ (forall pre name post,
                 [lit "a"; lit "b"] = pre ++ name :: post ->
                 ~ In name post -> name <> lit "id" ->
                 dict_get d (Some name)
                 = Some (match nth_error row (length pre) with
                         | Some cell => PStr cell
                         | None => PNone
                         end))
           /\ dict_get d None
              = if Nat.ltb (length [lit "a"; lit "b"]) (length row)
                then Some (PList (map PStr (skipn (length [lit "a"; lit "b"]) row)))
                else None.
Proof.
  apply (ragged_rows_are_stored demo_env (serve 200 ragged_csv) demo_urandom PNone
           PNone empty_bucket ∅ eq_refl ragged_csv [lit "a"; lit "b"]
           [[lit "1"]; [lit "1"; lit "2"; lit "3"]]).
  - vm_compute. reflexivity.
  - vm_compute. reflexivity.
Defined.

Lemma ingestion_twice_same_structure_witness :
  exists objects records1 records2,
    UrlParser.lambda_handler demo_env (serve 200 demo_csv) demo_urandom PNone PNone
      empty_bucket
    = (Ok confirmation, after_ingestion demo_env empty_bucket objects records1)
    /\ UrlParser.lambda_handler demo_env (serve 200 demo_csv) other_urandom PNone PNone
         (after_ingestion demo_env empty_bucket objects records1)
       = (Ok confirmation, after_ingestion demo_env empty_bucket objects records2)
    /\ length records1 = length records2
    /\ Forall2 same_but_id records1 records2
    /\ forall i r1 r2,
         nth_error records1 i = Some r1 -> nth_error records2 i = Some r2 ->
         (record_id r1 = record_id r2 <->
          uuid4_int (demo_urandom i) = uuid4_int (other_urandom i)).
Proof.
  apply (ingestion_twice_same_structure demo_env (serve 200 demo_csv) demo_urandom
           other_urandom PNone PNone PNone PNone empty_bucket confirmation).
  vm_compute. reflexivity.
Defined.

Lemma query_after_ingestion_is_answered_witness :
  exists i row,
    nth_error (data_rows [[lit "lemon"; lit "yellow"]; [lit "apple"; lit "red"]]) i
    = Some row
    /\ fst (JsonEndpoint.lambda_handler demo_env 5 (request_id "zz") PNone
              (snd (UrlParser.lambda_handler demo_env (serve 200 demo_csv) demo_urandom
                      PNone PNone empty_bucket)))
       = Ok {| statusCode := 200;
               body := json_dumps
                         (loaded (written_record demo_urandom [lit "name"; lit "color"]
                                    i row));
               headers := Some [(lit "Content-Type", lit "application/json")] |}.
Proof.
  apply (query_after_ingestion_is_answered demo_env (serve 200 demo_csv) demo_urandom
           PNone PNone 5 (request_id "zz") PNone empty_bucket demo_csv
           [lit "name"; lit "color"]
           [[lit "lemon"; lit "yellow"]; [lit "apple"; lit "red"]] ∅
           (PStr (lit "zz"))).
  - vm_compute. reflexivity.
  - vm_compute. reflexivity.
  - discriminate.
  - reflexivity.
  - reflexivity.
Defined.

Lemma query_after_empty_ingestion_fails_witness :
  exists e,
    fst (JsonEndpoint.lambda_handler demo_env 5 (request_id "a1") PNone
           (snd (UrlParser.lambda_handler demo_env (serve 200 (lit "name,color"))
                   demo_urandom PNone PNone empty_bucket)))
    = Raise e.
Proof.
  apply (query_after_empty_ingestion_fails demo_env (serve 200 (lit "name,color"))
           demo_urandom PNone PNone 5 (request_id "a1") PNone empty_bucket
           (lit "name,color") [lit "name"; lit "color"] [] ∅).
  - vm_compute. reflexivity.
  - vm_compute. reflexivity.
  - reflexivity.
  - reflexivity.
Defined.

Lemma line_terminators_do_not_matter_witness :
  UrlParser.lambda_handler demo_env
    (serve 200 (terminated [13; 10]
                  ([lit "name,color"; lit "lemon,yellow"] ++ [lit "apple,red"])))
    demo_urandom PNone PNone empty_bucket
  = UrlParser.lambda_handler demo_env
      (serve 200 (terminated [10] [lit "name,color"; lit "lemon,yellow"]
                  ++ lit "apple,red"))
      demo_urandom PNone PNone empty_bucket.
Proof.
  apply (line_terminators_do_not_matter demo_env
           (serve 200 (terminated [10] [lit "name,color"; lit "lemon,yellow"]
                       ++ lit "apple,red"))
           (serve 200 (terminated [13; 10]
                         ([lit "name,color"; lit "lemon,yellow"] ++ [lit "apple,red"])))
           demo_urandom PNone PNone empty_bucket [10] [13; 10]
           [lit "name,color"; lit "lemon,yellow"] (lit "apple,red")).
  - right. exists 10. split; reflexivity.
  - left. reflexivity.
  - repeat constructor.
  - repeat constructor.
  - vm_compute. reflexivity.
  - right. split; [discriminate|]. vm_compute. reflexivity.
Defined.

Lemma cells_hold_no_line_break_witness :
  Forall (Forall unbroken) [[lit "note"]; [lit "ab"]].
Proof.
  apply (cells_hold_no_line_break quoted_break_csv [[lit "note"]; [lit "ab"]]).
  vm_compute. reflexivity.
Defined.

Lemma ingestion_accepts_csv_text_witness :
  fst (UrlParser.lambda_handler demo_env (serve 200 demo_csv) demo_urandom PNone PNone
         empty_bucket) = Ok confirmation.
Proof.
  apply (ingestion_accepts_csv_text demo_env (serve 200 demo_csv) demo_urandom PNone
           PNone empty_bucket ∅ demo_csv).
  - vm_compute. reflexivity.
  - reflexivity.
  - left. vm_compute. discriminate.
Defined.

Lemma oversized_field_is_rejected_witness :
  UrlParser.lambda_handler demo_env (serve 200 (long_cell ++ lit ",b")) demo_urandom
    PNone PNone empty_bucket
  = (Raise CsvError, empty_bucket).
Proof.
  apply (oversized_field_is_rejected demo_env (serve 200 (long_cell ++ lit ",b"))
           demo_urandom PNone PNone empty_bucket [] long_cell (lit ",b")).
  - rewrite app_nil_l.
    apply (fetched_serve demo_env 200 (long_cell ++ lit ",b")); [|reflexivity].
    apply is_ascii_app; [apply repeat_all; reflexivity|ascii_literal].
  - apply forallb_repeat. reflexivity.
  - unfold size, long_cell. rewrite repeat_length, N2Nat.id. reflexivity.
Defined.

Lemma assigned_ids_are_uuid4_texts_witness :
  exists objects records,
    UrlParser.lambda_handler demo_env (serve 200 demo_csv) demo_urandom PNone PNone
      empty_bucket
    = (Ok confirmation, after_ingestion demo_env empty_bucket objects records)
    /\ Forall (fun record => exists d s,
                 record = PDict d /\ dict_get d (Some (lit "id")) = Some (PStr s)
                 /\ uuid4_text s = true) records.
Proof.
  apply (assigned_ids_are_uuid4_texts demo_env (serve 200 demo_csv) demo_urandom PNone
           PNone empty_bucket confirmation).
  vm_compute. reflexivity.
Defined.

Lemma non_utf8_body_is_rejected_witness :
  UrlParser.lambda_handler demo_env (serve 200 latin1_csv) demo_urandom PNone PNone
    empty_bucket
  = (Raise UnicodeDecodeError, empty_bucket).
Proof.
  apply (non_utf8_body_is_rejected demo_env (serve 200 latin1_csv) demo_urandom PNone
           PNone empty_bucket (mkHttpResponse 200 (map byte_of_N latin1_csv))
           (map byte_of_N (lit "caf")) Byte.xe9 Byte.x2c (map byte_of_N (lit "x"))).
  - reflexivity.
  - reflexivity.
  - vm_compute. reflexivity.
  - vm_compute. discriminate.
  - reflexivity.
Defined.

Lemma byte_order_mark_stays_in_first_name_witness :
  exists objects records name,
    UrlParser.lambda_handler demo_env (serve 200 marked_csv) demo_urandom PNone PNone
      empty_bucket
    = (Ok confirmation, after_ingestion demo_env empty_bucket objects records)
    /\ Forall (fun record => exists d, record = PDict d
                                     /\ In (Some (BOM :: name)) (map fst d)) records.
Proof.
  apply (byte_order_mark_stays_in_first_name demo_env (serve 200 marked_csv)
           demo_urandom PNone PNone empty_bucket
           (mkHttpResponse 200 (map byte_of_N marked_csv))
           (map byte_of_N demo_csv) confirmation).
  - reflexivity.
  - vm_compute. reflexivity.
  - vm_compute. reflexivity.
Defined.

Lemma marked_object_is_rejected_witness :
  exists e,
    JsonEndpoint.lambda_handler demo_env 0 (request PNone) PNone
      (s3_storing ([239; 187; 191] ++ lit "[]"))
    = (Raise e, s3_storing ([239; 187; 191] ++ lit "[]"))
    /\ (e = UnicodeDecodeError \/ e = JSONDecodeError).
Proof.
  apply (marked_object_is_rejected demo_env (s3_storing ([239; 187; 191] ++ lit "[]"))
           0 (request PNone) PNone (json_object ([239; 187; 191] ++ lit "[]"))
           (map byte_of_N (lit "[]"))).
  - reflexivity.
  - vm_compute. reflexivity.
Defined.

Lemma only_error_statuses_matter_witness :
  UrlParser.lambda_handler demo_env (serve 200 demo_csv) demo_urandom PNone PNone
    empty_bucket
  = UrlParser.lambda_handler demo_env (serve 302 demo_csv) demo_urandom PNone PNone
      empty_bucket.
Proof.
  apply (only_error_statuses_matter demo_env (serve 200 demo_csv) (serve 302 demo_csv)
           demo_urandom PNone PNone empty_bucket
           (mkHttpResponse 200 (map byte_of_N demo_csv))
           (mkHttpResponse 302 (map byte_of_N demo_csv))).
  - reflexivity.
  - reflexivity.
  - reflexivity.
  - cbn [status_code]. lia.
  - cbn [status_code]. lia.
Defined.
